(** * Puppyteer: the page-session coordinator and the tab pool

    A shallow embedding of [src/page.ts] (class [PuppyteerPage]) and
    [src/browser.ts] (class [Puppyteer]).  Asynchronous methods are
    state transformers over a [World] that holds the one [Puppyteer]
    object, the [PuppyteerPage] under consideration and the history of
    everything the code did to the outside (status sink, console,
    mutexes, timers, browser driver).  An awaited promise either
    fulfils, rejects or never settles. *)

From Stdlib Require Import ZArith QArith Qabs Qround Qpower Lqa String Ascii List Lia DecimalString.
From stdpp Require Import base tactics option list strings.
Import ListNotations.

Local Open Scope string_scope.
Local Open Scope list_scope.

(** ** Values *)

(** Driver objects are compared by identity. *)
Definition Browser := nat.
Definition Page := nat.
Definition ElementHandle := nat.

(** [DOMRectReadOnly]: what [getBoundingClientRect] reports, in CSS
    pixels.  Coordinates are fractional: each is a double, taken by its
    exact value. *)
Record DOMRect := { rect_top : Q; rect_left : Q; rect_width : Q; rect_height : Q }.

Record Point := { pt_x : Z; pt_y : Z }.

(** A thrown JavaScript [Error]. *)
Record Err := Error { message : string }.

Inductive WaitIn := foreground | background.

(** [GoOptions], [SelectorOptions], [TypeOptions]: every field optional
    ([None] is [undefined]). *)
Record GoOptions := {
  go_timeoutMs : option Z;
  go_waitUntil : option string;
  go_waitAfterMs : option Z }.

Record SelectorOptions := {
  sel_timeoutMs : option Z;
  sel_waitIn : option WaitIn;
  sel_visible : option bool }.

Record TypeOptions := {
  type_scrollIntoView : option bool;
  type_slowTyping : option bool;
  type_waitAfter : option Z;
  type_waitIn : option WaitIn;
  multiLinedShiftReturn : option bool;
  pressReturnAtEnd : option bool }.

(** [TaskOptions]: the part of the task configuration the code reads. *)
Record TaskOptions := {
  title : string;
  url : option string;
  goOptions : option GoOptions }.

(** ** JavaScript helpers *)

(** Truthiness of a string, a number and an optional flag. *)
Definition truthy_string (s : string) : bool :=
  match s with EmptyString => false | String _ _ => true end.

Definition truthy_number (n : option Z) : bool :=
  match n with Some z => negb (z =? 0)%Z | None => false end.

Definition truthy_flag (b : option bool) : bool := default false b.

(** Number to string, for integers. *)
Definition string_of_Z (z : Z) : string := NilZero.string_of_int (Z.to_int z).

Definition string_of_WaitIn (m : option WaitIn) : string :=
  match m with
  | Some foreground => "foreground"
  | Some background => "background"
  | None => "undefined"
  end.

(** Strings are sequences of code units below 256.  [text.split('\n')] *)
Definition newline : ascii := ascii_of_nat 10.

Fixpoint split_newline (s : string) : list string :=
  match s with
  | EmptyString => [EmptyString]
  | String c rest =>
      if Ascii.eqb c newline then EmptyString :: split_newline rest
      else match split_newline rest with
           | first :: others => String c first :: others
           | [] => [String c EmptyString]
           end
  end.

(** White space and line terminators of ECMAScript in that range: TAB,
    LF, VT, FF, CR, SP and NBSP. *)
Definition is_whitespace (c : ascii) : bool :=
  let n := nat_of_ascii c in
  ((9 <=? n)%nat && (n <=? 13)%nat) || (n =? 32)%nat || (n =? 160)%nat.

(** [line.trimEnd()] *)
Fixpoint trimEnd (s : string) : string :=
  match s with
  | EmptyString => EmptyString
  | String c rest =>
      match trimEnd rest with
      | EmptyString => if is_whitespace c then EmptyString else String c EmptyString
      | kept => String c kept
      end
  end.

(** ** Numbers *)

(** A JavaScript number is an IEEE 754 double.  A finite double is taken
    by its exact value; an arithmetic operation gives the double
    nearest to the exact result, and of two equally near the one whose
    significand is even.  A double has 53 significant bits and no
    exponent below -1074.  Results beyond the largest double,
    infinities and NaN are not modelled. *)

(** The [e] with [2^e <= |q| < 2^(e+1)], for [q] other than 0. *)
Definition Qlog2 (q : Q) : Z :=
  let e := (Z.log2 (Z.abs (Qnum q)) - Z.log2 (Zpos (Qden q)))%Z in
  if Qle_bool (2 ^ e) (Qabs q) then e else (e - 1)%Z.

(** The nearest integer, the even one of two. *)
Definition roundHalfEven (q : Q) : Z :=
  let f := Qfloor q in
  match Qcompare (q - inject_Z f) (1 # 2) with
  | Lt => f
  | Eq => if Z.even f then f else (f + 1)%Z
  | Gt => (f + 1)%Z
  end.

(** The nearest double. *)
Definition roundDouble (q : Q) : Q :=
  if Qeq_bool q 0 then 0%Q
  else
    let e := Z.max (Qlog2 q - 52) (-1074) in
    (inject_Z (roundHalfEven (q / 2 ^ e)) * 2 ^ e)%Q.

(** [a - b], [a * b] and [a + b] on numbers *)
Definition number_sub (a b : Q) : Q := roundDouble (a - b).
Definition number_mul (a b : Q) : Q := roundDouble (a * b).
Definition number_add (a b : Q) : Q := roundDouble (a + b).

(** ** Everything the code does to the outside *)

Inductive Key := Shift | Enter | Escape.

(** Requests to the browser driver (puppeteer). *)
Inductive Call :=
| CLaunch
| CPages (b : Browser)
| CNewPage (b : Browser)
| CSetViewport (p : Page) (w h : Z)
| CGoto (p : Page) (u : string) (timeout : Z) (waitUntil : string)
| CBringToFront (p : Page)
| CQuery (p : Page) (selector : string)
| CQueryAll (p : Page) (selector : string)
| CWaitForSelector (p : Page) (selector : string) (timeout : Z) (visible : option bool)
| CIsTrulyVisible (el : ElementHandle)
| CParentElement (el : ElementHandle)
| CBoundingCenter (el : ElementHandle)
| CScrollTo (p : Page) (pt : Point)
| CFocus (el : ElementHandle)
| CKeyboardType (p : Page) (text : string) (delay : Z)
| CKeyboardDown (p : Page) (k : Key)
| CKeyboardPress (p : Page) (k : Key)
| CKeyboardUp (p : Page) (k : Key).

Inductive Event :=
| EvStatus (msg : string)               (* config.fStatus(msg) *)
| EvConsoleLog (msg : option string)    (* console.log(msg) *)
| EvConsoleError (e : Err)              (* console.error(err) *)
| EvAcquire                             (* activePageMutex acquired *)
| EvRelease                             (* activePageMutex.release() *)
| EvSetTimeout (ms : Z)                 (* setTimeout(resolve, ms) *)
| EvCall (c : Call).                    (* a driver request *)

(** ** Outcomes of awaited code *)

Inductive Outcome (A : Type) : Type :=
| Ok (a : A)
| Throw (e : Err)
| Pending.
Arguments Ok {A} a.
Arguments Throw {A} e.
Arguments Pending {A}.

(** The browser driver is not part of the repository.  Its answers are
    taken as given: each request is answered from the history so far,
    and any request may fail or hang. *)
Record Driver := {
  drv_launch : list Event -> Outcome Browser;
  drv_pages : list Event -> Browser -> Outcome (list Page);
  drv_newPage : list Event -> Browser -> Outcome Page;
  drv_unit : list Event -> Call -> Outcome unit;
  drv_query : list Event -> Page -> string -> Outcome (option ElementHandle);
  drv_queryAll : list Event -> Page -> string -> Outcome (list ElementHandle);
  drv_waitForSelector : list Event -> Page -> string -> Outcome (option ElementHandle);
  drv_isTrulyVisible : list Event -> ElementHandle -> Outcome (option DOMRect);
  drv_parentElement : list Event -> ElementHandle -> Outcome ElementHandle;
  drv_boundingCenter : list Event -> ElementHandle -> Outcome Point }.

(** ** State *)

(** [Mutex] of async-mutex: a semaphore of value one. *)
Record Mutex := { isLocked : bool }.

(** class [Puppyteer] *)
Record Puppyteer := {
  headless : bool;
  width : Z;
  height : Z;
  logActivity : bool;
  _browser : option Browser;
  availablePages : list Page;
  browserMutex : Mutex;
  activePageMutex : Mutex;
  activePage : option Page }.

(** class [PuppyteerPage] *)
Record PuppyteerPage := {
  page : Page;
  config : TaskOptions;
  statusStack : list string;
  inForeground : bool }.

Record World := {
  browser : Puppyteer;
  this : PuppyteerPage;
  trace : list Event }.

Definition set_browser_field (b : option Browser) (m : Puppyteer) : Puppyteer :=
  {| headless := headless m; width := width m; height := height m;
     logActivity := logActivity m; _browser := b;
     availablePages := availablePages m; browserMutex := browserMutex m;
     activePageMutex := activePageMutex m; activePage := activePage m |}.

Definition set_availablePages (l : list Page) (m : Puppyteer) : Puppyteer :=
  {| headless := headless m; width := width m; height := height m;
     logActivity := logActivity m; _browser := _browser m;
     availablePages := l; browserMutex := browserMutex m;
     activePageMutex := activePageMutex m; activePage := activePage m |}.

Definition set_browserMutex (x : Mutex) (m : Puppyteer) : Puppyteer :=
  {| headless := headless m; width := width m; height := height m;
     logActivity := logActivity m; _browser := _browser m;
     availablePages := availablePages m; browserMutex := x;
     activePageMutex := activePageMutex m; activePage := activePage m |}.

Definition set_activePageMutex (x : Mutex) (m : Puppyteer) : Puppyteer :=
  {| headless := headless m; width := width m; height := height m;
     logActivity := logActivity m; _browser := _browser m;
     availablePages := availablePages m; browserMutex := browserMutex m;
     activePageMutex := x; activePage := activePage m |}.

Definition set_activePage (p : option Page) (m : Puppyteer) : Puppyteer :=
  {| headless := headless m; width := width m; height := height m;
     logActivity := logActivity m; _browser := _browser m;
     availablePages := availablePages m; browserMutex := browserMutex m;
     activePageMutex := activePageMutex m; activePage := p |}.

Definition set_statusStack (s : list string) (p : PuppyteerPage) : PuppyteerPage :=
  {| page := page p; config := config p; statusStack := s;
     inForeground := inForeground p |}.

Definition set_inForeground (b : bool) (p : PuppyteerPage) : PuppyteerPage :=
  {| page := page p; config := config p; statusStack := statusStack p;
     inForeground := b |}.

Definition with_browser (f : Puppyteer -> Puppyteer) (w : World) : World :=
  {| browser := f (browser w); this := this w; trace := trace w |}.

Definition with_this (f : PuppyteerPage -> PuppyteerPage) (w : World) : World :=
  {| browser := browser w; this := f (this w); trace := trace w |}.

Definition emit (ev : Event) (w : World) : World :=
  {| browser := browser w; this := this w; trace := trace w ++ [ev] |}.

(** ** The monad of asynchronous code *)

Definition M (A : Type) : Type := World -> Outcome A * World.

Definition ret {A} (a : A) : M A := fun w => (Ok a, w).

Definition bind {A B} (m : M A) (k : A -> M B) : M B :=
  fun w =>
    match m w with
    | (Ok a, w1) => k a w1
    | (Throw e, w1) => (Throw e, w1)
    | (Pending, w1) => (Pending, w1)
    end.

Definition throw {A} (e : Err) : M A := fun w => (Throw e, w).

Definition get {A} (f : World -> A) : M A := fun w => (Ok (f w), w).

Definition modify (f : World -> World) : M unit := fun w => (Ok tt, f w).

Declare Scope js_scope.
Delimit Scope js_scope with js.
Notation "x <- m ;; k" := (bind m (fun x => k))
  (at level 100, m at next level, right associativity) : js_scope.
Notation "m ;; k" := (bind m (fun _ => k))
  (at level 100, right associativity) : js_scope.
Local Open Scope js_scope.

(** [try { body } finally { fin }]: [fin] runs once [body] has returned
    or thrown; a throw of [fin] itself replaces the outcome. *)
Definition try_finally {A} (body : M A) (fin : M unit) : M A :=
  fun w =>
    match body w with
    | (Pending, w1) => (Pending, w1)
    | (r, w1) =>
        match fin w1 with
        | (Ok _, w2) => (r, w2)
        | (Throw e, w2) => (Throw e, w2)
        | (Pending, w2) => (Pending, w2)
        end
    end.

(** [try { body } catch (err) { handler err }] *)
Definition try_catch {A} (body : M A) (handler : Err -> M A) : M A :=
  fun w =>
    match body w with
    | (Throw e, w1) => handler e w1
    | r => r
    end.

(** ** Primitives *)

Definition fStatus (msg : string) : M unit := modify (emit (EvStatus msg)).

Definition console_log (msg : option string) : M unit :=
  modify (emit (EvConsoleLog msg)).

Definition console_error (e : Err) : M unit :=
  modify (emit (EvConsoleError e)).

(** [new Promise(resolve => setTimeout(resolve, ms))] *)
Definition setTimeout (ms : Z) : M unit := modify (emit (EvSetTimeout ms)).

(** [activePageMutex.acquire()]: taken when free; while it is locked
    the promise stays pending until some holder releases it. *)
Definition activePageMutex_acquire : M unit :=
  fun w =>
    if isLocked (activePageMutex (browser w)) then (Pending, w)
    else (Ok tt, emit EvAcquire
                   (with_browser (set_activePageMutex {| isLocked := true |}) w)).

(** [activePageMutex.release()]: unlocks when locked, otherwise nothing. *)
Definition activePageMutex_release : M unit :=
  modify (fun w => emit EvRelease
    (with_browser (set_activePageMutex {| isLocked := false |}) w)).

(** [browserMutex.runExclusive(cb)] *)
Definition browserMutex_runExclusive {A} (cb : M A) : M A :=
  fun w =>
    if isLocked (browserMutex (browser w)) then (Pending, w)
    else try_finally cb
           (modify (with_browser (set_browserMutex {| isLocked := false |})))
           (with_browser (set_browserMutex {| isLocked := true |}) w).

(** A driver request: recorded, then answered from the history. *)
Definition request {A} (c : Call) (answer : list Event -> Outcome A) : M A :=
  fun w => (answer (trace w), emit (EvCall c) w).

(** [Promise.all]: every promise has been started; the result rejects as
    soon as one of them rejects and fulfils when all have. *)
Fixpoint promise_all {A} (rs : list (Outcome A)) : Outcome (list A) :=
  match rs with
  | [] => Ok []
  | Throw e :: _ => Throw e
  | Ok a :: rest =>
      match promise_all rest with
      | Ok l => Ok (a :: l)
      | Throw e => Throw e
      | Pending => Pending
      end
  | Pending :: rest =>
      match promise_all rest with
      | Throw e => Throw e
      | _ => Pending
      end
  end.

(** ** [Array.prototype.sort] *)

(** The sort of the V8 engine (TimSort), which reads nothing of a
    comparator's result but whether it is negative.  It first takes the
    longest run at the start of the array: non-descending, or strictly
    descending and then reversed.  When that run is the whole array the
    sort is over, whatever the length.  Otherwise, in an array of fewer
    than 64 elements, every later element is put into the run by binary
    insertion.  (Longer arrays with several runs are merged, which is
    not modelled.) *)
Section ArraySort.
Context {A : Type}.
Variable comparefn : A -> A -> Q.

Definition negative (order : Q) : bool := negb (Qle_bool 0 order).

(** [CountAndMakeRun]: how many of [rest] continue the run that ends in
    [previous]. *)
Fixpoint run_extent (isDescending : bool) (previous : A) (rest : list A) : nat :=
  match rest with
  | [] => 0
  | current :: rest' =>
      let order := comparefn current previous in
      if isDescending
      then (if negative order then S (run_extent isDescending current rest') else 0)
      else (if negative order then 0 else S (run_extent isDescending current rest'))
  end.

(** The binary search of [BinaryInsertionSort] in [arr[left .. right)]. *)
Fixpoint insertion_point (fuel : nat) (arr : list A) (pivot : A) (left right : nat) : nat :=
  match fuel with
  | O => left
  | S fuel' =>
      if (left <? right)%nat then
        let mid := (left + (right - left) / 2)%nat in
        match arr !! mid with
        | Some x =>
            if negative (comparefn pivot x)
            then insertion_point fuel' arr pivot left mid
            else insertion_point fuel' arr pivot (S mid) right
        | None => left
        end
      else left
  end.

Definition binary_insert (arr : list A) (pivot : A) : list A :=
  let pos := insertion_point (S (length arr)) arr pivot 0 (length arr) in
  take pos arr ++ pivot :: drop pos arr.

Definition sort (arr : list A) : list A :=
  match arr with
  | elementHigh :: elementLow :: rest =>
      let isDescending := negative (comparefn elementLow elementHigh) in
      let runLength := (2 + run_extent isDescending elementLow rest)%nat in
      let run := take runLength arr in
      let run := if isDescending then reverse run else run in
      fold_left binary_insert (drop runLength arr) run
  | _ => arr
  end.

End ArraySort.

(** An entry of [els] in [getFirstVisibleElement]. *)
Record VisibleEl := { el : ElementHandle; rect : DOMRect; idx : nat }.

(** * The operations *)

Section Operations.
Variable drv : Driver.

(** ** Status stack ([page.ts], lines 118-153) *)

Definition statusTop : M string :=
  get (fun w => default "" (last (statusStack (this w)))).

Definition statusPush (msg : string) : M unit :=
  prev <- statusTop;;
  let msg := if truthy_string prev then prev +:+ " -- " +:+ msg else msg in
  fStatus msg;;
  modify (with_this (fun p => set_statusStack (statusStack p ++ [msg]) p)).

Definition statusPop (logActivity_ : bool) : M unit :=
  msg <- get (fun w => last (statusStack (this w)));;
  modify (with_this (fun p => set_statusStack (removelast (statusStack p)) p));;
  log_on <- get (fun w => logActivity (browser w));;
  (if logActivity_ && log_on then console_log msg else ret tt);;
  top <- statusTop;;
  fStatus top.

Definition status (msg : string) : M unit :=
  stack <- get (fun w => statusStack (this w));;
  match stack with
  | [] => statusPush msg
  | _ :: _ =>
      fStatus msg;;
      modify (with_this (fun p =>
        set_statusStack (<[pred (length (statusStack p)) := msg]> (statusStack p)) p))
  end.

(** ** Foreground and background ([page.ts], lines 193-263, 712-726) *)

Definition acquireActivePage : M unit :=
  statusPush "Waiting for active page";;
  activePageMutex_acquire;;
  modify (with_this (set_inForeground true));;
  statusPop false;;
  p <- get (fun w => page (this w));;
  request (CBringToFront p) (fun h => drv_unit drv h (CBringToFront p)).

Definition releaseActivePage : M unit :=
  modify (with_this (set_inForeground false));;
  activePageMutex_release.

Definition runInForeground {T} (fn : M T) : M T :=
  fg <- get (fun w => inForeground (this w));;
  if fg then fn
  else
    acquireActivePage;;
    try_finally fn releaseActivePage.

Definition runInBackground {T} (fn : M T) : M T :=
  fg <- get (fun w => inForeground (this w));;
  if negb fg then fn
  else
    releaseActivePage;;
    r <- fn;;
    acquireActivePage;;
    ret r.

(** The closure [f] of [wait]. *)
Definition wait_f (ms : Z) (waitIn : option WaitIn) : M unit :=
  statusPush ("Waiting " +:+ string_of_Z ms +:+ "ms in " +:+ string_of_WaitIn waitIn);;
  setTimeout ms;;
  statusPop false.

Definition wait (ms : Z) (waitIn : option WaitIn) : M unit :=
  match waitIn with
  | Some background => runInBackground (wait_f ms waitIn)
  | _ => wait_f ms waitIn
  end.

Definition yield : M unit := wait 0 (Some background).

Definition goto (u : string) (options : GoOptions) : M unit :=
  status ("Navigating to " +:+ u);;
  p <- get (fun w => page (this w));;
  let c := CGoto p u (default 20000%Z (go_timeoutMs options))
                     (default "load" (go_waitUntil options)) in
  request c (fun h => drv_unit drv h c);;
  match go_waitAfterMs options with
  | Some waitAfterMs =>
      if (0 <? waitAfterMs)%Z then wait waitAfterMs (Some background) else ret tt
  | None => ret tt
  end.

(** ** Selectors ([page.ts], lines 290-353, 476-516) *)

(** The visibility test itself runs inside the page. *)
Definition isTrulyVisible (e : option ElementHandle) : M (option DOMRect) :=
  match e with
  | None => ret None
  | Some h => request (CIsTrulyVisible h) (fun t => drv_isTrulyVisible drv t h)
  end.

Fixpoint firstTrulyVisible (hs : list ElementHandle) : M (option ElementHandle) :=
  match hs with
  | [] => ret None
  | h :: rest =>
      r <- isTrulyVisible (Some h);;
      match r with
      | Some _ => ret (Some h)
      | None => firstTrulyVisible rest
      end
  end.

Definition getSelectorImmediate (selector : string) (visible : option bool)
  : M (option ElementHandle) :=
  p <- get (fun w => page (this w));;
  if truthy_flag visible then
    hs <- request (CQueryAll p selector) (fun t => drv_queryAll drv t p selector);;
    firstTrulyVisible hs
  else
    request (CQuery p selector) (fun t => drv_query drv t p selector).

(** The body of the [try] block of [waitForSelector]: the driver's own
    wait, in the foreground or in the background. *)
Definition nativeWait (selector : string) (options : SelectorOptions)
  : M (option ElementHandle) :=
  p <- get (fun w => page (this w));;
  let c := CWaitForSelector p selector
             (default 0%Z (sel_timeoutMs options)) (sel_visible options) in
  let native := request c (fun t => drv_waitForSelector drv t p selector) in
  match sel_waitIn options with
  | Some background => runInBackground native
  | _ => native
  end.

(** The [try] statement leaves either the result of the native wait
    ([inl]) or, from its [catch], the value to return ([inr]). *)
Definition waitForSelector (selector : string) (options : SelectorOptions)
  : M (option ElementHandle) :=
  result <- getSelectorImmediate selector (sel_visible options);;
  match result with
  | Some _ => ret result
  | None =>
      if negb (truthy_number (sel_timeoutMs options)) then ret None
      else
        statusPush ("Waiting for selector " +:+ selector);;
        r <- try_finally
               (try_catch
                  (result <- nativeWait selector options;;
                   ret (inl result))
                  (fun _ => ret (inr None)))
               (statusPop false);;
        match r with
        | inr returned => ret returned
        | inl None => ret None
        | inl (Some h) =>
            if negb (truthy_flag (sel_visible options)) then ret (Some h)
            else getSelectorImmediate selector (sel_visible options)
        end
  end.


(** ** Picking the first visible element ([page.ts], lines 524-558) *)

(** [sources.map(el => this.isTrulyVisible(el))]: one request per
    element, all of them issued, in order. *)
Fixpoint startAllVisible (hs : list ElementHandle)
  : World -> list (Outcome (option DOMRect)) * World :=
  fun w =>
    match hs with
    | [] => ([], w)
    | h :: rest =>
        let '(r, w1) := isTrulyVisible (Some h) w in
        let '(rs, w2) := startAllVisible rest w1 in
        (r :: rs, w2)
    end.

Definition allTrulyVisible (hs : list ElementHandle) : M (list (option DOMRect)) :=
  fun w => let '(rs, w1) := startAllVisible hs w in (promise_all rs, w1).

(** [el = await el.evaluateHandle(e => e.parentElement ?? e)],
    [parentLevel] times. *)
Fixpoint nthParent (parentLevel : nat) (e : ElementHandle) : M ElementHandle :=
  match parentLevel with
  | O => ret e
  | S n =>
      e' <- request (CParentElement e) (fun t => drv_parentElement drv t e);;
      nthParent n e'
  end.

(** The loop over [k]; the counter [idx] is the number of entries
    pushed so far. *)
Fixpoint collectVisible (parentLevel : nat)
    (found : list (ElementHandle * option DOMRect)) (els : list VisibleEl)
  : M (list VisibleEl) :=
  match found with
  | [] => ret els
  | (_, None) :: rest => collectVisible parentLevel rest els
  | (source, Some visRect) :: rest =>
      e <- nthParent parentLevel source;;
      collectVisible parentLevel rest
        (els ++ [{| el := e; rect := visRect; idx := length els |}])
  end.

(** The comparator handed to [els.sort]; [idx] is the counter of the
    enclosing function, as it stands after the loop.  Every operation
    of the expression rounds. *)
Definition compareEls (idx : nat) (a b : VisibleEl) : Q :=
  number_add
    (number_add
       (number_mul (number_sub (rect_top (rect a)) (rect_top (rect b))) 1000000)
       (number_mul (number_sub (rect_left (rect a)) (rect_left (rect b))) 100))
    (inject_Z (Z.of_nat idx)).

Definition getFirstVisibleElement (selector : string) (parentLevel : nat)
  : M (option ElementHandle) :=
  p <- get (fun w => page (this w));;
  sources <- request (CQueryAll p selector) (fun t => drv_queryAll drv t p selector);;
  visibleRects <- allTrulyVisible sources;;
  els <- collectVisible parentLevel (zip sources visibleRects) [];;
  match els with
  | [] => ret None
  | _ :: _ => ret (el <$> head (sort (compareEls (length els)) els))
  end.

(** ** Scrolling and typing ([page.ts], lines 571-633, 663-700) *)

Definition boundingCenter (e : ElementHandle) : M Point :=
  request (CBoundingCenter e) (fun t => drv_boundingCenter drv t e).

(** The promise of [page.evaluate] is returned without being awaited,
    so the status is popped as soon as the request has been sent. *)
Definition scrollToPoint (pt : Point) : M unit :=
  statusPush ("Scrolling to " +:+ string_of_Z (pt_x pt) +:+ "," +:+ string_of_Z (pt_y pt));;
  p <- get (fun w => page (this w));;
  fun w =>
    let '(r, w1) := request (CScrollTo p pt) (fun t => drv_unit drv t (CScrollTo p pt)) w in
    (r, snd (statusPop false w1)).

(** The [do ... while] loop of [scrollToElement]; a loop still running
    when the fuel is spent has not returned. *)
Fixpoint scrollUntilSteady (fuel : nat) (e : ElementHandle) (currPt : Point) : M Point :=
  match fuel with
  | O => fun w => (Pending, w)
  | S fuel' =>
      let prevPt := currPt in
      scrollToPoint prevPt;;
      wait 250 (Some foreground);;
      currPt <- boundingCenter e;;
      if negb (pt_x currPt =? pt_x prevPt)%Z || negb (pt_y currPt =? pt_y prevPt)%Z
      then scrollUntilSteady fuel' e currPt
      else ret currPt
  end.

Definition scrollToElement (fuel : nat) (e : ElementHandle) : M Point :=
  currPt <- boundingCenter e;;
  scrollUntilSteady fuel e currPt.

Definition getElementCenter (fuel : nat) (e : ElementHandle) (scrollIntoView : bool)
  : M Point :=
  if scrollIntoView then scrollToElement fuel e else boundingCenter e.

Definition keyboard (c : Call) : M unit := request c (fun t => drv_unit drv t c).

(** The body of the loop over [text.split('\n')]. *)
Definition typeLine (p : Page) (delay : Z) (line : string) : M unit :=
  let line := trimEnd line in
  (if truthy_string line then keyboard (CKeyboardType p line delay) else ret tt);;
  keyboard (CKeyboardDown p Shift);;
  keyboard (CKeyboardPress p Enter);;
  keyboard (CKeyboardUp p Shift).

Fixpoint typeLines (p : Page) (delay : Z) (lines : list string) : M unit :=
  match lines with
  | [] => ret tt
  | line :: rest => typeLine p delay line;; typeLines p delay rest
  end.

(** [typeInElement], lines 664-672: scroll into view and focus. *)
Definition typeInElement_focus (fuel : nat) (e : ElementHandle) (options : TypeOptions)
  : M unit :=
  (if default true (type_scrollIntoView options)
   then scrollToElement fuel e;; ret tt else ret tt);;
  statusPush "Focusing";;
  request (CFocus e) (fun t => drv_unit drv t (CFocus e));;
  wait 200 None;;
  statusPop false.

(** [typeInElement], lines 673-693: the keystrokes. *)
Definition typeInElement_type (text : string) (options : TypeOptions) : M unit :=
  statusPush ("Typing " +:+ string_of_Z (Z.of_nat (String.length text)) +:+ " characters");;
  let delay := if default true (type_slowTyping options) then 5%Z else 0%Z in
  p <- get (fun w => page (this w));;
  (if truthy_flag (multiLinedShiftReturn options)
   then typeLines p delay (split_newline text)
   else keyboard (CKeyboardType p text delay));;
  (if truthy_flag (pressReturnAtEnd options)
   then keyboard (CKeyboardPress p Enter) else ret tt);;
  statusPop false.

(** [typeInElement], lines 694-699: the wait afterwards. *)
Definition typeInElement_wait (options : TypeOptions) : M unit :=
  let waitMs := default 100%Z (type_waitAfter options) in
  let waitIn := default foreground (type_waitIn options) in
  if (0 <? waitMs)%Z then wait waitMs (Some waitIn) else ret tt.

Definition typeInElement (fuel : nat) (e : ElementHandle) (text : string)
    (options : TypeOptions) : M unit :=
  typeInElement_focus fuel e options;;
  typeInElement_type text options;;
  typeInElement_wait options.

(** ** The tab pool ([browser.ts], lines 135-260) *)

Definition create : M Browser :=
  b <- get (fun w => _browser (browser w));;
  match b with
  | Some b => ret b
  | None =>
      browserMutex_runExclusive
        (b <- get (fun w => _browser (browser w));;
         match b with
         | Some b => ret b
         | None =>
             b <- request CLaunch (drv_launch drv);;
             pages <- request (CPages b) (fun t => drv_pages drv t b);;
             modify (with_browser (fun m =>
               set_availablePages (availablePages m ++ pages) m));;
             first <- get (fun w => head (availablePages (browser w)));;
             hl <- get (fun w => headless (browser w));;
             wd <- get (fun w => width (browser w));;
             ht <- get (fun w => height (browser w));;
             match first with
             | Some p =>
                 if negb hl then
                   let c := CSetViewport p (wd - 20)%Z (ht - 200)%Z in
                   request c (fun t => drv_unit drv t c)
                 else ret tt
             | None => ret tt
             end;;
             modify (with_browser (set_browser_field (Some b)));;
             ret b
         end)
  end.

(** [this.availablePages.pop()] *)
Definition availablePages_pop : M (option Page) :=
  fun w =>
    (Ok (last (availablePages (browser w))),
     with_browser (fun m => set_availablePages (removelast (availablePages m)) m) w).

Definition getPage : M Page :=
  popped <- availablePages_pop;;
  match popped with
  | Some p => ret p
  | None =>
      b <- create;;
      popped <- availablePages_pop;;
      p <- match popped with
           | Some p => ret p
           | None => request (CNewPage b) (fun t => drv_newPage drv t b)
           end;;
      modify (with_browser (set_activePage None));;
      ret p
  end.

Definition acceptClosedPage (p : Page) : M unit :=
  modify (with_browser (fun m => set_availablePages (availablePages m ++ [p]) m)).

(** [new PuppyteerPage(this, page, pageInfo)] *)
Definition newPuppyteerPage (p : Page) (cfg : TaskOptions) : PuppyteerPage :=
  {| page := p; config := cfg; statusStack := []; inForeground := false |}.

(** [if (config.url) await pPage.goto(config.url, config.goOptions ?? {})] *)
Definition gotoUrl (cfg : TaskOptions) : M unit :=
  match url cfg with
  | Some u =>
      if truthy_string u
      then goto u (default {| go_timeoutMs := None; go_waitUntil := None;
                              go_waitAfterMs := None |} (goOptions cfg))
      else ret tt
  | None => ret tt
  end.

(** The [try] block of the function that [addPageTask] registers:
    navigate in the background, then run the job in the foreground. *)
Definition pageTaskBody (cfg : TaskOptions) (executionFunction : M unit) : M unit :=
  gotoUrl cfg;;
  runInForeground executionFunction.

(** The function [addPageTask] registers with the task runner, which
    calls it when the task starts.  [executionFunction] is the job. *)
Definition addPageTask (cfg : TaskOptions) (executionFunction : M unit) : M unit :=
  p <- getPage;;
  modify (with_this (fun _ => newPuppyteerPage p cfg));;
  try_finally
    (try_catch
       (pageTaskBody cfg executionFunction)
       (fun err => console_error err;; throw err))
    (acceptClosedPage p).

End Operations.

(** * Further operations *)

(** ** [common.ts] *)

(** What a function that is not asynchronous ends with: the value it
    returns, or an exception. *)
Inductive Evaluated (A : Type) : Type :=
| Returned (a : A)
| Threw.
Arguments Returned {A} a.
Arguments Threw {A}.

(** [result.push(...l)]: the elements of [l] are passed as the
    arguments of one call, which throws a [RangeError] when they are
    more than the engine takes, [maxArguments]. *)
Definition pushAll {T} (maxArguments : nat) (result : Evaluated (list T)) (l : list T)
  : Evaluated (list T) :=
  match result with
  | Returned result =>
      if (length l <=? maxArguments)%nat then Returned (result ++ l) else Threw
  | Threw => Threw
  end.

(** [flattenListOfLists]: the loop pushes the elements of each list onto
    the result. *)
Definition flattenListOfLists {T} (maxArguments : nat) (lists : list (list T))
  : Evaluated (list T) :=
  fold_left (pushAll maxArguments) lists (Returned []).

(** ** More of [page.ts] *)

(** [str.trimStart()] and [str.trim()] *)
Fixpoint trimStart (s : string) : string :=
  match s with
  | EmptyString => EmptyString
  | String c rest => if is_whitespace c then trimStart rest else s
  end.

Definition trim (s : string) : string := trimStart (trimEnd s).

Section MoreOperations.
Variable drv : Driver.

(** [waitForAllSelectors] ([page.ts], lines 358-366) *)
Definition waitForAllSelectors (selector : string) (options : SelectorOptions)
  : M (list ElementHandle) :=
  if truthy_flag (sel_visible options)
  then throw (Error "`options.visble` for all-selectors not yet implemented")
  else
    found <- match sel_timeoutMs options with
             | Some timeoutMs =>
                 if negb (timeoutMs =? 0)%Z && (0 <? timeoutMs)%Z then
                   r <- waitForSelector drv selector options;;
                   ret (match r with Some _ => true | None => false end)
                 else ret true
             | None => ret true
             end;;
    if found then
      p <- get (fun w => page (this w));;
      request (CQueryAll p selector) (fun t => drv_queryAll drv t p selector)
    else ret [].

(** What the driver does not record as a request of its own is taken
    as given in the same way: the text an element holds
    ([h.evaluate(el => el.textContent)]), the clock ([Date.now()]) and
    the pattern ([innerTextMatcher.test], of a pattern without the
    global or sticky flag). *)
Variable textContent : list Event -> ElementHandle -> Outcome (option string).
Variable now : list Event -> Z.
Variable test : string -> bool.

(** The body of the loop over the matches in
    [waitForAllSelectorsWithInner] ([page.ts], lines 377-384); [results]
    is the array filled so far. *)
Fixpoint collectMatching (visible : option bool) (hs : list ElementHandle)
    (results : list ElementHandle) : M (list ElementHandle) :=
  match hs with
  | [] => ret results
  | h :: rest =>
      innerText <- (fun w => (textContent (trace w) h, w));;
      keep <- match innerText with
              | Some text =>
                  if truthy_string text && test (trim text) then
                    if negb (truthy_flag visible) then ret true
                    else
                      r <- isTrulyVisible drv (Some h);;
                      ret (match r with Some _ => true | None => false end)
                  else ret false
              | None => ret false
              end;;
      collectMatching visible rest (if keep then results ++ [h] else results)
  end.

(** The [do ... while] loop; a loop still running when the fuel is
    spent has not returned. *)
Fixpoint pollWithInner (fuel : nat) (selector : string) (options : SelectorOptions)
    (startTime : Z) (results : list ElementHandle) : M (list ElementHandle) :=
  match fuel with
  | O => fun w => (Pending, w)
  | S fuel' =>
      p <- get (fun w => page (this w));;
      hs <- request (CQueryAll p selector) (fun t => drv_queryAll drv t p selector);;
      results <- collectMatching (sel_visible options) hs results;;
      if (0 <? length results)%nat || negb (truthy_number (sel_timeoutMs options))
      then ret results
      else
        wait drv 250 (Some (default foreground (sel_waitIn options)));;
        t <- get (fun w => now (trace w));;
        if (t - startTime <? default 0%Z (sel_timeoutMs options))%Z
        then pollWithInner fuel' selector options startTime results
        else ret results
  end.

(** [waitForAllSelectorsWithInner] ([page.ts], lines 371-394) *)
Definition waitForAllSelectorsWithInner (fuel : nat) (selector : string)
    (options : SelectorOptions) : M (list ElementHandle) :=
  startTime <- get (fun w => now (trace w));;
  pollWithInner fuel selector options startTime [].

(** [waitForFirstSelectorWithInner], [waitForLastSelectorWithInner]
    ([page.ts], lines 399-410) *)
Definition waitForFirstSelectorWithInner (fuel : nat) (selector : string)
    (options : SelectorOptions) : M (option ElementHandle) :=
  results <- waitForAllSelectorsWithInner fuel selector options;;
  ret (head results).

Definition waitForLastSelectorWithInner (fuel : nat) (selector : string)
    (options : SelectorOptions) : M (option ElementHandle) :=
  results <- waitForAllSelectorsWithInner fuel selector options;;
  ret (last results).

End MoreOperations.

(** ** The functions evaluated inside the page *)

(** The computed style of an element, as far as the code reads it. *)
Record CSSStyle := {
  display : string;
  visibility : string;
  opacity : string;
  css_width : string;
  css_height : string }.

(** An element of the document, with the chain of its parents.  Two
    elements are the same object when they have the same [nodeId].
    [matches] has no answer for a selector it rejects (it throws a
    [SyntaxError]). *)
#[local] Unset Elimination Schemes.
Inductive Element : Type := mkElement {
  nodeId : nat;
  boundingClientRect : DOMRect;
  computedStyle : CSSStyle;
  matches : string -> option bool;
  parentElement : option Element }.
#[local] Set Elimination Schemes.

(** The window and its document: [window.innerHeight],
    [document.documentElement.clientHeight] and
    [document.elementFromPoint]. *)
Record Document := {
  innerHeight : Q;
  innerWidth : Q;
  clientHeight : Q;
  clientWidth : Q;
  elementFromPoint : Q -> Q -> option Element }.

(** [rect.right] and [rect.bottom] of a [DOMRect]. *)
Definition rect_right (r : DOMRect) : Q := (rect_left r + Qabs (rect_width r))%Q.
Definition rect_bottom (r : DOMRect) : Q := (rect_top r + Qabs (rect_height r))%Q.

Definition Qlt_bool (a b : Q) : bool := negb (Qle_bool b a).

(** [a || b] on numbers *)
Definition or_number (a b : Q) : Q := if Qeq_bool a 0 then b else a.

(** [Math.round] *)
Definition Math_round (x : Q) : Z := Qfloor (x + (1 # 2))%Q.

(** [while (elAtPoint != el)]: walking up from the element found at the
    point until [el] is met, or the chain ends. *)
Fixpoint walksUpTo (el : Element) (elAtPoint : Element) : bool :=
  if (nodeId elAtPoint =? nodeId el)%nat then true
  else match parentElement elAtPoint with
       | Some p => walksUpTo el p
       | None => false
       end.

Definition hides (style : CSSStyle) : bool :=
  String.eqb (display style) "none" || String.eqb (visibility style) "hidden"
  || String.eqb (opacity style) "0" || String.eqb (css_width style) "0"
  || String.eqb (css_height style) "0".

(** [while (p)]: the styles of the element and of all its parents. *)
Fixpoint stylesShow (p : Element) : bool :=
  if hides (computedStyle p) then false
  else match parentElement p with
       | Some q => stylesShow q
       | None => true
       end.

(** The function [isTrulyVisible] evaluates in the page ([page.ts],
    lines 478-515). *)
Definition evaluate_isTrulyVisible (doc : Document) (el : Element) : option DOMRect :=
  let rect := boundingClientRect el in
  if Qlt_bool (rect_top rect) 0 || Qlt_bool (rect_left rect) 0
     || Qlt_bool (rect_width rect) 1 || Qlt_bool (rect_height rect) 1
     || Qlt_bool (or_number (innerHeight doc) (clientHeight doc)) (rect_bottom rect)
     || Qlt_bool (or_number (innerWidth doc) (clientWidth doc)) (rect_right rect)
  then None
  else
    let center_x := ((rect_left rect + rect_right rect) / 2)%Q in
    let center_y := ((rect_top rect + rect_bottom rect) / 2)%Q in
    match elementFromPoint doc center_x center_y with
    | None => None
    | Some elAtPoint =>
        if walksUpTo el elAtPoint
        then (if stylesShow el then Some rect else None)
        else None
    end.

(** The function [getElementCenter] evaluates in the page ([page.ts],
    lines 575-581). *)
Definition evaluate_getElementCenter (el : Element) : Point :=
  let rect := boundingClientRect el in
  {| pt_x := Math_round (rect_left rect + rect_width rect / 2)%Q;
     pt_y := Math_round (rect_top rect + rect_height rect / 2)%Q |}.

(** [while (parent)] in [getMatchingParent]. *)
Fixpoint firstMatchingFrom (parent : Element) (selector : string)
  : Evaluated (option Element) :=
  match matches parent selector with
  | None => Threw
  | Some true => Returned (Some parent)
  | Some false =>
      match parentElement parent with
      | Some p => firstMatchingFrom p selector
      | None => Returned None
      end
  end.

(** The function [getMatchingParent] evaluates in the page ([page.ts],
    lines 424-433). *)
Definition evaluate_getMatchingParent (el : Element) (selector : string)
  : Evaluated (option Element) :=
  match parentElement el with
  | Some parent => firstMatchingFrom parent selector
  | None => Returned None
  end.

(** The function [scrollToPoint] evaluates in the page ([page.ts], lines
    604-612): the arguments of [window.scrollBy], when it is called. *)
Definition evaluate_scrollToPoint (doc : Document) (pt : Point) : option (Z * Z) :=
  let viewHeight := or_number (innerHeight doc) (clientHeight doc) in
  let viewWidth := or_number (innerWidth doc) (clientWidth doc) in
  let yDelta := Math_round (inject_Z (pt_y pt) - viewHeight / 2)%Q in
  let xDelta := Math_round (inject_Z (pt_x pt) - viewWidth / 2)%Q in
  if (10 <? Z.abs yDelta)%Z || (10 <? Z.abs xDelta)%Z
  then Some (xDelta, yDelta)
  else None.

(** * Notions used in the statements *)

(** What [statusPush msg] stores on top of [stack]. *)
Definition pushedOn (stack : list string) (msg : string) : string :=
  let prev := default "" (last stack) in
  if truthy_string prev then prev +:+ " -- " +:+ msg else msg.

(** The state in which [acquireActivePage] leaves a session that found
    the mutex free. *)
Definition acquired (w : World) : World :=
  {| browser := set_activePageMutex {| isLocked := true |} (browser w);
     this := set_inForeground true (this w);
     trace := trace w ++ [EvStatus (pushedOn (statusStack (this w)) "Waiting for active page");
                          EvAcquire;
                          EvStatus (default "" (last (statusStack (this w))));
                          EvCall (CBringToFront (page (this w)))] |}.

(** What the driver answers to [bringToFront] then. *)
Definition bringToFront_answer (drv : Driver) (w : World) : Outcome unit :=
  drv_unit drv
    (trace w ++ [EvStatus (pushedOn (statusStack (this w)) "Waiting for active page");
                 EvAcquire;
                 EvStatus (default "" (last (statusStack (this w))))])
    (CBringToFront (page (this w))).

(** The state in which [releaseActivePage] leaves a session. *)
Definition released (w : World) : World :=
  {| browser := set_activePageMutex {| isLocked := false |} (browser w);
     this := set_inForeground false (this w);
     trace := trace w ++ [EvRelease] |}.

(** The state after the delay of [wait_f]. *)
Definition delayed (ms : Z) (waitIn : option WaitIn) (w : World) : World :=
  emit (EvStatus (default "" (last (statusStack (this w)))))
    (emit (EvSetTimeout ms)
       (emit (EvStatus (pushedOn (statusStack (this w))
                ("Waiting " +:+ string_of_Z ms +:+ "ms in " +:+ string_of_WaitIn waitIn)))
          w)).


(** The order a comparator gives to [Array.prototype.sort]: [a] goes
    before [b] when the comparator is negative on them. *)
Definition before {A} (comparefn : A -> A -> Q) (a b : A) : Prop :=
  negative (comparefn a b) = true.

(** [h] is least in [l], and the earliest of the least. *)
Definition stable_min {A} (comparefn : A -> A -> Q) (l : list A) (h : A) : Prop :=
  exists i, l !! i = Some h /\
    (forall x, x ∈ l -> ~ before comparefn x h) /\
    (forall j x, l !! j = Some x -> ~ before comparefn h x -> (i <= j)%nat).

(** The comparator orders the elements of [l] strictly and weakly. *)
Definition strict_weak_on {A} (comparefn : A -> A -> Q) (l : list A) : Prop :=
  (forall a b, a ∈ l -> b ∈ l -> before comparefn a b -> ~ before comparefn b a) /\
  (forall a b c, a ∈ l -> b ∈ l -> c ∈ l ->
     before comparefn a b -> before comparefn a c \/ before comparefn c b).

(** The key the comparator of [getFirstVisibleElement] sorts by. *)
Definition compositeKey (e : VisibleEl) : Q :=
  rect_top (rect e) * 1000000 + rect_left (rect e) * 100.

(** Two entries the comparator can tell apart, or cannot at all: their
    keys are equal, or differ by more than [n]. *)
Definition apart (n : nat) (a b : VisibleEl) : Prop :=
  (compositeKey a == compositeKey b)%Q \/
  (inject_Z (Z.of_nat n) < Qabs (compositeKey a - compositeKey b))%Q.

Definition apartb (n : nat) (a b : VisibleEl) : bool :=
  Qeq_bool (compositeKey a) (compositeKey b)
  || negb (Qle_bool (Qabs (compositeKey a - compositeKey b)) (inject_Z (Z.of_nat n))).

(** A coordinate on the grid of 1/64 pixel, at most 2^20 pixels from
    the origin. *)
Definition onPixelGrid (q : Q) : bool :=
  Qeq_bool (inject_Z (Qfloor (q * 64))) (q * 64)
  && (Z.abs (Qfloor (q * 64)) <=? 67108864)%Z.

Definition placedOnGrid (e : VisibleEl) : Prop :=
  onPixelGrid (rect_top (rect e)) = true /\ onPixelGrid (rect_left (rect e)) = true.

(** An entry whose top is a whole number of pixels and whose left lies
    between 0 and 10^4. *)
Definition inWholeRows (e : VisibleEl) : Prop :=
  (exists z, (rect_top (rect e) == inject_Z z)%Q) /\
  (0 <= rect_left (rect e) < 10000)%Q.

(** Two entries whose keys lie no further apart than [n]. *)
Definition closeKeys (n : nat) (a b : VisibleEl) : Prop :=
  (Qabs (compositeKey a - compositeKey b) <= inject_Z (Z.of_nat n))%Q.

Definition closeKeysb (n : nat) (a b : VisibleEl) : bool :=
  Qle_bool (Qabs (compositeKey a - compositeKey b)) (inject_Z (Z.of_nat n)).

(** SHIFT held, ENTER pressed, SHIFT let go. *)
Definition softLineBreak (p : Page) : list Call :=
  [CKeyboardDown p Shift; CKeyboardPress p Enter; CKeyboardUp p Shift].

(** The keystrokes for the text of a line, none for a blank one. *)
Definition typedLine (p : Page) (delay : Z) (line : string) : list Call :=
  if truthy_string (trimEnd line) then [CKeyboardType p (trimEnd line) delay] else [].

(** Every line is followed by a soft line break, the last one too. *)
Definition keysAfterEachLine (p : Page) (delay : Z) (text : string) : list Call :=
  concat (map (fun line => typedLine p delay line ++ softLineBreak p) (split_newline text)).

(** C9 as it is stated: a soft line break only between two lines. *)
Definition keysBetweenLines (p : Page) (delay : Z) (text : string) : list Call :=
  match split_newline text with
  | [] => []
  | line :: rest =>
      typedLine p delay line
      ++ concat (map (fun next => softLineBreak p ++ typedLine p delay next) rest)
  end.

Definition keyboardCall (c : Call) : Prop :=
  match c with
  | CKeyboardType _ _ _ | CKeyboardDown _ _ | CKeyboardPress _ _ | CKeyboardUp _ _ => True
  | _ => False
  end.

(** The driver requests in a history. *)
Definition calls (t : list Event) : list Call :=
  omap (fun ev => match ev with EvCall c => Some c | _ => None end) t.

(** [w] with more events at the end of its history. *)
Definition emitAll (evs : list Event) (w : World) : World :=
  {| browser := browser w; this := this w; trace := trace w ++ evs |}.

(** A visible element [i] whose rectangle has the given top and left. *)
Definition at_ (t l : Q) (i : nat) : VisibleEl :=
  {| el := i; idx := i;
     rect := {| rect_top := t; rect_left := l; rect_width := 1; rect_height := 1 |} |}.

(** An operation that leaves the status stack as it found it whenever
    it returns or throws. *)
Definition keepsStatusStack {A} (m : M A) : Prop :=
  forall w r w', m w = (r, w') -> r <> Pending ->
    statusStack (this w') = statusStack (this w).

(** The request [goto] sends for a URL. *)
Definition navigation (p : Page) (u : string) (options : GoOptions) : Call :=
  CGoto p u (default 20000%Z (go_timeoutMs options)) (default "load" (go_waitUntil options)).

(** [config.goOptions ?? {}] *)
Definition goOptionsOf (cfg : TaskOptions) : GoOptions :=
  default {| go_timeoutMs := None; go_waitUntil := None; go_waitAfterMs := None |}
    (goOptions cfg).

(** Whether the visibility test finds an element visible. *)
Definition shown (vis : ElementHandle -> option DOMRect) (h : ElementHandle) : bool :=
  match vis h with Some _ => true | None => false end.

(** The elements a search for the first visible one looks at: all up to
    the first visible one, and that one. *)
Fixpoint probedUntilShown (vis : ElementHandle -> option DOMRect)
    (hs : list ElementHandle) : list ElementHandle :=
  match hs with
  | [] => []
  | h :: rest => h :: if shown vis h then [] else probedUntilShown vis rest
  end.

(** The delays in a history. *)
Definition delays (t : list Event) : list Z :=
  omap (fun ev => match ev with EvSetTimeout ms => Some ms | _ => None end) t.

(** The error of [waitForAllSelectors]. *)
Definition notImplemented : Err :=
  Error "`options.visble` for all-selectors not yet implemented".

(** Whether the text of an element passes the test of
    [waitForAllSelectorsWithInner]. *)
Definition accepted (test : string -> bool) (innerText : option string) : bool :=
  match innerText with
  | Some text => truthy_string text && test (trim text)
  | None => false
  end.

(** A clock that never runs backwards and is, after a delay, at least
    that much later than it was before. *)
Definition clockAdvances (now : list Event -> Z) : Prop :=
  (forall t ev, now t <= now (t ++ [ev]))%Z /\
  (forall t ms, now t + ms <= now (t ++ [EvSetTimeout ms]))%Z.

(** An operation that stays on its tab, however it ends. *)
Definition samePage {A} (m : M A) : Prop :=
  forall w r w', m w = (r, w') -> page (this w') = page (this w).

(** The element and its parents, nearest first. *)
Fixpoint selfAndAncestors (e : Element) : list Element :=
  e :: match parentElement e with
       | Some p => selfAndAncestors p
       | None => []
       end.

Definition ancestors (e : Element) : list Element :=
  match parentElement e with
  | Some p => selfAndAncestors p
  | None => []
  end.

(** The height and the width the visibility test compares with. *)
Definition viewportHeight (doc : Document) : Q :=
  or_number (innerHeight doc) (clientHeight doc).
Definition viewportWidth (doc : Document) : Q :=
  or_number (innerWidth doc) (clientWidth doc).

(** A rectangle of at least one pixel each way that lies within the
    viewport. *)
Definition insideViewport (doc : Document) (rect : DOMRect) : Prop :=
  (0 <= rect_top rect /\ 0 <= rect_left rect /\
   1 <= rect_width rect /\ 1 <= rect_height rect /\
   rect_bottom rect <= viewportHeight doc /\
   rect_right rect <= viewportWidth doc)%Q.

(** The point the visibility test probes. *)
Definition centerOf (rect : DOMRect) : Q * Q :=
  (((rect_left rect + rect_right rect) / 2)%Q, ((rect_top rect + rect_bottom rect) / 2)%Q).

(** Going through [l] from its head until an element matches the
    selector or [matches] rejects it. *)
Fixpoint nearestMatch (l : list Element) (selector : string) : Evaluated (option Element) :=
  match l with
  | [] => Returned None
  | b :: rest =>
      match matches b selector with
      | None => Threw
      | Some true => Returned (Some b)
      | Some false => nearestMatch rest selector
      end
  end.

(** None of [l] matches the selector. *)
Definition noneMatches (selector : string) (l : list Element) : Prop :=
  Forall (fun b => matches b selector = Some false) l.

(** * Concrete drivers and sessions *)

(** A driver on which every request succeeds, no selector matches
    anything and a native wait runs into its timeout. *)
Definition calm : Driver :=
  {| drv_launch := fun _ => Ok 1;
     drv_pages := fun _ _ => Ok [10];
     drv_newPage := fun _ _ => Ok 11;
     drv_unit := fun _ _ => Ok tt;
     drv_query := fun _ _ _ => Ok None;
     drv_queryAll := fun _ _ _ => Ok [];
     drv_waitForSelector := fun _ _ _ => Throw (Error "TimeoutError: Waiting for selector failed");
     drv_isTrulyVisible := fun _ _ => Ok None;
     drv_parentElement := fun _ e => Ok e;
     drv_boundingCenter := fun _ _ => Ok {| pt_x := 0; pt_y := 0 |} |}.


(** The same driver, except that [page.bringToFront] rejects. *)
Definition rejecting_front : Driver :=
  {| drv_launch := fun _ => Ok 1;
     drv_pages := fun _ _ => Ok [10];
     drv_newPage := fun _ _ => Ok 11;
     drv_unit := fun _ c =>
       match c with
       | CBringToFront _ => Throw (Error "Protocol error: target closed")
       | _ => Ok tt
       end;
     drv_query := fun _ _ _ => Ok None;
     drv_queryAll := fun _ _ _ => Ok [];
     drv_waitForSelector := fun _ _ _ => Throw (Error "TimeoutError: Waiting for selector failed");
     drv_isTrulyVisible := fun _ _ => Ok None;
     drv_parentElement := fun _ e => Ok e;
     drv_boundingCenter := fun _ _ => Ok {| pt_x := 0; pt_y := 0 |} |}.

(** A page on which the selector matches the elements 1, 2 and 3, in
    one row at top 40, the second a 64th of a pixel further left than
    the other two. *)
Definition nearly_aligned : Driver :=
  {| drv_launch := fun _ => Ok 1;
     drv_pages := fun _ _ => Ok [10];
     drv_newPage := fun _ _ => Ok 11;
     drv_unit := fun _ _ => Ok tt;
     drv_query := fun _ _ _ => Ok (Some 1);
     drv_queryAll := fun _ _ _ => Ok [1; 2; 3];
     drv_waitForSelector := fun _ _ _ => Ok (Some 1);
     drv_isTrulyVisible := fun _ e =>
       Ok (Some {| rect_top := 40;
                   rect_left := if (e =? 2)%nat then 8 - (1 # 64) else 8;
                   rect_width := 100; rect_height := 20 |});
     drv_parentElement := fun _ e => Ok (e + 100);
     drv_boundingCenter := fun _ _ => Ok {| pt_x := 58; pt_y := 50 |} |}.

(** A page on which the selector matches the elements 1, 2 and 3, all
    at left 8 and at the tops 40.25, 40 and 39.75, which are 40 when
    rounded to pixels. *)
Definition rounding_to_40 : Driver :=
  {| drv_launch := fun _ => Ok 1;
     drv_pages := fun _ _ => Ok [10];
     drv_newPage := fun _ _ => Ok 11;
     drv_unit := fun _ _ => Ok tt;
     drv_query := fun _ _ _ => Ok (Some 1);
     drv_queryAll := fun _ _ _ => Ok [1; 2; 3];
     drv_waitForSelector := fun _ _ _ => Ok (Some 1);
     drv_isTrulyVisible := fun _ e =>
       Ok (Some {| rect_top := if (e =? 1)%nat then 40 + (1 # 4)
                               else if (e =? 3)%nat then 40 - (1 # 4) else 40;
                   rect_left := 8;
                   rect_width := 100; rect_height := 20 |});
     drv_parentElement := fun _ e => Ok (e + 100);
     drv_boundingCenter := fun _ _ => Ok {| pt_x := 58; pt_y := 50 |} |}.

(** A page of results: the selector matches element 1 in a second row
    and, in the first row, element 2 to the right and the elements 3 and
    4 at the very same place on the left. *)
Definition two_rows : Driver :=
  {| drv_launch := fun _ => Ok 1;
     drv_pages := fun _ _ => Ok [10];
     drv_newPage := fun _ _ => Ok 11;
     drv_unit := fun _ _ => Ok tt;
     drv_query := fun _ _ _ => Ok (Some 1);
     drv_queryAll := fun _ _ _ => Ok [1; 2; 3; 4];
     drv_waitForSelector := fun _ _ _ => Ok (Some 1);
     drv_isTrulyVisible := fun _ e =>
       Ok (Some {| rect_top := if (e =? 1)%nat then 120 else 40;
                   rect_left := if (e =? 2)%nat then 300 else 8;
                   rect_width := 100; rect_height := 20 |});
     drv_parentElement := fun _ e => Ok (e + 100);
     drv_boundingCenter := fun _ _ => Ok {| pt_x := 58; pt_y := 50 |} |}.

(** [new Puppyteer({headless: false, ...})] *)
Definition newPuppyteer : Puppyteer :=
  {| headless := false; width := 1000; height := 1000; logActivity := false;
     _browser := None; availablePages := [];
     browserMutex := {| isLocked := false |};
     activePageMutex := {| isLocked := false |};
     activePage := None |}.

Definition job : TaskOptions := {| title := "job"; url := None; goOptions := None |}.

(** A session that has just been created around tab 10. *)
Definition idle : World :=
  {| browser := newPuppyteer; this := newPuppyteerPage 10 job; trace := [] |}.

(** The same session inside its foreground section. *)
Definition holding : World :=
  {| browser := set_activePageMutex {| isLocked := true |} newPuppyteer;
     this := set_inForeground true (newPuppyteerPage 10 job);
     trace := [] |}.

(** A manager whose browser runs and whose pool holds the tabs 10 and 12. *)
Definition pooled : World :=
  {| browser := set_availablePages [10; 12] (set_browser_field (Some 1) newPuppyteer);
     this := newPuppyteerPage 0 job; trace := [] |}.


Definition multiLine : TypeOptions :=
  {| type_scrollIntoView := Some false; type_slowTyping := None;
     type_waitAfter := None; type_waitIn := None;
     multiLinedShiftReturn := Some true; pressReturnAtEnd := None |}.

(** The driver [calm], except that it rejects the requests that
    [refused] picks. *)
Definition refusing (refused : Call -> bool) : Driver :=
  {| drv_launch := fun _ => Ok 1;
     drv_pages := fun _ _ => Ok [10];
     drv_newPage := fun _ _ => Ok 11;
     drv_unit := fun _ c =>
       if refused c then Throw (Error "Protocol error: target closed") else Ok tt;
     drv_query := fun _ _ _ => Ok None;
     drv_queryAll := fun _ _ _ => Ok [];
     drv_waitForSelector := fun _ _ _ => Throw (Error "TimeoutError: Waiting for selector failed");
     drv_isTrulyVisible := fun _ _ => Ok None;
     drv_parentElement := fun _ e => Ok e;
     drv_boundingCenter := fun _ _ => Ok {| pt_x := 0; pt_y := 0 |} |}.

Definition isFocus (c : Call) : bool :=
  match c with CFocus _ => true | _ => false end.

Definition isSetViewport (c : Call) : bool :=
  match c with CSetViewport _ _ _ => true | _ => false end.

Definition isGoto (c : Call) : bool :=
  match c with CGoto _ _ _ _ => true | _ => false end.

(** A page on which the selector matches the elements 1, 2 and 3, of
    which the first is covered and the others are visible. *)
Definition covered_first (h : ElementHandle) : option DOMRect :=
  if (h =? 1)%nat then None
  else Some {| rect_top := 40; rect_left := 8; rect_width := 100; rect_height := 20 |}.

Definition first_covered : Driver :=
  {| drv_launch := fun _ => Ok 1;
     drv_pages := fun _ _ => Ok [10];
     drv_newPage := fun _ _ => Ok 11;
     drv_unit := fun _ _ => Ok tt;
     drv_query := fun _ _ _ => Ok (Some 1);
     drv_queryAll := fun _ _ _ => Ok [1; 2; 3];
     drv_waitForSelector := fun _ _ _ => Ok (Some 1);
     drv_isTrulyVisible := fun _ h => Ok (covered_first h);
     drv_parentElement := fun _ e => Ok (e + 100);
     drv_boundingCenter := fun _ _ => Ok {| pt_x := 58; pt_y := 50 |} |}.

(** A task that starts at a URL. *)
Definition browsing : TaskOptions :=
  {| title := "browsing"; url := Some "https://example.com/"; goOptions := None |}.

(** A clock that stands still but for the delays, which it adds up. *)
Definition ticking (t : list Event) : Z :=
  fold_right (fun ms total => (Z.max 0 ms + total)%Z) 0%Z (delays t).

(** Every element reads "Cancel"; the pattern looks for "Save". *)
Definition reads_cancel (t : list Event) (h : ElementHandle) : Outcome (option string) :=
  Ok (Some " Cancel ").

Definition is_save (text : string) : bool := String.eqb text "Save".

Definition within (timeoutMs : Z) : SelectorOptions :=
  {| sel_timeoutMs := Some timeoutMs; sel_waitIn := None; sel_visible := None |}.

(** A document in a window of 800 by 601 pixels: the body, a dialog in it and a
    button in the dialog.  The dialog has the style given. *)
Definition plain : CSSStyle :=
  {| display := "block"; visibility := "visible"; opacity := "1";
     css_width := "400px"; css_height := "200px" |}.

Definition not_displayed : CSSStyle :=
  {| display := "none"; visibility := "visible"; opacity := "1";
     css_width := "auto"; css_height := "auto" |}.

Definition body_element : Element :=
  mkElement 1
    {| rect_top := 0; rect_left := 0; rect_width := 800; rect_height := 600 |}
    plain (fun selector => Some (String.eqb selector "body")) None.

Definition dialog (style : CSSStyle) : Element :=
  mkElement 2
    {| rect_top := 100; rect_left := 200; rect_width := 400; rect_height := 200 |}
    style (fun selector => Some (String.eqb selector ".dialog")) (Some body_element).

Definition button (style : CSSStyle) : Element :=
  mkElement 3
    {| rect_top := 250; rect_left := 220; rect_width := 81; rect_height := 25 |}
    plain (fun selector => Some (String.eqb selector "button")) (Some (dialog style)).

(** The window, with the element that is found at any point. *)
Definition window_over (hit : option Element) : Document :=
  {| innerHeight := 601; innerWidth := 800; clientHeight := 601; clientWidth := 785;
     elementFromPoint := fun _ _ => hit |}.

(** * Properties *)

(** ** The monad *)

Lemma bind_Ok {A B} (m : M A) (k : A -> M B) w a w1 :
  m w = (Ok a, w1) -> bind m k w = k a w1.
Proof. intros H. unfold bind. rewrite H. reflexivity. Qed.

Lemma bind_Throw {A B} (m : M A) (k : A -> M B) w e w1 :
  m w = (Throw e, w1) -> bind m k w = (Throw e, w1).
Proof. intros H. unfold bind. rewrite H. reflexivity. Qed.

Lemma bind_Pending {A B} (m : M A) (k : A -> M B) w w1 :
  m w = (Pending, w1) -> bind m k w = (Pending, w1).
Proof. intros H. unfold bind. rewrite H. reflexivity. Qed.

(** ** Status stack *)

Lemma statusPush_run msg w :
  statusPush msg w =
  (Ok tt,
   with_this (set_statusStack (statusStack (this w) ++ [pushedOn (statusStack (this w)) msg]))
     (emit (EvStatus (pushedOn (statusStack (this w)) msg)) w)).
Proof. reflexivity. Qed.

Lemma statusPop_run b w :
  statusPop b w =
  (Ok tt,
   emit (EvStatus (default "" (last (removelast (statusStack (this w))))))
     ((if b && logActivity (browser w)
       then emit (EvConsoleLog (last (statusStack (this w)))) else id)
        (with_this (set_statusStack (removelast (statusStack (this w)))) w))).
Proof.
  unfold statusPop, bind, get, modify, statusTop, fStatus, console_log, ret; simpl.
  destruct (b && logActivity (browser w)); reflexivity.
Qed.

Lemma last_snoc_default (l : list string) (x : string) :
  default "" (last (l ++ [x])) = x.
Proof. rewrite last_snoc. reflexivity. Qed.

(** C3 (as amended).  Let [P] be the entry the first push stores: [A]
    itself on an empty stack or under an empty top entry, otherwise
    the old top, [" -- "] and [A].  After [statusPush A] and
    [statusPush B] the top entry is [P ++ " -- " ++ B] when [P] is not
    empty, and [B] alone when it is; both entries were published when
    pushed.  [statusPop] then removes the top entry and republishes
    exactly [P]. *)
Theorem statusPush_statusPush_statusPop (A B : string) (logIt : bool) (w : World) :
  let stack := statusStack (this w) in
  let P := pushedOn stack A in
  let top := if truthy_string P then P +:+ " -- " +:+ B else B in
  (stack = [] -> P = A) /\
  exists w2,
    (statusPush A;; statusPush B)%js w = (Ok tt, w2) /\
    statusStack (this w2) = stack ++ [P; top] /\
    trace w2 = trace w ++ [EvStatus P; EvStatus top] /\
    exists w3,
      statusPop logIt w2 = (Ok tt, w3) /\
      statusStack (this w3) = stack ++ [P] /\
      last (trace w3) = Some (EvStatus P) /\
      trace w3 = trace w2
                 ++ (if logIt && logActivity (browser w) then [EvConsoleLog (Some top)] else [])
                 ++ [EvStatus P].
Proof.
  intros stack P top. split.
  { intros E. unfold P, pushedOn. rewrite E. reflexivity. }
  pose (w1 := with_this (set_statusStack (stack ++ [P])) (emit (EvStatus P) w)).
  assert (H1 : statusPush A w = (Ok tt, w1)) by apply statusPush_run.
  assert (Etop : pushedOn (statusStack (this w1)) B = top).
  { cbn. unfold pushedOn. rewrite last_snoc_default. reflexivity. }
  pose (w2 := with_this (set_statusStack (statusStack (this w1) ++ [top]))
                (emit (EvStatus top) w1)).
  assert (H2 : statusPush B w1 = (Ok tt, w2)).
  { rewrite statusPush_run, Etop. reflexivity. }
  exists w2. split; [ rewrite (bind_Ok _ _ _ _ _ H1); exact H2 | ].
  split; [ cbn; rewrite <- app_assoc; reflexivity | ].
  split; [ cbn; rewrite <- app_assoc; reflexivity | ].
  eexists. split; [ apply statusPop_run | ].
  cbn [with_this emit this statusStack set_statusStack trace browser w1 w2].
  cbn. rewrite removelast_last, last_snoc_default, last_snoc.
  destruct (logIt && logActivity (browser w)); cbn;
    (split; [reflexivity | split; [ | rewrite <- ?app_assoc; reflexivity ]]);
    rewrite ?app_assoc; apply last_snoc.
Qed.

(** C10.  On an empty status stack [statusPop] returns normally, the
    stack stays empty, and the status sink is called with the empty
    string (after [console.log(undefined)] when activity is logged). *)
Theorem statusPop_on_empty_stack (logIt : bool) (w : World) :
  statusStack (this w) = [] ->
  exists w',
    statusPop logIt w = (Ok tt, w') /\
    statusStack (this w') = [] /\
    last (trace w') = Some (EvStatus "") /\
    trace w' = trace w
               ++ (if logIt && logActivity (browser w) then [EvConsoleLog None] else [])
               ++ [EvStatus ""] /\
    browser w' = browser w /\
    inForeground (this w') = inForeground (this w).
Proof.
  intros E. eexists. split; [ apply statusPop_run | ].
  rewrite E.
  destruct (logIt && logActivity (browser w)); cbn;
    rewrite ?E; repeat split; try reflexivity;
    rewrite ?app_assoc; try apply last_snoc.
  rewrite <- app_assoc. reflexivity.
Qed.


(** ** Foreground and background *)

Section Foreground.
Variable drv : Driver.

Lemma acquireActivePage_free w :
  isLocked (activePageMutex (browser w)) = false ->
  acquireActivePage drv w = (bringToFront_answer drv w, acquired w).
Proof.
  intros H. unfold acquireActivePage.
  unfold bind at 1. rewrite statusPush_run.
  unfold bind at 1. unfold activePageMutex_acquire.
  cbn [with_this emit browser this trace]. rewrite H.
  unfold bind at 1. cbn [modify].
  unfold bind at 1. rewrite statusPop_run.
  unfold bringToFront_answer, acquired, request, bind, get, with_this, emit,
    with_browser, set_statusStack, set_inForeground; simpl.
  rewrite removelast_last, <- !app_assoc. reflexivity.
Qed.

Lemma acquireActivePage_locked w :
  isLocked (activePageMutex (browser w)) = true ->
  fst (acquireActivePage drv w) = Pending.
Proof.
  intros H. unfold acquireActivePage.
  unfold bind at 1. rewrite statusPush_run.
  unfold bind at 1. unfold activePageMutex_acquire.
  cbn [with_this emit browser this trace]. rewrite H. reflexivity.
Qed.

Lemma acquireActivePage_Ok w w1 :
  acquireActivePage drv w = (Ok tt, w1) ->
  isLocked (activePageMutex (browser w)) = false /\ w1 = acquired w.
Proof.
  intros H.
  destruct (isLocked (activePageMutex (browser w))) eqn:E.
  - apply acquireActivePage_locked in E. rewrite H in E. discriminate.
  - rewrite (acquireActivePage_free w E) in H. split; congruence.
Qed.

Lemma releaseActivePage_run w : releaseActivePage w = (Ok tt, released w).
Proof. reflexivity. Qed.

Lemma try_finally_release {T} (fn : M T) w r w1 :
  fn w = (r, w1) -> r <> Pending ->
  try_finally fn releaseActivePage w = (r, released w1).
Proof.
  intros H Hr. unfold try_finally. rewrite H, releaseActivePage_run.
  destruct r; congruence.
Qed.

(** [runInForeground], from a session that is not in the foreground
    and whose acquisition completes. *)
Lemma runInForeground_from_background {T} (fn : M T) w w1 r w2 :
  inForeground (this w) = false ->
  acquireActivePage drv w = (Ok tt, w1) ->
  fn w1 = (r, w2) -> r <> Pending ->
  runInForeground drv fn w = (r, released w2).
Proof.
  intros H Hacq Hfn Hr.
  unfold runInForeground, bind at 1, get. cbn match. rewrite H.
  rewrite (bind_Ok _ _ _ _ _ Hacq).
  apply try_finally_release; assumption.
Qed.

(** A session that is in the foreground runs [fn] as it is, with
    no second acquisition.  A session that is not, and whose
    acquisition completes, had found the mutex free; [fn] runs with the
    mutex locked and the flag set; and whether [fn] returns or throws,
    [runInForeground] ends with that very outcome, the flag cleared,
    the mutex unlocked and [release] as its last action. *)
Theorem runInForeground_acquires_and_releases {T} (fn : M T) (w : World) :
  (inForeground (this w) = true -> runInForeground drv fn w = fn w) /\
  (inForeground (this w) = false ->
   forall w1, acquireActivePage drv w = (Ok tt, w1) ->
     isLocked (activePageMutex (browser w)) = false /\
     w1 = acquired w /\
     inForeground (this w1) = true /\
     isLocked (activePageMutex (browser w1)) = true /\
     forall r w2, fn w1 = (r, w2) -> r <> Pending ->
       exists w3,
         runInForeground drv fn w = (r, w3) /\
         w3 = released w2 /\
         inForeground (this w3) = false /\
         isLocked (activePageMutex (browser w3)) = false /\
         trace w3 = trace w2 ++ [EvRelease]).
Proof.
  split.
  - intros H. unfold runInForeground, bind, get. cbn. rewrite H. reflexivity.
  - intros H w1 Hacq.
    destruct (acquireActivePage_Ok w w1 Hacq) as [Hfree ->].
    repeat split; try assumption; try reflexivity.
    intros r w2 Hfn Hr. exists (released w2).
    repeat split; try reflexivity.
    apply runInForeground_from_background with (w1 := acquired w); assumption.
Qed.

(** [runInBackground], from a session that is not in the foreground. *)
(** C1 (the code departs from it).  When the mutex has been taken and
    [bringToFront] rejects, [runInForeground] throws that error on a
    path that releases nothing.  Whatever the job, it has not been
    called; the mutex has been acquired and not released, the flag is
    set, and from the state that is left no acquisition completes. *)
Theorem runInForeground_keeps_token_when_bringToFront_rejects {T} (fn : M T) (w : World)
    (e : Err) :
  inForeground (this w) = false ->
  isLocked (activePageMutex (browser w)) = false ->
  bringToFront_answer drv w = Throw e ->
  runInForeground drv fn w = (Throw e, acquired w) /\
  (forall other : M T, runInForeground drv other w = runInForeground drv fn w) /\
  inForeground (this (acquired w)) = true /\
  isLocked (activePageMutex (browser (acquired w))) = true /\
  (EvAcquire ∈ drop (length (trace w)) (trace (acquired w))) /\
  (EvRelease ∉ drop (length (trace w)) (trace (acquired w))) /\
  (forall later, browser later = browser (acquired w) ->
     fst (acquireActivePage drv later) = Pending).
Proof.
  intros Hfg Hfree Hfront.
  assert (Hrun : forall job : M T, runInForeground drv job w = (Throw e, acquired w)).
  { intros job. unfold runInForeground, bind at 1, get. cbn match. rewrite Hfg.
    apply bind_Throw. rewrite (acquireActivePage_free w Hfree), Hfront. reflexivity. }
  split; [apply Hrun|]. split; [intros other; rewrite !Hrun; reflexivity|].
  split; [reflexivity|]. split; [reflexivity|].
  unfold acquired. cbn [trace]. rewrite drop_app_length.
  split; [right; left|]. split.
  - rewrite !elem_of_cons, elem_of_nil. intros [H|[H|[H|[H|H]]]]; try discriminate. exact H.
  - intros later Hlater. apply acquireActivePage_locked. rewrite Hlater. reflexivity.
Qed.

Lemma runInBackground_not_holding {T} (fn : M T) w :
  inForeground (this w) = false -> runInBackground drv fn w = fn w.
Proof. intros H. unfold runInBackground, bind, get. cbn. rewrite H. reflexivity. Qed.

(** From the foreground, when [fn] returns: the token is released
    before [fn] and acquired again after it. *)
Lemma runInBackground_returns {T} (fn : M T) w r w1 :
  inForeground (this w) = true ->
  fn (released w) = (Ok r, w1) ->
  runInBackground drv fn w = (acquireActivePage drv;; ret r)%js w1.
Proof.
  intros H Hfn. unfold runInBackground, bind at 1, get. cbn match. rewrite H. cbn [negb].
  rewrite (bind_Ok _ _ _ _ _ (releaseActivePage_run w)).
  rewrite (bind_Ok _ _ _ _ _ Hfn). reflexivity.
Qed.

(** From the foreground, when [fn] throws: nothing is acquired again;
    the session is left exactly as [fn] left it. *)
Lemma runInBackground_throws {T} (fn : M T) w e w1 :
  inForeground (this w) = true ->
  fn (released w) = (Throw e, w1) ->
  runInBackground drv fn w = (Throw e, w1).
Proof.
  intros H Hfn. unfold runInBackground, bind at 1, get. cbn match. rewrite H. cbn [negb].
  rewrite (bind_Ok _ _ _ _ _ (releaseActivePage_run w)).
  apply bind_Throw. assumption.
Qed.

(** From the foreground, when [fn] returns and the token can be taken
    again: [fn] ran without the token, and the session is back in the
    foreground, the mutex locked, when [runInBackground] returns what
    [fn] returned. *)
Theorem runInBackground_resumes_foreground {T} (fn : M T) (w : World)
    (r : T) (w1 w2 : World) :
  inForeground (this w) = true ->
  fn (released w) = (Ok r, w1) ->
  acquireActivePage drv w1 = (Ok tt, w2) ->
  runInBackground drv fn w = (Ok r, w2) /\
  inForeground (this (released w)) = false /\
  isLocked (activePageMutex (browser (released w))) = false /\
  inForeground (this w2) = true /\
  isLocked (activePageMutex (browser w2)) = true.
Proof.
  intros H Hfn Hacq.
  destruct (acquireActivePage_Ok w1 w2 Hacq) as [_ ->].
  repeat split.
  rewrite (runInBackground_returns fn w r w1 H Hfn).
  rewrite (bind_Ok _ _ _ _ _ Hacq). reflexivity.
Qed.

(** ** [wait] *)

Lemma wait_f_run ms waitIn w : wait_f ms waitIn w = (Ok tt, delayed ms waitIn w).
Proof.
  unfold wait_f.
  unfold bind at 1. rewrite statusPush_run.
  unfold bind at 1. unfold setTimeout at 1. cbn [modify].
  rewrite statusPop_run.
  unfold delayed, with_this, emit, set_statusStack; simpl.
  rewrite removelast_last. destruct w as [b [p c s f] t]; reflexivity.
Qed.

End Foreground.

Section Selectors.
Variable drv : Driver.

(** The [try] statement of [waitForSelector] never throws. *)
Lemma guarded_wait_outcome (selector : string) (options : SelectorOptions) w :
  let guarded :=
    try_finally
      (try_catch (result <- nativeWait drv selector options;;
                  ret (inl result : option ElementHandle + option ElementHandle))%js
                 (fun _ => ret (inr None)))
      (statusPop false) in
  match nativeWait drv selector options w with
  | (Ok result, w1) => guarded w = (Ok (inl result), snd (statusPop false w1))
  | (Throw _, w1) => guarded w = (Ok (inr None), snd (statusPop false w1))
  | (Pending, w1) => guarded w = (Pending, w1)
  end.
Proof.
  intros guarded. unfold guarded, try_finally, try_catch, bind, ret.
  destruct (nativeWait drv selector options w) as [[result|e|] w1];
    try rewrite statusPop_run; reflexivity.
Qed.


Lemma firstTrulyVisible_frame hs w r w0 :
  firstTrulyVisible drv hs w = (r, w0) -> this w0 = this w /\ browser w0 = browser w.
Proof.
  revert w. induction hs as [|h rest IH]; intros w H.
  - injection H as <- <-. split; reflexivity.
  - cbn [firstTrulyVisible] in H. unfold bind, isTrulyVisible, request in H.
    destruct (drv_isTrulyVisible drv (trace w) h) as [[rect|]|e|].
    + injection H as <- <-. split; reflexivity.
    + apply IH in H. exact H.
    + injection H as <- <-. split; reflexivity.
    + injection H as <- <-. split; reflexivity.
Qed.

Lemma getSelectorImmediate_frame selector visible w r w0 :
  getSelectorImmediate drv selector visible w = (r, w0) ->
  this w0 = this w /\ browser w0 = browser w.
Proof.
  unfold getSelectorImmediate, bind at 1, get. destruct (truthy_flag visible).
  - unfold bind, request.
    destruct (drv_queryAll drv (trace w) (page (this w)) selector) as [hs|e|].
    + intros H. apply firstTrulyVisible_frame in H. exact H.
    + intros [= <- <-]. split; reflexivity.
    + intros [= <- <-]. split; reflexivity.
  - unfold request. intros [= <- <-]. split; reflexivity.
Qed.

(** From the foreground, a wait in the background whose native wait
    fails (as it does when it runs into its timeout) returns [null]
    with the session left outside the foreground: the token was
    released before the wait and is not acquired again, whatever the
    selector, the timeout and the session. *)
Theorem waitForSelector_background_timeout_leaves_foreground
    (selector : string) (options : SelectorOptions) (w w0 : World) (e : Err) :
  inForeground (this w) = true ->
  sel_waitIn options = Some background ->
  truthy_number (sel_timeoutMs options) = true ->
  getSelectorImmediate drv selector (sel_visible options) w = (Ok None, w0) ->
  drv_waitForSelector drv
    (trace w0 ++ [EvStatus (pushedOn (statusStack (this w)) ("Waiting for selector " +:+ selector));
                  EvRelease])
    (page (this w)) selector = Throw e ->
  exists w',
    waitForSelector drv selector options w = (Ok None, w') /\
    inForeground (this w') = false /\
    isLocked (activePageMutex (browser w')) = false /\
    trace w' = trace w0
               ++ [EvStatus (pushedOn (statusStack (this w)) ("Waiting for selector " +:+ selector));
                   EvRelease;
                   EvCall (CWaitForSelector (page (this w)) selector
                             (default 0%Z (sel_timeoutMs options)) (sel_visible options));
                   EvStatus (default "" (last (statusStack (this w))))] /\
    statusStack (this w') = statusStack (this w).
Proof.
  intros Hfg Hbg Htimeout Himm Hwait.
  destruct (getSelectorImmediate_frame _ _ _ _ _ Himm) as [Hthis Hbrowser].
  set (msg := pushedOn (statusStack (this w)) ("Waiting for selector " +:+ selector)) in *.
  set (w1 := with_this (set_statusStack (statusStack (this w0) ++ [msg]))
               (emit (EvStatus msg) w0)).
  assert (Hpush : statusPush ("Waiting for selector " +:+ selector) w0 = (Ok tt, w1)).
  { rewrite statusPush_run. unfold w1, msg. rewrite Hthis. reflexivity. }
  set (c := CWaitForSelector (page (this w)) selector
              (default 0%Z (sel_timeoutMs options)) (sel_visible options)).
  assert (Hnative : nativeWait drv selector options w1
                    = (Throw e, emit (EvCall c) (released w1))).
  { unfold nativeWait, bind at 1, get. cbv zeta. rewrite Hbg.
    assert (Hp : page (this w1) = page (this w)) by (unfold w1; cbn; rewrite Hthis; reflexivity).
    rewrite Hp. fold c.
    apply runInBackground_throws.
    - unfold w1. cbn. rewrite Hthis. exact Hfg.
    - unfold request. f_equal.
      unfold released, w1. cbn [trace emit with_this]. rewrite <- app_assoc. exact Hwait. }
  pose proof (guarded_wait_outcome selector options w1) as G. cbv zeta in G.
  rewrite Hnative in G.
  eexists. split.
  - unfold waitForSelector. rewrite (bind_Ok _ _ _ _ _ Himm).
    rewrite Htimeout. cbn [negb].
    rewrite (bind_Ok _ _ _ _ _ Hpush).
    rewrite (bind_Ok _ _ _ _ _ G). reflexivity.
  - rewrite statusPop_run. cbn. rewrite removelast_last, <- !app_assoc, Hthis.
    repeat split.
Qed.

End Selectors.

(** ** The tab pool *)

Section Pool.
Variable drv : Driver.

(** C6.  With a tab in the pool, [getPage] returns the tab that was
    pushed last and removes it from the pool; nothing else changes: no
    request reaches the driver (so nothing is launched, and the outcome
    is the same on every driver), and the browser field, the
    focused-tab note and the session are as they were. *)
Theorem getPage_takes_from_pool (w : World) :
  availablePages (browser w) <> [] ->
  exists p w',
    getPage drv w = (Ok p, w') /\
    last (availablePages (browser w)) = Some p /\
    availablePages (browser w') = removelast (availablePages (browser w)) /\
    availablePages (browser w) = availablePages (browser w') ++ [p] /\
    _browser (browser w') = _browser (browser w) /\
    trace w' = trace w /\
    activePage (browser w') = activePage (browser w) /\
    this w' = this w /\
    forall other : Driver, getPage other w = (Ok p, w').
Proof.
  intros Hne.
  destruct (last (availablePages (browser w))) as [p|] eqn:El.
  - exists p. eexists. split.
    { unfold getPage, bind, availablePages_pop. rewrite El. reflexivity. }
    cbn. repeat split.
    + apply last_Some in El as [l' ->]. rewrite removelast_last. reflexivity.
    + intros other. unfold getPage, bind, availablePages_pop. rewrite El. reflexivity.
  - apply last_None in El. contradiction.
Qed.

Lemma acceptClosedPage_run p w :
  acceptClosedPage p w =
  (Ok tt, with_browser (fun m => set_availablePages (availablePages m ++ [p]) m) w).
Proof. reflexivity. Qed.

Lemma status_run msg w :
  exists w', status msg w = (Ok tt, w') /\ inForeground (this w') = inForeground (this w).
Proof.
  unfold status, bind, get. cbn match.
  destruct (statusStack (this w)) eqn:E.
  - rewrite statusPush_run. eexists; split; reflexivity.
  - eexists; split; reflexivity.
Qed.

(** Navigation leaves a background session in the background. *)
Lemma goto_stays_background u o w r w' :
  inForeground (this w) = false ->
  goto drv u o w = (r, w') ->
  inForeground (this w') = false.
Proof.
  intros Hbg H. unfold goto in H.
  destruct (status_run ("Navigating to " +:+ u) w) as (ws & Hs & Hfg).
  rewrite (bind_Ok _ _ _ _ _ Hs) in H.
  unfold bind at 1, get in H. unfold bind at 1, request at 1 in H.
  rewrite <- Hfg in Hbg.
  destruct (drv_unit drv (trace ws) _) as [[]|e|].
  - destruct (go_waitAfterMs o) as [ms|].
    + destruct (0 <? ms)%Z.
      * unfold wait in H. rewrite runInBackground_not_holding in H by exact Hbg.
        rewrite wait_f_run in H. injection H as <- <-. exact Hbg.
      * injection H as <- <-. exact Hbg.
    + injection H as <- <-. exact Hbg.
  - injection H as <- <-. exact Hbg.
  - injection H as <- <-. exact Hbg.
Qed.

Lemma gotoUrl_stays_background cfg w r w' :
  inForeground (this w) = false ->
  gotoUrl drv cfg w = (r, w') ->
  inForeground (this w') = false.
Proof.
  intros Hbg H. unfold gotoUrl in H.
  destruct (url cfg) as [u|]; [destruct (truthy_string u)|].
  - eapply goto_stays_background; eassumption.
  - injection H as <- <-. exact Hbg.
  - injection H as <- <-. exact Hbg.
Qed.

(** C5.  Once the task has its tab [p], whatever its [try] block does
    short of never ending, the task function ends the same way, and
    with [p] pushed onto the pool as the last thing it does; a thrown
    exception has then been written to the console and is thrown
    again.  In particular an exception of the job itself, raised in
    its foreground section, is what the caller gets, after the release
    of the mutex and the return of the tab. *)
Theorem addPageTask_returns_tab (cfg : TaskOptions) (executionFunction : M unit) (w : World)
    (p : Page) (w1 : World) :
  getPage drv w = (Ok p, w1) ->
  let session := with_this (fun _ => newPuppyteerPage p cfg) w1 in
  (forall r w2, pageTaskBody drv cfg executionFunction session = (r, w2) -> r <> Pending ->
     exists w3,
       addPageTask drv cfg executionFunction w = (r, w3) /\
       availablePages (browser w3) = availablePages (browser w2) ++ [p] /\
       trace w3 = trace w2 ++ match r with Throw e => [EvConsoleError e] | _ => [] end /\
       this w3 = this w2) /\
  (forall w0 started e w2,
     gotoUrl drv cfg session = (Ok tt, w0) ->
     acquireActivePage drv w0 = (Ok tt, started) ->
     executionFunction started = (Throw e, w2) ->
     exists w3,
       addPageTask drv cfg executionFunction w = (Throw e, w3) /\
       availablePages (browser w3) = availablePages (browser w2) ++ [p] /\
       trace w3 = trace w2 ++ [EvRelease; EvConsoleError e] /\
       isLocked (activePageMutex (browser w3)) = false).
Proof.
  intros Hpage session.
  assert (Hbody : forall r w2, pageTaskBody drv cfg executionFunction session = (r, w2) -> r <> Pending ->
     addPageTask drv cfg executionFunction w =
     (r, with_browser (fun m => set_availablePages (availablePages m ++ [p]) m)
           (match r with Throw e => emit (EvConsoleError e) w2 | _ => w2 end))).
  { intros r w2 Hb Hr. unfold addPageTask.
    rewrite (bind_Ok _ _ _ _ _ Hpage).
    unfold bind at 1. cbn [modify]. fold session.
    unfold try_finally, try_catch. rewrite Hb.
    destruct r as [[]|e|]; try congruence; reflexivity. }
  split.
  - intros r w2 Hb Hr. eexists. split; [ apply (Hbody r w2 Hb Hr) | ].
    destruct r as [[]|e|]; try congruence; cbn; rewrite ?app_nil_r; repeat split.
  - intros w0 started e w2 Hurl Hacq Hjob.
    assert (Hb : pageTaskBody drv cfg executionFunction session = (Throw e, released w2)).
    { unfold pageTaskBody. rewrite (bind_Ok _ _ _ _ _ Hurl).
      apply runInForeground_from_background with (w1 := started);
        [ | assumption | assumption | discriminate].
      eapply gotoUrl_stays_background; [ | exact Hurl ]. reflexivity. }
    eexists. split; [ apply (Hbody _ _ Hb); discriminate | ].
    cbn. rewrite <- app_assoc. repeat split.
Qed.

End Pool.

(** ** Numbers *)

Lemma two_power_pos (x : Z) : (0 < 2 ^ x)%Q.
Proof. apply Qpower_0_lt. reflexivity. Qed.

Lemma two_power_succ (x : Z) : (2 ^ (x + 1) == 2 * 2 ^ x)%Q.
Proof. rewrite Qpower_plus by discriminate. change (2 ^ 1)%Q with 2%Q. ring. Qed.

Lemma two_power_Z (a : Z) : (0 <= a)%Z -> (inject_Z (2 ^ a) == 2 ^ a)%Q.
Proof. intros H. rewrite Zpower_Qpower by exact H. reflexivity. Qed.

Lemma log2_bounds (n : Z) :
  (0 < n)%Z -> (2 ^ Z.log2 n <= inject_Z n /\ inject_Z n < 2 * 2 ^ Z.log2 n)%Q.
Proof.
  intros H. destruct (Z.log2_spec n H) as [H1 H2].
  pose proof (Z.log2_nonneg n) as H0.
  rewrite <- two_power_succ, <- !two_power_Z by lia.
  rewrite <- Zle_Qle, <- Zlt_Qlt. replace (Z.log2 n + 1)%Z with (Z.succ (Z.log2 n)) by lia.
  split; assumption.
Qed.

Lemma Qabs_make (q : Q) :
  (Qabs q == inject_Z (Z.abs (Qnum q)) / inject_Z (Zpos (Qden q)))%Q.
Proof.
  destruct q as [n d]. unfold Qabs. cbn [Qnum Qden].
  rewrite (Qmake_Qdiv (Z.abs n) d). reflexivity.
Qed.

Lemma Qlog2_spec (q : Q) :
  ~ (q == 0)%Q -> (2 ^ Qlog2 q <= Qabs q /\ Qabs q < 2 ^ (Qlog2 q + 1))%Q.
Proof.
  intros Hq.
  assert (Hn : (0 < Z.abs (Qnum q))%Z).
  { destruct q as [n d]. cbn. unfold Qeq in Hq. cbn in Hq. lia. }
  destruct (log2_bounds _ Hn) as [N1 N2].
  destruct (log2_bounds (Zpos (Qden q)) eq_refl) as [D1 D2].
  pose proof (Qabs_make q) as Habs.
  unfold Qlog2. cbv zeta.
  set (a := Z.log2 (Z.abs (Qnum q))) in *.
  set (b := Z.log2 (Zpos (Qden q))) in *.
  set (N := inject_Z (Z.abs (Qnum q))) in *.
  set (D := inject_Z (Zpos (Qden q))) in *.
  assert (Hab : (2 ^ (a - b) * 2 ^ b == 2 ^ a)%Q).
  { rewrite <- Qpower_plus by discriminate. replace (a - b + b)%Z with a by lia. reflexivity. }
  pose proof (two_power_pos a) as Pa. pose proof (two_power_pos b) as Pb.
  pose proof (two_power_pos (a - b)) as Pe.
  assert (HD : (0 < D)%Q) by lra.
  destruct (Qle_bool (2 ^ (a - b)) (Qabs q)) eqn:E.
  - apply Qle_bool_iff in E. split; [exact E|].
    rewrite two_power_succ, Habs. apply Qlt_shift_div_r; [exact HD|].
    set (pe := (2 ^ (a - b))%Q) in *. set (pa := (2 ^ a)%Q) in *. set (pb := (2 ^ b)%Q) in *.
    nra.
  - assert (E' : (Qabs q < 2 ^ (a - b))%Q).
    { apply Qnot_le_lt. intros C. apply Qle_bool_iff in C. congruence. }
    replace (a - b - 1 + 1)%Z with (a - b)%Z by lia. split; [|exact E'].
    assert (Hhalf : (2 * 2 ^ (a - b - 1) == 2 ^ (a - b))%Q).
    { rewrite <- two_power_succ. replace (a - b - 1 + 1)%Z with (a - b)%Z by lia. reflexivity. }
    pose proof (two_power_pos (a - b - 1)) as Ph.
    rewrite Habs. apply Qle_shift_div_l; [exact HD|].
    set (pe := (2 ^ (a - b))%Q) in *. set (ph := (2 ^ (a - b - 1))%Q) in *.
    set (pa := (2 ^ a)%Q) in *. set (pb := (2 ^ b)%Q) in *.
    nra.
Qed.

Lemma Qlog2_unique (q : Q) (x : Z) :
  ~ (q == 0)%Q -> (2 ^ x <= Qabs q)%Q -> (Qabs q < 2 ^ (x + 1))%Q -> Qlog2 q = x.
Proof.
  intros Hq H1 H2. destruct (Qlog2_spec q Hq) as [L1 L2].
  assert (A : (2 ^ x < 2 ^ (Qlog2 q + 1))%Q) by lra.
  assert (B : (2 ^ Qlog2 q < 2 ^ (x + 1))%Q) by lra.
  apply Qpower_lt_compat_l_inv in A; [|reflexivity].
  apply Qpower_lt_compat_l_inv in B; [|reflexivity].
  lia.
Qed.

Lemma roundHalfEven_Z (q : Q) (z : Z) : (q == inject_Z z)%Q -> roundHalfEven q = z.
Proof.
  intros H. unfold roundHalfEven. cbv zeta.
  rewrite (Qfloor_comp _ _ H), Qfloor_Z.
  assert (E : (q - inject_Z z < 1 # 2)%Q) by (rewrite H; lra).
  destruct (Qcompare_spec (q - inject_Z z) (1 # 2)) as [C|C|C]; [lra|reflexivity|lra].
Qed.

(** A number whose numerator is below 2^53 over a power of two is a
    double: rounding leaves it as it is. *)
Lemma roundDouble_dyadic (k j : Z) (q : Q) :
  (Z.abs k < 2 ^ 53)%Z -> (0 <= j <= 1022)%Z ->
  (q == inject_Z k / 2 ^ j)%Q -> (roundDouble q == q)%Q.
Proof.
  intros Hk Hj Hq. unfold roundDouble.
  pose proof (two_power_pos j) as Pj.
  destruct (Qeq_bool q 0) eqn:E0.
  { apply Qeq_bool_iff in E0. rewrite E0. reflexivity. }
  assert (Hq0 : ~ (q == 0)%Q) by (intros C; apply Qeq_bool_iff in C; congruence).
  assert (Hk0 : k <> 0%Z).
  { intros ->. apply Hq0. rewrite Hq. unfold Qdiv. ring. }
  cbv zeta.
  set (a := Z.log2 (Z.abs k)).
  assert (Ha : (0 <= a <= 52)%Z).
  { split; [apply Z.log2_nonneg|]. unfold a.
    assert (Z.log2 (Z.abs k) < 53)%Z by (apply Z.log2_lt_pow2; lia). lia. }
  destruct (log2_bounds (Z.abs k) ltac:(lia)) as [K1 K2]. fold a in K1, K2.
  assert (Habs : (Qabs q == inject_Z (Z.abs k) / 2 ^ j)%Q).
  { rewrite Hq. unfold Qdiv. rewrite Qabs_Qmult, Qabs_Qinv.
    rewrite (Qabs_pos (2 ^ j)) by lra.
    unfold Qabs, inject_Z. reflexivity. }
  assert (Hsplit : (2 ^ (a - j) * 2 ^ j == 2 ^ a)%Q).
  { rewrite <- Qpower_plus by discriminate. replace (a - j + j)%Z with a by lia. reflexivity. }
  pose proof (two_power_pos a) as Pa. pose proof (two_power_pos (a - j)) as Paj.
  assert (Hlog : Qlog2 q = (a - j)%Z).
  { apply Qlog2_unique; [exact Hq0| |].
    - rewrite Habs. apply Qle_shift_div_l; [exact Pj|]. rewrite Hsplit. exact K1.
    - rewrite two_power_succ, Habs. apply Qlt_shift_div_r; [exact Pj|].
      assert (E2 : (2 * 2 ^ (a - j) * 2 ^ j == 2 * 2 ^ a)%Q) by (rewrite <- Hsplit; ring).
      rewrite E2. exact K2. }
  rewrite Hlog. rewrite Z.max_l by lia.
  set (e := (a - j - 52)%Z).
  pose proof (two_power_pos e) as Pe.
  assert (Hscale : (2 ^ (52 - a) * 2 ^ e * 2 ^ j == 1)%Q).
  { rewrite <- !Qpower_plus by discriminate.
    replace (52 - a + e + j)%Z with 0%Z by (unfold e; lia). reflexivity. }
  assert (Hint : (q / 2 ^ e == inject_Z (k * 2 ^ (52 - a)))%Q).
  { rewrite inject_Z_mult, two_power_Z by lia. rewrite Hq.
    transitivity (inject_Z k * (2 ^ (52 - a) * 2 ^ e * 2 ^ j) / 2 ^ j / 2 ^ e)%Q.
    - rewrite Hscale. field. split; lra.
    - field. split; lra. }
  rewrite (roundHalfEven_Z _ _ Hint), <- Hint.
  field. lra.
Qed.

Lemma negative_comp (q q' : Q) : (q == q')%Q -> negative q = negative q'.
Proof.
  intros H. unfold negative. f_equal.
  destruct (Qle_bool 0 q) eqn:E, (Qle_bool 0 q') eqn:E'; try reflexivity.
  - apply Qle_bool_iff in E. rewrite H in E. apply Qle_bool_iff in E. congruence.
  - apply Qle_bool_iff in E'. rewrite <- H in E'. apply Qle_bool_iff in E'. congruence.
Qed.

(** ** Sorting *)

Section SortFacts.
Context {A : Type}.
Variable comparefn : A -> A -> Q.

Lemma negative_false (q : Q) : negative q = false <-> (0 <= q)%Q.
Proof.
  unfold negative. rewrite negb_false_iff. apply Qle_bool_iff.
Qed.

Lemma run_extent_whole (previous : A) (rest : list A) :
  (forall a b, a ∈ previous :: rest -> b ∈ previous :: rest ->
     negative (comparefn a b) = false) ->
  run_extent comparefn false previous rest = length rest.
Proof.
  revert previous. induction rest as [|current rest IH]; intros previous H; [reflexivity|].
  cbn [run_extent]. rewrite H by (rewrite !elem_of_cons; auto). cbn [length]. f_equal.
  apply IH. intros a b Ha Hb. apply H; rewrite elem_of_cons; auto.
Qed.

(** An array on which the comparator is never negative is one run: the
    sort returns it as it is. *)
Lemma sort_single_run (arr : list A) :
  (forall a b, a ∈ arr -> b ∈ arr -> negative (comparefn a b) = false) ->
  sort comparefn arr = arr.
Proof.
  intros H. destruct arr as [|x [|y rest]]; try reflexivity.
  unfold sort. rewrite H by (rewrite !elem_of_cons; auto).
  rewrite run_extent_whole by (intros a b Ha Hb; apply H; rewrite elem_of_cons; auto).
  change (2 + length rest)%nat with (length (x :: y :: rest)).
  rewrite take_ge, drop_ge by lia. reflexivity.
Qed.

End SortFacts.

(** ** The head of the sorted array *)

Section SortHead.
Context {A : Type}.
Variable comparefn : A -> A -> Q.

Lemma insertion_point_ge fuel arr pivot left right :
  (left <= insertion_point comparefn fuel arr pivot left right)%nat.
Proof.
  revert left right. induction fuel as [|fuel IH]; intros left right; cbn [insertion_point]; [lia|].
  destruct (left <? right)%nat; [|lia].
  destruct (arr !! _) as [x|]; [|lia].
  destruct (negative _).
  - apply IH.
  - etransitivity; [|apply IH]. lia.
Qed.

Lemma insertion_point_front fuel arr pivot right :
  (right <= length arr)%nat ->
  (forall x, x ∈ arr -> before comparefn pivot x) ->
  insertion_point comparefn fuel arr pivot 0 right = 0%nat.
Proof.
  revert right. induction fuel as [|fuel IH]; intros right Hr Hall; cbn [insertion_point]; [reflexivity|].
  destruct right as [|right]; [reflexivity|]. cbn [Nat.ltb Nat.leb].
  assert (Hmid : (0 + (S right - 0) / 2 < S right)%nat).
  { cbn [Nat.add]. rewrite Nat.sub_0_r. apply Nat.div_lt; lia. }
  destruct (lookup_lt_is_Some_2 arr _ (Nat.lt_le_trans _ _ _ Hmid Hr)) as [x Hx].
  rewrite Hx. rewrite (Hall x) by (eapply list_elem_of_lookup_2; exact Hx).
  apply IH; [lia | exact Hall].
Qed.

Lemma insertion_point_behind fuel arr pivot h right :
  head arr = Some h ->
  ~ before comparefn pivot h ->
  (1 <= right <= length arr)%nat -> (right <= fuel)%nat ->
  (1 <= insertion_point comparefn fuel arr pivot 0 right)%nat.
Proof.
  intros Hh Hnb. revert right. induction fuel as [|fuel IH]; intros right Hr Hf; [lia|].
  cbn [insertion_point].
  destruct (0 <? right)%nat eqn:E; [|apply Nat.ltb_ge in E; lia].
  set (mid := (0 + (right - 0) / 2)%nat).
  assert (Hmid : (mid < right)%nat).
  { unfold mid. cbn [Nat.add]. rewrite Nat.sub_0_r. apply Nat.div_lt; lia. }
  destruct (lookup_lt_is_Some_2 arr mid ltac:(lia)) as [x Hx].
  rewrite Hx. destruct (negative (comparefn pivot x)) eqn:En.
  - destruct mid as [|mid'] eqn:Em.
    + rewrite head_lookup in Hh. rewrite Hh in Hx. injection Hx as <-.
      contradiction.
    + apply IH; lia.
  - etransitivity; [|apply insertion_point_ge]. lia.
Qed.

Lemma binary_insert_front arr pivot :
  (forall x, x ∈ arr -> before comparefn pivot x) ->
  binary_insert comparefn arr pivot = pivot :: arr.
Proof.
  intros H. unfold binary_insert. cbv zeta.
  rewrite insertion_point_front by (auto; lia). reflexivity.
Qed.

Lemma binary_insert_behind arr pivot h :
  head arr = Some h -> ~ before comparefn pivot h ->
  head (binary_insert comparefn arr pivot) = Some h.
Proof.
  intros Hh Hnb. unfold binary_insert. cbv zeta.
  pose proof (insertion_point_behind (S (length arr)) arr pivot h (length arr) Hh Hnb) as Hp.
  destruct arr as [|a arr']; [discriminate|]. cbn in Hh. injection Hh as ->.
  specialize (Hp ltac:(cbn; lia) ltac:(cbn; lia)).
  destruct (insertion_point _ _ _ _ _ _); [lia|]. reflexivity.
Qed.

Lemma elem_of_binary_insert arr pivot x :
  x ∈ binary_insert comparefn arr pivot <-> x = pivot \/ x ∈ arr.
Proof.
  unfold binary_insert. cbv zeta.
  set (pos := insertion_point comparefn (S (length arr)) arr pivot 0 (length arr)).
  rewrite elem_of_app, elem_of_cons.
  rewrite <- (take_drop pos arr) at 3.
  rewrite elem_of_app. tauto.
Qed.

(** Inserting the elements of [rest] one by one keeps the least, and
    among equals the earliest, at the head. *)
Lemma fold_binary_insert_head rest :
  forall cur processed h,
    strict_weak_on comparefn (processed ++ rest) ->
    head cur = Some h ->
    (forall x, x ∈ cur -> x ∈ processed) ->
    stable_min comparefn processed h ->
    exists h',
      head (fold_left (binary_insert comparefn) rest cur) = Some h' /\
      stable_min comparefn (processed ++ rest) h'.
Proof.
  induction rest as [|pivot rest IH]; intros cur processed h Hswo Hh Hsub Hmin.
  - exists h. rewrite app_nil_r. split; assumption.
  - cbn [fold_left].
    replace (processed ++ pivot :: rest) with ((processed ++ [pivot]) ++ rest) in *
      by (rewrite <- app_assoc; reflexivity).
    destruct Hswo as [Hasym Hneg].
    destruct Hmin as (i & Hi & Hleast & Hfirst).
    assert (Hin : forall x, x ∈ processed ++ [pivot] -> x ∈ (processed ++ [pivot]) ++ rest)
      by (intros x Hx; apply elem_of_app; auto).
    assert (Hpiv : pivot ∈ processed ++ [pivot])
      by (apply elem_of_app; right; apply list_elem_of_singleton; reflexivity).
    assert (Hproc : forall x, x ∈ processed -> x ∈ processed ++ [pivot])
      by (intros x Hx; apply elem_of_app; auto).
    assert (Hhin : h ∈ processed) by (eapply list_elem_of_lookup_2; exact Hi).
    destruct (negative (comparefn pivot h)) eqn:E.
    + (* the pivot goes to the front *)
      assert (Hall : forall x, x ∈ processed -> before comparefn pivot x).
      { intros x Hx. destruct (Hneg pivot h x) as [Hb|Hb]; auto.
        exfalso. exact (Hleast x Hx Hb). }
      rewrite binary_insert_front by (intros x Hx; apply Hall, Hsub, Hx).
      apply (IH (pivot :: cur) (processed ++ [pivot]) pivot).
      * split; assumption.
      * reflexivity.
      * intros x Hx. apply elem_of_cons in Hx as [->|Hx]; auto.
      * exists (length processed). split; [|split].
        -- rewrite lookup_app_r, Nat.sub_diag by lia. reflexivity.
        -- intros x Hx Hb. apply elem_of_app in Hx as [Hx|Hx].
           ++ apply (Hasym x pivot); auto.
           ++ apply list_elem_of_singleton in Hx as ->. apply (Hasym pivot pivot); auto.
        -- intros j x Hj Hnb. destruct (decide (j < length processed)%nat) as [Hlt|]; [|lia].
           rewrite lookup_app_l in Hj by exact Hlt.
           exfalso. apply Hnb, Hall. eapply list_elem_of_lookup_2; exact Hj.
    + (* the pivot goes behind the head *)
      assert (Hnb : ~ before comparefn pivot h) by (unfold before; rewrite E; discriminate).
      apply (IH (binary_insert comparefn cur pivot) (processed ++ [pivot]) h).
      * split; assumption.
      * apply binary_insert_behind; assumption.
      * intros x Hx. apply elem_of_binary_insert in Hx as [->|Hx]; auto.
      * exists i. split; [|split].
        -- rewrite lookup_app_l; [exact Hi|]. eapply lookup_lt_Some; exact Hi.
        -- intros x Hx. apply elem_of_app in Hx as [Hx|Hx]; [apply Hleast, Hx|].
           apply list_elem_of_singleton in Hx as ->. exact Hnb.
        -- intros j x Hj Hn. destruct (decide (j < length processed)%nat) as [Hlt|Hge].
           ++ rewrite lookup_app_l in Hj by exact Hlt. eapply Hfirst; eassumption.
           ++ apply lookup_lt_Some in Hi. lia.
Qed.

Lemma before_trans l a b c :
  strict_weak_on comparefn l -> a ∈ l -> b ∈ l -> c ∈ l ->
  before comparefn a b -> before comparefn b c -> before comparefn a c.
Proof.
  intros [Hasym Hneg] Ha Hb Hc Hab Hbc.
  destruct (Hneg a b c Ha Hb Hc Hab) as [H|H]; [exact H|].
  exfalso. exact (Hasym b c Hb Hc Hbc H).
Qed.

Lemma not_before_trans l a b c :
  strict_weak_on comparefn l -> a ∈ l -> b ∈ l -> c ∈ l ->
  ~ before comparefn b a -> ~ before comparefn c b -> ~ before comparefn c a.
Proof.
  intros [Hasym Hneg] Ha Hb Hc Hba Hcb Hca.
  destruct (Hneg c a b Hc Ha Hb Hca); contradiction.
Qed.

(** In a non-descending run nothing comes before comparefn its first element. *)
Lemma ascending_run l previous rest :
  strict_weak_on comparefn l -> previous ∈ l -> (forall x, x ∈ rest -> x ∈ l) ->
  forall x, x ∈ take (run_extent comparefn false previous rest) rest -> ~ before comparefn x previous.
Proof.
  intros Hswo. revert previous. induction rest as [|current rest IH];
    intros previous Hp Hsub x Hx; cbn [run_extent] in Hx.
  - rewrite take_nil in Hx. apply elem_of_nil in Hx. contradiction.
  - assert (Hc : current ∈ l) by (apply Hsub; left).
    destruct (negative (comparefn current previous)) eqn:E.
    + rewrite take_0 in Hx. apply elem_of_nil in Hx. contradiction.
    + cbn [take] in Hx. apply elem_of_cons in Hx as [->|Hx].
      * unfold before. rewrite E. discriminate.
      * assert (Hxl : x ∈ l).
        { apply Hsub. right. apply elem_of_take in Hx as (i & Hi & _).
          eapply list_elem_of_lookup_2; exact Hi. }
        apply (not_before_trans l previous current x); auto.
        -- unfold before. rewrite E. discriminate.
        -- apply IH; auto. intros y Hy. apply Hsub. right. exact Hy.
Qed.

(** In a strictly descending run the last element comes before comparefn every
    other one. *)
Lemma descending_run l previous rest :
  strict_weak_on comparefn l -> previous ∈ l -> (forall x, x ∈ rest -> x ∈ l) ->
  let run := previous :: take (run_extent comparefn true previous rest) rest in
  forall z, last run = Some z ->
  forall j x, run !! j = Some x -> (S j < length run)%nat -> before comparefn z x.
Proof.
  intros Hswo. revert previous. induction rest as [|current rest IH];
    intros previous Hp Hsub run z Hz j x Hj Hlen; unfold run in *; cbn [run_extent] in *.
  - rewrite take_nil in Hlen. cbn in Hlen. lia.
  - assert (Hc : current ∈ l) by (apply Hsub; left).
    destruct (negative (comparefn current previous)) eqn:E.
    2:{ rewrite take_0 in Hlen. cbn in Hlen. lia. }
    cbn [take] in *.
    set (run' := current :: take (run_extent comparefn true current rest) rest) in *.
    assert (Hsub' : forall y, y ∈ rest -> y ∈ l) by (intros y Hy; apply Hsub; right; exact Hy).
    assert (Hz' : last run' = Some z) by exact Hz.
    assert (Hzl : z ∈ l).
    { apply last_Some_elem_of in Hz'. unfold run' in Hz'.
      apply elem_of_cons in Hz' as [->|Hz']; [exact Hc|].
      apply Hsub'. apply elem_of_take in Hz' as (i & Hi & _).
      eapply list_elem_of_lookup_2; exact Hi. }
    destruct j as [|j].
    + cbn in Hj. injection Hj as <-.
      destruct (decide (length run' = 1%nat)) as [H1|H1].
      * unfold run' in H1, Hz'. cbn in H1.
        destruct (take _ rest); [|cbn in H1; lia].
        cbn in Hz'. injection Hz' as <-. exact E.
      * apply (before_trans l z current previous); auto.
        apply (IH current Hc Hsub' z Hz' 0%nat current); [reflexivity|].
        fold run'.
        assert (Hpos : (1 <= length run')%nat) by (unfold run'; cbn [length]; lia).
        lia.
    + apply (IH current Hc Hsub' z Hz' j x); [exact Hj|].
      unfold run' in Hlen. cbn [length] in Hlen |- *. lia.
Qed.

(** The head of the sorted array is the least element, and of several
    least ones the earliest in the array. *)
Theorem sort_head_is_stable_min (arr : list A) :
  arr <> [] -> strict_weak_on comparefn arr ->
  exists h, head (sort comparefn arr) = Some h /\ stable_min comparefn arr h.
Proof.
  intros Hne Hswo. destruct arr as [|x0 [|x1 rest]]; [contradiction| |].
  - exists x0. split; [reflexivity|]. exists 0%nat. split; [reflexivity|]. split.
    + intros x Hx. apply list_elem_of_singleton in Hx as ->.
      intros Hb. exact (proj1 Hswo x0 x0 ltac:(left) ltac:(left) Hb Hb).
    + intros; lia.
  - unfold sort. cbv zeta.
    set (d := negative (comparefn x1 x0)).
    set (k := run_extent comparefn d x1 rest).
    set (l := x0 :: x1 :: rest) in *.
    assert (H0 : x0 ∈ l) by left.
    assert (Htl : forall x, x ∈ x1 :: rest -> x ∈ l) by (intros x Hx; right; exact Hx).
    assert (Ek : run_extent comparefn d x0 (x1 :: rest) = S k).
    { cbn [run_extent]. fold d. unfold k. destruct d; reflexivity. }
    assert (Erun : take (2 + k) l = x0 :: take (run_extent comparefn d x0 (x1 :: rest)) (x1 :: rest)).
    { rewrite Ek. reflexivity. }
    rewrite Erun.
    set (run := x0 :: take (run_extent comparefn d x0 (x1 :: rest)) (x1 :: rest)) in *.
    assert (Hsplit : run ++ drop (2 + k) l = l).
    { rewrite <- Erun. apply take_drop. }
    assert (Hrunl : forall x, x ∈ run -> x ∈ l).
    { intros x Hx. rewrite <- Hsplit. apply elem_of_app. left. exact Hx. }
    destruct d eqn:Ed.
    + (* a descending run, reversed *)
      destruct (last run) as [z|] eqn:Ez; [|apply last_None in Ez; discriminate].
      destruct (fold_binary_insert_head (drop (2 + k) l) (reverse run) run z) as (h & Hh & Hmin).
      * rewrite Hsplit. exact Hswo.
      * rewrite head_reverse. exact Ez.
      * intros x Hx. rewrite elem_of_reverse in Hx. exact Hx.
      * pose proof (descending_run l x0 (x1 :: rest) Hswo H0 Htl z Ez) as Hd.
        fold run in Hd.
        exists (pred (length run)). split; [|split].
        -- rewrite last_lookup in Ez. exact Ez.
        -- intros x Hx Hb. apply list_elem_of_lookup_1 in Hx as [j Hj].
           assert (Hz : z ∈ l) by (apply Hrunl; eapply last_Some_elem_of; exact Ez).
           assert (Hxl : x ∈ l) by (apply Hrunl; eapply list_elem_of_lookup_2; exact Hj).
           destruct (decide (S j < length run)%nat) as [Hlt|Hge].
           ++ exact (proj1 Hswo z x Hz Hxl (Hd j x Hj Hlt) Hb).
           ++ apply lookup_lt_Some in Hj as Hjl.
              assert (j = pred (length run)) as -> by lia.
              rewrite last_lookup in Ez. rewrite Ez in Hj. injection Hj as <-.
              exact (proj1 Hswo z z Hz Hz Hb Hb).
        -- intros j x Hj Hnb. destruct (decide (S j < length run)%nat) as [Hlt|Hge]; [|lia].
           exfalso. exact (Hnb (Hd j x Hj Hlt)).
      * exists h. rewrite Hsplit in Hmin. split; assumption.
    + (* a non-descending run *)
      destruct (fold_binary_insert_head (drop (2 + k) l) run run x0) as (h & Hh & Hmin).
      * rewrite Hsplit. exact Hswo.
      * reflexivity.
      * auto.
      * exists 0%nat. split; [reflexivity|]. split; [|intros; lia].
        intros x Hx. unfold run in Hx. apply elem_of_cons in Hx as [->|Hx].
        -- intros Hb. exact (proj1 Hswo x0 x0 H0 H0 Hb Hb).
        -- apply (ascending_run l x0 (x1 :: rest) Hswo H0 Htl x Hx).
      * exists h. rewrite Hsplit in Hmin. split; assumption.
Qed.

End SortHead.

(** ** Picking the first visible element *)

Lemma negative_true (q : Q) : negative q = true <-> (q < 0)%Q.
Proof.
  unfold negative. rewrite negb_true_iff. split.
  - intros H. apply Qnot_le_lt. intros Hle. apply Qle_bool_iff in Hle. congruence.
  - intros H. destruct (Qle_bool 0 q) eqn:E; [|reflexivity].
    apply Qle_bool_iff in E. lra.
Qed.

Lemma onPixelGrid_units (q : Q) :
  onPixelGrid q = true ->
  exists k, (Z.abs k <= 67108864)%Z /\ (q == inject_Z k / 2 ^ 6)%Q.
Proof.
  unfold onPixelGrid. intros H. apply andb_true_iff in H as [H1 H2].
  apply Qeq_bool_iff in H1. apply Z.leb_le in H2.
  exists (Qfloor (q * 64)). split; [exact H2|].
  rewrite H1. change (2 ^ 6)%Q with 64%Q. field.
Qed.

Lemma roundDouble_exactly (k j : Z) (q : Q) :
  (Z.abs k < 9007199254740992)%Z -> (0 <= j <= 1022)%Z ->
  (q == inject_Z k / 2 ^ j)%Q -> (roundDouble q == inject_Z k / 2 ^ j)%Q.
Proof.
  intros Hk Hj Hq. rewrite (roundDouble_dyadic k j q Hk Hj Hq). exact Hq.
Qed.

(** On the grid no operation of the comparator rounds: its result is
    the difference of the keys plus the count. *)
Lemma compareEls_on_grid (n : nat) (a b : VisibleEl) :
  placedOnGrid a -> placedOnGrid b -> (Z.of_nat n <= 1000000)%Z ->
  (compareEls n a b == compositeKey a - compositeKey b + inject_Z (Z.of_nat n))%Q.
Proof.
  intros [Hta Hla] [Htb Hlb] Hn.
  apply onPixelGrid_units in Hta as (ta & Bta & Eta).
  apply onPixelGrid_units in Hla as (la & Bla & Ela).
  apply onPixelGrid_units in Htb as (tb & Btb & Etb).
  apply onPixelGrid_units in Hlb as (lb & Blb & Elb).
  unfold compareEls, number_add, number_mul, number_sub, compositeKey.
  set (TA := rect_top (rect a)) in *. set (TB := rect_top (rect b)) in *.
  set (LA := rect_left (rect a)) in *. set (LB := rect_left (rect b)) in *.
  set (N := Z.of_nat n).
  assert (HN : (0 <= N <= 1000000)%Z) by (unfold N; lia).
  change (2 ^ 6)%Q with 64%Q in *.
  assert (S1 : (roundDouble (TA - TB) == inject_Z (ta - tb) / 2 ^ 6)%Q).
  { apply roundDouble_exactly; [lia | lia |].
    rewrite Eta, Etb. unfold Z.sub. rewrite inject_Z_plus, inject_Z_opp.
    change (2 ^ 6)%Q with 64%Q. field. }
  assert (M1 : (roundDouble (roundDouble (TA - TB) * 1000000)
                == inject_Z ((ta - tb) * 15625) / 2 ^ 0)%Q).
  { apply roundDouble_exactly; [lia | lia |].
    rewrite S1, inject_Z_mult. change (2 ^ 6)%Q with 64%Q. change (2 ^ 0)%Q with 1%Q.
    change (inject_Z 15625) with 15625%Q. field. }
  assert (S2 : (roundDouble (LA - LB) == inject_Z (la - lb) / 2 ^ 6)%Q).
  { apply roundDouble_exactly; [lia | lia |].
    rewrite Ela, Elb. unfold Z.sub. rewrite inject_Z_plus, inject_Z_opp.
    change (2 ^ 6)%Q with 64%Q. field. }
  assert (M2 : (roundDouble (roundDouble (LA - LB) * 100)
                == inject_Z ((la - lb) * 25) / 2 ^ 4)%Q).
  { apply roundDouble_exactly; [lia | lia |].
    rewrite S2, inject_Z_mult. change (2 ^ 6)%Q with 64%Q. change (2 ^ 4)%Q with 16%Q.
    change (inject_Z 25) with 25%Q. field. }
  assert (A1 : (roundDouble (roundDouble (roundDouble (TA - TB) * 1000000)
                             + roundDouble (roundDouble (LA - LB) * 100))
                == inject_Z ((ta - tb) * 250000 + (la - lb) * 25) / 2 ^ 4)%Q).
  { apply roundDouble_exactly; [lia | lia |].
    rewrite M1, M2, inject_Z_plus, !inject_Z_mult.
    change (2 ^ 0)%Q with 1%Q. change (2 ^ 4)%Q with 16%Q.
    change (inject_Z 15625) with 15625%Q. change (inject_Z 25) with 25%Q.
    change (inject_Z 250000) with 250000%Q. field. }
  rewrite (roundDouble_exactly ((ta - tb) * 250000 + (la - lb) * 25 + 16 * N) 4);
    [ | lia | lia | ].
  - rewrite Eta, Etb, Ela, Elb. unfold Z.sub.
    rewrite !inject_Z_plus, !inject_Z_mult, !inject_Z_plus, !inject_Z_opp.
    change (2 ^ 4)%Q with 16%Q.
    change (inject_Z 25) with 25%Q. change (inject_Z 250000) with 250000%Q.
    change (inject_Z 16) with 16%Q. field.
  - rewrite A1, !inject_Z_plus, !inject_Z_mult.
    change (2 ^ 4)%Q with 16%Q.
    change (inject_Z 25) with 25%Q. change (inject_Z 250000) with 250000%Q.
    change (inject_Z 16) with 16%Q. field.
Qed.

Lemma before_compareEls (n : nat) (a b : VisibleEl) :
  placedOnGrid a -> placedOnGrid b -> (Z.of_nat n <= 1000000)%Z ->
  apart n a b ->
  before (compareEls n) a b <-> (compositeKey a < compositeKey b)%Q.
Proof.
  intros Ga Gb Hn1 Hap. unfold before.
  rewrite (negative_comp _ _ (compareEls_on_grid n a b Ga Gb Hn1)), negative_true.
  unfold apart in Hap.
  assert (Hn : (0 <= inject_Z (Z.of_nat n))%Q).
  { change 0%Q with (inject_Z 0). rewrite <- Zle_Qle. lia. }
  set (N := inject_Z (Z.of_nat n)) in *.
  set (ka := compositeKey a) in *. set (kb := compositeKey b) in *.
  destruct Hap as [Heq|Hfar].
  - split; intros H; lra.
  - revert Hfar. apply Qabs_case; intros Hs Hfar; split; intros H; lra.
Qed.

Lemma strict_weak_compareEls (els : list VisibleEl) :
  (forall a, a ∈ els -> placedOnGrid a) ->
  (Z.of_nat (length els) <= 1000000)%Z ->
  (forall a b, a ∈ els -> b ∈ els -> apart (length els) a b) ->
  strict_weak_on (compareEls (length els)) els.
Proof.
  intros Hg Hlen Hap. split.
  - intros a b Ha Hb Hab Hba.
    apply before_compareEls in Hab; auto. apply before_compareEls in Hba; auto. lra.
  - intros a b c Ha Hb Hc Hab.
    apply before_compareEls in Hab; auto.
    destruct (Qlt_le_dec (compositeKey a) (compositeKey c)) as [H|H].
    + left. apply before_compareEls; auto.
    + right. apply before_compareEls; auto. lra.
Qed.

Lemma compareEls_close (n : nat) (a b : VisibleEl) :
  placedOnGrid a -> placedOnGrid b -> (Z.of_nat n <= 1000000)%Z ->
  closeKeys n a b ->
  negative (compareEls n a b) = false.
Proof.
  intros Ga Gb Hn Hclose.
  rewrite (negative_comp _ _ (compareEls_on_grid n a b Ga Gb Hn)).
  apply negative_false. unfold closeKeys in Hclose.
  pose proof (Qle_Qabs (- (compositeKey a - compositeKey b))) as H1.
  rewrite Qabs_opp in H1. lra.
Qed.

Lemma apartb_apart (n : nat) (a b : VisibleEl) : apartb n a b = true -> apart n a b.
Proof.
  unfold apartb, apart. intros H. apply orb_true_iff in H as [H|H].
  - left. apply Qeq_bool_iff, H.
  - right. apply negb_true_iff in H. apply Qnot_le_lt. intros Hle.
    apply Qle_bool_iff in Hle. congruence.
Qed.

Section Visible.
Variable drv : Driver.

Lemma collectVisible_idx (parentLevel : nat) found :
  forall els0 w els w',
    (forall i e, els0 !! i = Some e -> idx e = i) ->
    collectVisible drv parentLevel found els0 w = (Ok els, w') ->
    forall i e, els !! i = Some e -> idx e = i.
Proof.
  induction found as [|[source [visRect|]] rest IH]; intros els0 w els w' H0 Hc.
  - cbn in Hc. injection Hc as <- <-. exact H0.
  - cbn [collectVisible] in Hc. unfold bind in Hc.
    destruct (nthParent drv parentLevel source w) as [[e'| |] w1]; try discriminate.
    eapply IH; [ | exact Hc ].
    intros i e Hi. apply lookup_app_Some in Hi as [Hi | [Hge Hi]].
    + apply H0; assumption.
    + apply list_lookup_singleton_Some in Hi as [Hi <-]. cbn. lia.
  - cbn [collectVisible] in Hc. eapply IH; eassumption.
Qed.

Lemma getFirstVisibleElement_run (selector : string) (parentLevel : nat) (w : World)
    (sources : list ElementHandle) (visibleRects : list (option DOMRect))
    (w1 : World) (els : list VisibleEl) (w2 : World) :
  drv_queryAll drv (trace w) (page (this w)) selector = Ok sources ->
  allTrulyVisible drv sources (emit (EvCall (CQueryAll (page (this w)) selector)) w)
    = (Ok visibleRects, w1) ->
  collectVisible drv parentLevel (zip sources visibleRects) [] w1 = (Ok els, w2) ->
  getFirstVisibleElement drv selector parentLevel w
  = (Ok (el <$> head (sort (compareEls (length els)) els)), w2).
Proof.
  intros Hq Hv Hc.
  unfold getFirstVisibleElement, bind at 1, get.
  unfold bind at 1, request at 1. rewrite Hq.
  rewrite (bind_Ok _ _ _ _ _ Hv). rewrite (bind_Ok _ _ _ _ _ Hc).
  destruct els as [|e0 els']; reflexivity.
Qed.

(** C8 (as amended).  Positions are compared as the visibility test
    reports them, not rounded.  For fewer than 64 visible matches
    whose tops and lefts lie on the grid of 1/64 pixel, and whose
    keys, top times 10^6 plus left times 100, are equal or differ by
    more than their number: the element returned has the least key,
    and of those with that key it is the one inserted first, every
    entry carrying its place in the order of insertion as its index.
    Where the tops are whole pixels and the lefts lie between 0 and
    10^4, the least key is the topmost row's leftmost position. *)
Theorem getFirstVisibleElement_picks_least_key
    (selector : string) (parentLevel : nat) (w : World)
    (sources : list ElementHandle) (visibleRects : list (option DOMRect))
    (w1 : World) (els : list VisibleEl) (w2 : World) :
  drv_queryAll drv (trace w) (page (this w)) selector = Ok sources ->
  allTrulyVisible drv sources (emit (EvCall (CQueryAll (page (this w)) selector)) w)
    = (Ok visibleRects, w1) ->
  collectVisible drv parentLevel (zip sources visibleRects) [] w1 = (Ok els, w2) ->
  els <> [] ->
  (length els < 64)%nat ->
  (forall a, a ∈ els -> placedOnGrid a) ->
  (forall a b, a ∈ els -> b ∈ els -> apart (length els) a b) ->
  exists h,
    h ∈ els /\
    getFirstVisibleElement drv selector parentLevel w = (Ok (Some (el h)), w2) /\
    (forall i e, els !! i = Some e -> idx e = i) /\
    (forall x, x ∈ els -> (compositeKey h <= compositeKey x)%Q) /\
    (forall x, x ∈ els -> (compositeKey x == compositeKey h)%Q -> (idx h <= idx x)%nat) /\
    ((forall x, x ∈ els -> inWholeRows x) ->
     forall x, x ∈ els ->
       (rect_top (rect h) < rect_top (rect x))%Q \/
       ((rect_top (rect h) == rect_top (rect x))%Q /\
        (rect_left (rect h) <= rect_left (rect x))%Q)).
Proof.
  intros Hq Hv Hc Hne Hlen Hg Hap.
  assert (Hlen' : (Z.of_nat (length els) <= 1000000)%Z) by lia.
  destruct (sort_head_is_stable_min (compareEls (length els)) els Hne
              (strict_weak_compareEls els Hg Hlen' Hap))
    as (h & Hh & i & Hi & Hleast & Hfirst).
  assert (Hidx : forall i e, els !! i = Some e -> idx e = i).
  { eapply collectVisible_idx; [ | exact Hc ]. intros j e Hj. discriminate. }
  assert (Hhin : h ∈ els) by (eapply list_elem_of_lookup_2; exact Hi).
  assert (Hkey : forall x, x ∈ els -> (compositeKey h <= compositeKey x)%Q).
  { intros x Hx. specialize (Hleast x Hx).
    rewrite before_compareEls in Hleast by auto. lra. }
  exists h. split; [exact Hhin|]. split; [|split; [exact Hidx|split; [exact Hkey|split]]].
  - rewrite (getFirstVisibleElement_run _ _ _ _ _ _ _ _ Hq Hv Hc), Hh. reflexivity.
  - intros x Hx Heq. apply list_elem_of_lookup_1 in Hx as Hj. destruct Hj as [j Hj].
    rewrite (Hidx _ _ Hi), (Hidx _ _ Hj). apply (Hfirst j x Hj).
    rewrite before_compareEls by auto. lra.
  - intros Hrows x Hx. specialize (Hkey x Hx).
    destruct (Hrows h Hhin) as ((zh & Ezh) & Hlh). destruct (Hrows x Hx) as ((zx & Ezx) & Hlx).
    unfold compositeKey in Hkey. rewrite Ezh, Ezx in Hkey.
    destruct (Z_lt_le_dec zh zx) as [Hlt|Hge].
    + left. rewrite Ezh, Ezx, <- Zlt_Qlt. exact Hlt.
    + assert (Hz : (zh < zx + 1)%Z).
      { rewrite Zlt_Qlt, inject_Z_plus. change (inject_Z 1) with 1%Q. lra. }
      assert (zh = zx) as -> by lia.
      right. split; [rewrite Ezh, Ezx; reflexivity | lra].
Qed.

(** As long as the keys of the visible matches lie no further apart
    than the matches are many, nothing is reordered: the comparator
    adds that number to every difference and is never negative, so the
    first match of the query is returned, whether or not a later one
    lies higher or further left. *)
Theorem getFirstVisibleElement_keeps_order_of_close_keys
    (selector : string) (parentLevel : nat) (w : World)
    (sources : list ElementHandle) (visibleRects : list (option DOMRect))
    (w1 : World) (els : list VisibleEl) (w2 : World) :
  drv_queryAll drv (trace w) (page (this w)) selector = Ok sources ->
  allTrulyVisible drv sources (emit (EvCall (CQueryAll (page (this w)) selector)) w)
    = (Ok visibleRects, w1) ->
  collectVisible drv parentLevel (zip sources visibleRects) [] w1 = (Ok els, w2) ->
  (Z.of_nat (length els) <= 1000000)%Z ->
  (forall a, a ∈ els -> placedOnGrid a) ->
  (forall a b, a ∈ els -> b ∈ els -> closeKeys (length els) a b) ->
  sort (compareEls (length els)) els = els /\
  getFirstVisibleElement drv selector parentLevel w = (Ok (el <$> head els), w2) /\
  (forall first, head els = Some first ->
     idx first = 0%nat /\ forall other, other ∈ els -> (idx first <= idx other)%nat).
Proof.
  intros Hq Hv Hc Hlen Hg Hclose.
  assert (Hidx : forall i e, els !! i = Some e -> idx e = i).
  { eapply collectVisible_idx; [ | exact Hc ]. intros i e Hi. discriminate. }
  assert (Hsort : sort (compareEls (length els)) els = els).
  { apply sort_single_run. intros a b Ha Hb. apply compareEls_close; auto. }
  split; [exact Hsort|]. split.
  - rewrite (getFirstVisibleElement_run _ _ _ _ _ _ _ _ Hq Hv Hc), Hsort. reflexivity.
  - intros first Hf. rewrite head_lookup in Hf.
    rewrite (Hidx _ _ Hf). split; [reflexivity | lia].
Qed.

End Visible.

(** ** Typing *)

Lemma emitAll_emitAll evs1 evs2 w :
  emitAll evs2 (emitAll evs1 w) = emitAll (evs1 ++ evs2) w.
Proof. unfold emitAll; cbn. rewrite <- app_assoc. reflexivity. Qed.

Lemma emitAll_nil w : emitAll [] w = w.
Proof. unfold emitAll. rewrite app_nil_r. destruct w; reflexivity. Qed.

Section Typing.
Variable drv : Driver.
Hypothesis keyboard_works : forall t c, keyboardCall c -> drv_unit drv t c = Ok tt.

Lemma keyboard_run c w :
  keyboardCall c -> keyboard drv c w = (Ok tt, emitAll [EvCall c] w).
Proof. intros H. unfold keyboard, request. rewrite keyboard_works by exact H. reflexivity. Qed.

Lemma keyboard_then {B} c (k : unit -> M B) w :
  keyboardCall c -> bind (keyboard drv c) k w = k tt (emitAll [EvCall c] w).
Proof. intros H. apply bind_Ok, keyboard_run, H. Qed.

Lemma typeLine_run p delay line w :
  typeLine drv p delay line w =
  (Ok tt, emitAll (map EvCall (typedLine p delay line ++ softLineBreak p)) w).
Proof.
  unfold typeLine, typedLine.
  destruct (truthy_string (trimEnd line)).
  - rewrite !keyboard_then by exact I.
    rewrite keyboard_run by exact I.
    rewrite !emitAll_emitAll. reflexivity.
  - unfold bind at 1, ret.
    rewrite !keyboard_then by exact I.
    rewrite keyboard_run by exact I.
    rewrite !emitAll_emitAll. reflexivity.
Qed.

Lemma typeLines_run p delay lines w :
  typeLines drv p delay lines w =
  (Ok tt,
   emitAll (map EvCall
              (concat (map (fun line => typedLine p delay line ++ softLineBreak p) lines))) w).
Proof.
  revert w. induction lines as [|line rest IH]; intros w.
  - cbn. rewrite emitAll_nil. reflexivity.
  - cbn [typeLines]. rewrite (bind_Ok _ _ _ _ _ (typeLine_run p delay line w)).
    rewrite IH, emitAll_emitAll. cbn [map concat].
    rewrite <- map_app. reflexivity.
Qed.

(** C9 (as amended).  In multi-line mode, on a keyboard that works,
    once the element has the focus: the text is split at its newlines,
    each line loses its trailing white space and is typed unless
    nothing is left of it, and every line, the last one and blank ones
    included, is followed by ENTER with SHIFT held; a plain ENTER comes
    after all that when (and only when) [pressReturnAtEnd] is set.
    Nothing else is asked of the driver between the two status updates,
    and what remains is the wait afterwards. *)
Theorem typeInElement_multi_line (fuel : nat) (e : ElementHandle) (text : string)
    (options : TypeOptions) (w w1 : World) :
  truthy_flag (multiLinedShiftReturn options) = true ->
  typeInElement_focus drv fuel e options w = (Ok tt, w1) ->
  let p := page (this w1) in
  let delay := if default true (type_slowTyping options) then 5%Z else 0%Z in
  let keys := keysAfterEachLine p delay text
              ++ (if truthy_flag (pressReturnAtEnd options)
                  then [CKeyboardPress p Enter] else []) in
  let typing := "Typing " +:+ string_of_Z (Z.of_nat (String.length text)) +:+ " characters" in
  exists w2,
    typeInElement_type drv text options w1 = (Ok tt, w2) /\
    trace w2 = trace w1
               ++ [EvStatus (pushedOn (statusStack (this w1)) typing)]
               ++ map EvCall keys
               ++ [EvStatus (default "" (last (statusStack (this w1))))] /\
    this w2 = this w1 /\
    browser w2 = browser w1 /\
    typeInElement drv fuel e text options w = typeInElement_wait drv options w2.
Proof.
  intros Hml Hfocus p delay keys typing.
  assert (Htype : typeInElement_type drv text options w1 =
    (Ok tt,
     emitAll ([EvStatus (pushedOn (statusStack (this w1)) typing)]
              ++ map EvCall keys
              ++ [EvStatus (default "" (last (statusStack (this w1))))]) w1)).
  { unfold typeInElement_type. fold typing. fold delay.
    unfold bind at 1. rewrite statusPush_run.
    unfold bind at 1, get. cbn [with_this emit this page set_statusStack]. fold p.
    rewrite Hml.
    unfold bind at 1. rewrite typeLines_run.
    unfold keys, keysAfterEachLine.
    destruct (truthy_flag (pressReturnAtEnd options)).
    - rewrite keyboard_then by exact I.
      rewrite statusPop_run.
      unfold emitAll, emit, with_this, set_statusStack; cbn.
      rewrite removelast_last, map_app, <- !app_assoc.
      destruct w1 as [b [pg c s f] t]; reflexivity.
    - unfold bind at 1, ret. rewrite statusPop_run.
      unfold emitAll, emit, with_this, set_statusStack; cbn.
      rewrite removelast_last, app_nil_r, <- !app_assoc.
      destruct w1 as [b [pg c s f] t]; reflexivity. }
  eexists. split; [exact Htype|].
  repeat split.
  unfold typeInElement. rewrite (bind_Ok _ _ _ _ _ Hfocus).
  rewrite (bind_Ok _ _ _ _ _ Htype). reflexivity.
Qed.

End Typing.

Section Waiting.
Variable drv : Driver.

(** C7 (as amended).  In background mode the delay is handed to
    [runInBackground]: it runs as it is in a session that does not
    hold the token, and between the release and the new acquisition in
    one that does.  In foreground mode, or with no mode given, the
    delay runs where the session stands, through neither
    [runInForeground] nor [runInBackground]: nothing is acquired or
    released, so the token is held during the delay only if it was
    held before.  Any [ms] will do; [yield] is [wait(0, "background")]. *)
Theorem wait_runs_here_or_in_background (ms : Z) (w : World) :
  wait drv ms (Some background) w
    = runInBackground drv (wait_f ms (Some background)) w /\
  (forall waitIn, waitIn <> Some background ->
     wait drv ms waitIn w = (Ok tt, delayed ms waitIn w)) /\
  (forall waitIn,
     this (delayed ms waitIn w) = this w /\
     browser (delayed ms waitIn w) = browser w /\
     calls (trace (delayed ms waitIn w)) = calls (trace w) /\
     exists startMsg endMsg,
       trace (delayed ms waitIn w)
       = trace w ++ [EvStatus startMsg; EvSetTimeout ms; EvStatus endMsg]) /\
  (inForeground (this w) = false ->
     wait drv ms (Some background) w = (Ok tt, delayed ms (Some background) w)) /\
  (inForeground (this w) = true ->
     wait drv ms (Some background) w
       = (acquireActivePage drv;; ret tt)%js (delayed ms (Some background) (released w))) /\
  yield drv w = wait drv 0 (Some background) w.
Proof.
  split; [reflexivity|].
  split.
  { intros waitIn H. destruct waitIn as [[]|]; try congruence; apply wait_f_run. }
  split.
  { intros waitIn. repeat split.
    - unfold delayed, emit, calls; cbn. rewrite <- !app_assoc, omap_app. cbn.
      apply app_nil_r.
    - do 2 eexists. unfold delayed, emit; cbn. rewrite <- !app_assoc. reflexivity. }
  split.
  { intros H. unfold wait. rewrite runInBackground_not_holding by exact H.
    apply wait_f_run. }
  split; [|reflexivity].
  intros H. unfold wait.
  apply runInBackground_returns; [exact H | apply wait_f_run].
Qed.

End Waiting.

(** * The status stack across the operations *)

Lemma insert_last_removelast {A} (l : list A) (x : A) :
  l <> [] -> <[pred (length l) := x]> l = removelast l ++ [x].
Proof.
  intros H. destruct l as [|a l'] using rev_ind; [contradiction|].
  rewrite removelast_last, length_app. cbn [length].
  replace (pred (length l' + 1)) with (length l' + 0)%nat by lia.
  rewrite insert_app_r. reflexivity.
Qed.

Lemma status_run_stack (msg : string) (w : World) :
  exists w',
    status msg w = (Ok tt, w') /\
    statusStack (this w') = removelast (statusStack (this w)) ++ [msg] /\
    trace w' = trace w ++ [EvStatus msg] /\
    browser w' = browser w /\
    inForeground (this w') = inForeground (this w).
Proof.
  unfold status, bind, get. cbn match.
  destruct (statusStack (this w)) as [|a l] eqn:E.
  - rewrite statusPush_run. eexists. split; [reflexivity|].
    rewrite E. cbn. repeat split; reflexivity.
  - eexists. split; [reflexivity|]. cbn. rewrite E.
    rewrite insert_last_removelast by discriminate.
    repeat split; reflexivity.
Qed.

(** [status] publishes the message as it is and puts it in the place of
    the top entry; only on an empty stack does the stack grow.  Unlike
    [statusPush] it never prefixes the message with the entry below. *)
Theorem status_replaces_top (msg : string) (w : World) :
  exists w',
    status msg w = (Ok tt, w') /\
    statusStack (this w') = removelast (statusStack (this w)) ++ [msg] /\
    length (statusStack (this w')) = Nat.max 1 (length (statusStack (this w))) /\
    trace w' = trace w ++ [EvStatus msg] /\
    browser w' = browser w /\
    inForeground (this w') = inForeground (this w).
Proof.
  destruct (status_run_stack msg w) as (w' & Hrun & Hstack & Htrace & Hbrowser & Hfg).
  exists w'. repeat split; try assumption.
  rewrite Hstack, length_app. cbn [length].
  destruct (statusStack (this w)) as [|a l] using rev_ind; [reflexivity|].
  rewrite removelast_last, length_app. cbn [length]. lia.
Qed.

Section StatusFrame.
Variable drv : Driver.

Lemma keeps_ret {A} (a : A) : keepsStatusStack (ret a).
Proof. intros w r w' [= <- <-] _. reflexivity. Qed.

Lemma keeps_throw {A} (e : Err) : keepsStatusStack (throw e : M A).
Proof. intros w r w' [= <- <-] _. reflexivity. Qed.

Lemma keeps_get {A} (f : World -> A) : keepsStatusStack (get f).
Proof. intros w r w' [= <- <-] _. reflexivity. Qed.

Lemma keeps_request {A} (c : Call) (answer : list Event -> Outcome A) :
  keepsStatusStack (request c answer).
Proof. intros w r w' [= <- <-] _. reflexivity. Qed.

Lemma keeps_bind {A B} (m : M A) (k : A -> M B) :
  keepsStatusStack m -> (forall a, keepsStatusStack (k a)) ->
  keepsStatusStack (bind m k).
Proof.
  intros Hm Hk w r w' H Hr. unfold bind in H.
  destruct (m w) as [[a|e|] w1] eqn:E.
  - rewrite (Hk a _ _ _ H Hr). apply (Hm _ _ _ E). discriminate.
  - injection H as <- <-. apply (Hm _ _ _ E). discriminate.
  - injection H as <- <-. contradiction.
Qed.

Lemma keeps_acquireActivePage : keepsStatusStack (acquireActivePage drv).
Proof.
  intros w r w' H Hr.
  destruct (isLocked (activePageMutex (browser w))) eqn:E.
  - apply (acquireActivePage_locked drv) in E. rewrite H in E. cbn in E. contradiction.
  - rewrite (acquireActivePage_free drv w E) in H. injection H as <- <-. reflexivity.
Qed.

Lemma keeps_releaseActivePage : keepsStatusStack releaseActivePage.
Proof. intros w r w' [= <- <-] _. reflexivity. Qed.

Lemma keeps_wait_f ms waitIn : keepsStatusStack (wait_f ms waitIn).
Proof.
  intros w r w' H _. rewrite wait_f_run in H. injection H as <- <-. reflexivity.
Qed.

Lemma keeps_runInBackground {T} (fn : M T) :
  keepsStatusStack fn -> keepsStatusStack (runInBackground drv fn).
Proof.
  intros Hfn. unfold runInBackground.
  apply keeps_bind; [apply keeps_get|]. intros fg.
  destruct fg; cbn [negb]; [|exact Hfn].
  apply keeps_bind; [apply keeps_releaseActivePage|]. intros _.
  apply keeps_bind; [exact Hfn|]. intros r.
  apply keeps_bind; [apply keeps_acquireActivePage|]. intros _.
  apply keeps_ret.
Qed.

Lemma keeps_try_finally_release {T} (fn : M T) :
  keepsStatusStack fn -> keepsStatusStack (try_finally fn releaseActivePage).
Proof.
  intros Hfn w r w' H Hr. unfold try_finally in H.
  destruct (fn w) as [[a|e|] w1] eqn:E; rewrite ?releaseActivePage_run in H;
    injection H as <- <-; try contradiction;
    cbn; apply (Hfn _ _ _ E); discriminate.
Qed.

(** A foreground section leaves the status stack as the job leaves it:
    the entry pushed while waiting for the mutex has been popped again
    when the job starts, and also when [bringToFront] rejects. *)
Theorem runInForeground_keeps_statusStack {T} (fn : M T) :
  keepsStatusStack fn -> keepsStatusStack (runInForeground drv fn).
Proof.
  intros Hfn. unfold runInForeground.
  apply keeps_bind; [apply keeps_get|]. intros fg.
  destruct fg; [exact Hfn|].
  apply keeps_bind; [apply keeps_acquireActivePage|]. intros _.
  apply keeps_try_finally_release, Hfn.
Qed.

Lemma keeps_wait ms waitIn : keepsStatusStack (wait drv ms waitIn).
Proof.
  unfold wait. destruct waitIn as [[]|]; try apply keeps_wait_f.
  apply keeps_runInBackground, keeps_wait_f.
Qed.

Lemma keeps_isTrulyVisible e : keepsStatusStack (isTrulyVisible drv e).
Proof. destruct e; [apply keeps_request | apply keeps_ret]. Qed.

Lemma keeps_firstTrulyVisible hs : keepsStatusStack (firstTrulyVisible drv hs).
Proof.
  induction hs as [|h rest IH]; cbn [firstTrulyVisible]; [apply keeps_ret|].
  apply keeps_bind; [apply keeps_isTrulyVisible|].
  intros [r|]; [apply keeps_ret | exact IH].
Qed.

Lemma keeps_getSelectorImmediate selector visible :
  keepsStatusStack (getSelectorImmediate drv selector visible).
Proof.
  unfold getSelectorImmediate. apply keeps_bind; [apply keeps_get|]. intros p.
  destruct (truthy_flag visible); [|apply keeps_request].
  apply keeps_bind; [apply keeps_request | apply keeps_firstTrulyVisible].
Qed.

Lemma keeps_nativeWait selector options :
  keepsStatusStack (nativeWait drv selector options).
Proof.
  unfold nativeWait. apply keeps_bind; [apply keeps_get|]. intros p. cbv zeta.
  destruct (sel_waitIn options) as [[]|]; try apply keeps_request.
  apply keeps_runInBackground, keeps_request.
Qed.

(** Whenever [waitForSelector] returns or throws, the status stack is
    what it was before: the entry pushed for the wait has been popped,
    whether the native wait found something, timed out or failed, and
    whether it ran in the foreground or in the background. *)
Theorem waitForSelector_keeps_statusStack (selector : string) (options : SelectorOptions)
    (w : World) (r : Outcome (option ElementHandle)) (w' : World) :
  waitForSelector drv selector options w = (r, w') ->
  r <> Pending ->
  statusStack (this w') = statusStack (this w).
Proof.
  intros H Hr. unfold waitForSelector in H.
  unfold bind at 1 in H.
  destruct (getSelectorImmediate drv selector (sel_visible options) w)
    as [[found|e|] w0] eqn:E0.
  2: { injection H as <- <-. eapply keeps_getSelectorImmediate; [exact E0|discriminate]. }
  2: { injection H as <- <-. contradiction. }
  assert (H0 : statusStack (this w0) = statusStack (this w)).
  { eapply keeps_getSelectorImmediate; [exact E0|discriminate]. }
  destruct found as [h|]; [injection H as <- <-; exact H0|].
  destruct (negb (truthy_number (sel_timeoutMs options)));
    [injection H as <- <-; exact H0|].
  unfold bind at 1 in H. rewrite statusPush_run in H.
  set (w1 := with_this _ _) in H.
  pose proof (guarded_wait_outcome drv selector options w1) as G. cbv zeta in G.
  destruct (nativeWait drv selector options w1) as [[res|e|] w2] eqn:E2.
  - assert (H2 : statusStack (this w2) = statusStack (this w1)).
    { eapply keeps_nativeWait; [exact E2|discriminate]. }
    rewrite (bind_Ok _ _ _ _ _ G) in H. rewrite statusPop_run in H. cbn [snd] in H.
    set (w3 := emit _ _) in H.
    assert (H3 : statusStack (this w3) = statusStack (this w)).
    { unfold w3. cbn. rewrite H2. unfold w1. cbn. rewrite removelast_last. exact H0. }
    destruct res as [h|].
    + destruct (negb (truthy_flag (sel_visible options))).
      * injection H as <- <-. exact H3.
      * rewrite <- H3. eapply keeps_getSelectorImmediate; eassumption.
    + injection H as <- <-. exact H3.
  - assert (H2 : statusStack (this w2) = statusStack (this w1)).
    { eapply keeps_nativeWait; [exact E2|discriminate]. }
    rewrite (bind_Ok _ _ _ _ _ G) in H. rewrite statusPop_run in H. cbn [snd] in H.
    injection H as <- <-. cbn. rewrite H2. unfold w1. cbn.
    rewrite removelast_last. exact H0.
  - rewrite (bind_Pending _ _ _ _ G) in H. injection H as <- <-. contradiction.
Qed.

(** [goto] never pops what it publishes: once it has returned or
    thrown, the top of the status stack is the navigation message, in
    the place of the former top entry, whether the navigation worked
    or not. *)
Theorem goto_leaves_navigation_status (u : string) (options : GoOptions)
    (w : World) (r : Outcome unit) (w' : World) :
  goto drv u options w = (r, w') ->
  r <> Pending ->
  statusStack (this w') = removelast (statusStack (this w)) ++ ["Navigating to " +:+ u].
Proof.
  intros H Hr. unfold goto in H.
  destruct (status_run_stack ("Navigating to " +:+ u) w) as (ws & Hs & Hstack & _).
  rewrite (bind_Ok _ _ _ _ _ Hs) in H. rewrite <- Hstack.
  revert H. generalize ws. intros w0 H.
  assert (K : keepsStatusStack
    (p <- get (fun w => page (this w));;
     request (CGoto p u (default 20000%Z (go_timeoutMs options))
                        (default "load" (go_waitUntil options)))
       (fun h => drv_unit drv h (CGoto p u (default 20000%Z (go_timeoutMs options))
                        (default "load" (go_waitUntil options))));;
     match go_waitAfterMs options with
     | Some waitAfterMs =>
         if (0 <? waitAfterMs)%Z then wait drv waitAfterMs (Some background) else ret tt
     | None => ret tt
     end)).
  { apply keeps_bind; [apply keeps_get|]. intros p.
    apply keeps_bind; [apply keeps_request|]. intros _.
    destruct (go_waitAfterMs options) as [ms|]; [|apply keeps_ret].
    destruct (0 <? ms)%Z; [apply keeps_wait | apply keeps_ret]. }
  exact (K _ _ _ H Hr).
Qed.

End StatusFrame.

(** * Nested sections *)

Section Nesting.
Variable drv : Driver.

Lemma inForeground_acquired w : inForeground (this (acquired w)) = true.
Proof. reflexivity. Qed.

(** A foreground section inside a foreground section is the inner job
    alone: the mutex is taken once and released once, whatever the
    session and the driver. *)
Theorem runInForeground_nested {T} (fn : M T) (w : World) :
  runInForeground drv (runInForeground drv fn) w = runInForeground drv fn w.
Proof.
  destruct (inForeground (this w)) eqn:Hfg.
  - unfold runInForeground at 1. unfold bind, get. rewrite Hfg. reflexivity.
  - unfold runInForeground at 1 3. unfold bind at 1 3, get. rewrite Hfg.
    unfold bind.
    destruct (acquireActivePage drv w) as [[[]|e|] w1] eqn:Hacq; try reflexivity.
    apply acquireActivePage_Ok in Hacq as [_ ->].
    unfold try_finally.
    replace (runInForeground drv fn (acquired w)) with (fn (acquired w)); [reflexivity|].
    unfold runInForeground, bind, get. rewrite inForeground_acquired. reflexivity.
Qed.

Lemma runInBackground_holding {T} (fn : M T) w :
  inForeground (this w) = true ->
  runInBackground drv fn w = (r <- fn;; acquireActivePage drv;; ret r)%js (released w).
Proof.
  intros H. unfold runInBackground, bind at 1, get. cbn match. rewrite H. cbn [negb].
  rewrite (bind_Ok _ _ _ _ _ (releaseActivePage_run w)). reflexivity.
Qed.

(** A background section inside a background section is the inner job
    alone as well: one release, one new acquisition. *)
Theorem runInBackground_nested {T} (fn : M T) (w : World) :
  runInBackground drv (runInBackground drv fn) w = runInBackground drv fn w.
Proof.
  destruct (inForeground (this w)) eqn:Hfg.
  - rewrite !runInBackground_holding by exact Hfg.
    unfold bind at 1 3.
    rewrite (runInBackground_not_holding drv fn (released w)) by reflexivity.
    reflexivity.
  - rewrite (runInBackground_not_holding drv _ w Hfg). reflexivity.
Qed.

End Nesting.

(** * Typing into an element that cannot take the focus *)

Section Focus.
Variable drv : Driver.

(** When the element is not scrolled to and [focus] rejects,
    [typeInElement] throws that error with nothing typed, and the
    entry pushed for the focus stays on the status stack. *)
Theorem typeInElement_focus_failure (fuel : nat) (e : ElementHandle) (text : string)
    (options : TypeOptions) (w : World) (err : Err) :
  type_scrollIntoView options = Some false ->
  drv_unit drv (trace w ++ [EvStatus (pushedOn (statusStack (this w)) "Focusing")])
    (CFocus e) = Throw err ->
  exists w',
    typeInElement drv fuel e text options w = (Throw err, w') /\
    statusStack (this w')
      = statusStack (this w) ++ [pushedOn (statusStack (this w)) "Focusing"] /\
    trace w' = trace w ++ [EvStatus (pushedOn (statusStack (this w)) "Focusing");
                           EvCall (CFocus e)] /\
    browser w' = browser w /\
    inForeground (this w') = inForeground (this w).
Proof.
  intros Hscroll Hfocus. eexists. split.
  - unfold typeInElement. apply bind_Throw.
    unfold typeInElement_focus. rewrite Hscroll. cbn [default].
    rewrite (bind_Ok (ret tt) _ w tt w eq_refl).
    rewrite (bind_Ok _ _ _ _ _ (statusPush_run "Focusing" w)).
    apply bind_Throw. unfold request. cbn [trace with_this emit].
    rewrite Hfocus. reflexivity.
  - cbn. rewrite <- app_assoc. repeat split; reflexivity.
Qed.

End Focus.

(** * The browser and the pool *)

Section Browser.
Variable drv : Driver.


Lemma create_Ok_browser (w : World) (b : Browser) (w' : World) :
  create drv w = (Ok b, w') -> _browser (browser w') = Some b.
Proof.
  intros H. unfold create, bind at 1, get in H.
  destruct (_browser (browser w)) as [b0|] eqn:Hb.
  - injection H as <- <-. exact Hb.
  - unfold browserMutex_runExclusive in H.
    destruct (isLocked (browserMutex (browser w))); [discriminate|].
    unfold try_finally, bind, get, request, modify, ret in H. cbn in H.
    rewrite Hb in H.
    destruct (drv_launch drv _) as [b1|e|]; cbn in H; try discriminate.
    destruct (drv_pages drv _ b1) as [pages|e|]; cbn in H; try discriminate.
    destruct (head (availablePages (browser w) ++ pages)) as [first|];
      [destruct (headless (browser w)); cbn in H;
       [|destruct (drv_unit drv _ _) as [[]|e|]; cbn in H]|];
      try discriminate; injection H as <- <-; reflexivity.
Qed.

(** Asking for the browser a second time changes nothing: the browser
    is launched at most once, and when the first call fails or does not
    end, so does the pair in the same way. *)
Theorem create_twice (w : World) :
  (create drv;; create drv)%js w = create drv w.
Proof.
  unfold bind. destruct (create drv w) as [[b|e|] w1] eqn:H; try reflexivity.
  apply create_Ok_browser in H.
  unfold create, bind, get. rewrite H. reflexivity.
Qed.

(** A tab handed back is the next one handed out, and the manager is
    then as it was before: nothing is asked of the driver. *)
Theorem acceptClosedPage_getPage (p : Page) (w : World) :
  (acceptClosedPage p;; getPage drv)%js w = (Ok p, w).
Proof.
  rewrite (bind_Ok _ _ _ _ _ (acceptClosedPage_run p w)).
  unfold getPage, bind, availablePages_pop.
  cbn [with_browser browser set_availablePages availablePages].
  rewrite last_snoc. unfold ret, with_browser.
  cbn [browser set_availablePages availablePages this trace].
  rewrite removelast_last.
  destruct w as [[] ? ?]; reflexivity.
Qed.

(** On a manager that has no browser yet and shows its window, when
    the browser is launched and has a tab but setting the viewport
    fails: [getPage] throws that error, the manager still holds no
    browser, yet the tabs of the launched browser have gone into the
    pool.  The next [getPage] hands out one of these tabs with nothing
    asked of the driver, and the manager still holds no browser. *)
Theorem getPage_after_failed_viewport (w : World) (b : Browser) (pages : list Page)
    (first : Page) (e : Err) :
  _browser (browser w) = None ->
  availablePages (browser w) = [] ->
  isLocked (browserMutex (browser w)) = false ->
  headless (browser w) = false ->
  drv_launch drv (trace w) = Ok b ->
  drv_pages drv (trace w ++ [EvCall CLaunch]) b = Ok pages ->
  head pages = Some first ->
  drv_unit drv (trace w ++ [EvCall CLaunch; EvCall (CPages b)])
     (CSetViewport first (width (browser w) - 20) (height (browser w) - 200)) = Throw e ->
  exists w1,
    getPage drv w = (Throw e, w1) /\
    _browser (browser w1) = None /\
    availablePages (browser w1) = pages /\
    isLocked (browserMutex (browser w1)) = false /\
    exists p w2,
      getPage drv w1 = (Ok p, w2) /\
      last pages = Some p /\
      trace w2 = trace w1 /\
      _browser (browser w2) = None.
Proof.
  intros Hb Hpool Hm Hhl Hlaunch Hpages Hfirst Hview.
  assert (Hne : pages <> []) by (intros ->; discriminate).
  destruct (last pages) as [p|] eqn:Hlast; [|apply last_None in Hlast; contradiction].
  eexists. split.
  { unfold getPage, bind at 1, availablePages_pop. rewrite Hpool. cbn [last].
    apply bind_Throw.
    unfold create, bind at 1, get. cbn. rewrite Hb.
    unfold browserMutex_runExclusive. cbn. rewrite Hm.
    unfold try_finally, bind, get, request, modify, ret. cbn.
    rewrite Hb. cbn. rewrite Hlaunch, Hpages, Hpool. cbn. rewrite Hfirst, Hhl. cbn.
    rewrite <- app_assoc. cbn. rewrite Hview. reflexivity. }
  cbn [browser with_browser emit _browser set_browserMutex set_availablePages
       availablePages browserMutex isLocked].
  split; [exact Hb|]. split; [rewrite Hpool; reflexivity|]. split; [reflexivity|].
  exists p. eexists. split.
  { unfold getPage, bind at 1, availablePages_pop.
    cbn [browser with_browser emit _browser set_browserMutex set_availablePages
         availablePages browserMutex isLocked].
    rewrite Hpool. cbn [removelast app].
    rewrite Hlast. reflexivity. }
  cbn. rewrite Hb. repeat split.
Qed.

(** When the navigation of a task fails, the task function throws that
    error after writing it to the console and handing the tab back;
    the job has not run and the mutex has not been touched. *)
Theorem addPageTask_navigation_failure (cfg : TaskOptions) (executionFunction : M unit)
    (w : World) (p : Page) (w1 : World) (u : string) (e : Err) :
  getPage drv w = (Ok p, w1) ->
  url cfg = Some u ->
  truthy_string u = true ->
  drv_unit drv (trace w1 ++ [EvStatus ("Navigating to " +:+ u)])
    (navigation p u (goOptionsOf cfg)) = Throw e ->
  exists w',
    addPageTask drv cfg executionFunction w = (Throw e, w') /\
    trace w' = trace w1 ++ [EvStatus ("Navigating to " +:+ u);
                            EvCall (navigation p u (goOptionsOf cfg));
                            EvConsoleError e] /\
    availablePages (browser w') = availablePages (browser w1) ++ [p] /\
    activePageMutex (browser w') = activePageMutex (browser w1) /\
    inForeground (this w') = false.
Proof.
  intros Hget Hurl Htruthy Hgoto.
  eexists. split.
  { unfold addPageTask. rewrite (bind_Ok _ _ _ _ _ Hget).
    unfold bind at 1, modify.
    unfold try_finally, try_catch, pageTaskBody, gotoUrl.
    rewrite Hurl, Htruthy.
    unfold bind at 1. unfold goto, bind at 1.
    unfold status, bind at 1, get. cbn [with_this this statusStack newPuppyteerPage].
    rewrite statusPush_run. unfold bind at 1, get. unfold bind at 1, request.
    cbn [with_this this statusStack newPuppyteerPage emit trace page pushedOn].
    unfold pushedOn. cbn [last default truthy_string].
    unfold navigation, goOptionsOf in Hgoto.
    cbn [page set_statusStack newPuppyteerPage].
    rewrite Hgoto. unfold bind, console_error, modify, throw.
    rewrite acceptClosedPage_run. reflexivity. }
  cbn. rewrite <- !app_assoc. repeat split.
Qed.

End Browser.

(** * More about selectors *)

Lemma calls_app t1 t2 : calls (t1 ++ t2) = calls t1 ++ calls t2.
Proof. apply omap_app. Qed.

Lemma delays_app t1 t2 : delays (t1 ++ t2) = delays t1 ++ delays t2.
Proof. apply omap_app. Qed.

Section MoreSelectors.
Variable drv : Driver.

Lemma firstTrulyVisible_static (vis : ElementHandle -> option DOMRect) hs w :
  (forall t h, h ∈ hs -> drv_isTrulyVisible drv t h = Ok (vis h)) ->
  firstTrulyVisible drv hs w =
  (Ok (find (shown vis) hs),
   emitAll (map (fun h => EvCall (CIsTrulyVisible h)) (probedUntilShown vis hs)) w).
Proof.
  revert w. induction hs as [|h rest IH]; intros w Hvis.
  - cbn. rewrite emitAll_nil. reflexivity.
  - cbn [firstTrulyVisible find probedUntilShown].
    unfold bind, isTrulyVisible, request. rewrite Hvis by left.
    unfold shown at 1 3. destruct (vis h) as [r|].
    + reflexivity.
    + rewrite IH by (intros t h' Hh; apply Hvis; right; exact Hh).
      cbn [map]. change (emit ?ev ?w) with (emitAll [ev] w).
      rewrite emitAll_emitAll. reflexivity.
Qed.

(** With [visible] set, on a page whose elements do not change their
    visibility, [getSelectorImmediate] returns the first of the matches,
    in the order of the query, that is truly visible, and [null] when
    none is.  It tests the matches one after the other and stops at the
    first visible one: the matches after it are not looked at. *)
Theorem getSelectorImmediate_first_visible (selector : string) (visible : option bool)
    (w : World) (hs : list ElementHandle) (vis : ElementHandle -> option DOMRect) :
  truthy_flag visible = true ->
  drv_queryAll drv (trace w) (page (this w)) selector = Ok hs ->
  (forall t h, h ∈ hs -> drv_isTrulyVisible drv t h = Ok (vis h)) ->
  exists w',
    getSelectorImmediate drv selector visible w = (Ok (find (shown vis) hs), w') /\
    calls (trace w') = calls (trace w)
                       ++ CQueryAll (page (this w)) selector
                          :: map CIsTrulyVisible (probedUntilShown vis hs) /\
    this w' = this w /\ browser w' = browser w.
Proof.
  intros Hv Hq Hvis. eexists. split.
  - unfold getSelectorImmediate, bind at 1, get. rewrite Hv.
    unfold bind, request. rewrite Hq.
    apply firstTrulyVisible_static. exact Hvis.
  - cbn. rewrite !calls_app. cbn [calls omap]. cbn. rewrite <- app_assoc. cbn.
    repeat split. f_equal. f_equal.
    unfold calls. induction (probedUntilShown vis hs) as [|h l IH]; [reflexivity|].
    cbn. f_equal. exact IH.
Qed.

(** [waitForAllSelectors] with [visible] set throws before anything is
    asked of the driver.  Without a positive timeout (none, zero or a
    negative one) it is the query for all matches and nothing else.
    With a positive timeout it waits for one match first: when that
    wait returns [null] the result is the empty list and no further
    query is made; when it returns an element the matches are queried
    afresh, and the answer to that query is the result, whether or not
    it holds that element; and what the wait throws is thrown. *)
Theorem waitForAllSelectors_cases (selector : string) (options : SelectorOptions) (w : World) :
  (truthy_flag (sel_visible options) = true ->
     waitForAllSelectors drv selector options w = (Throw notImplemented, w)) /\
  (truthy_flag (sel_visible options) = false ->
   (forall timeoutMs, sel_timeoutMs options = Some timeoutMs -> (timeoutMs <= 0)%Z) ->
     waitForAllSelectors drv selector options w
     = (drv_queryAll drv (trace w) (page (this w)) selector,
        emit (EvCall (CQueryAll (page (this w)) selector)) w)) /\
  (forall timeoutMs r w1,
     truthy_flag (sel_visible options) = false ->
     sel_timeoutMs options = Some timeoutMs -> (0 < timeoutMs)%Z ->
     waitForSelector drv selector options w = (r, w1) ->
     waitForAllSelectors drv selector options w
     = match r with
       | Ok None => (Ok [], w1)
       | Ok (Some _) =>
           (drv_queryAll drv (trace w1) (page (this w1)) selector,
            emit (EvCall (CQueryAll (page (this w1)) selector)) w1)
       | Throw e => (Throw e, w1)
       | Pending => (Pending, w1)
       end).
Proof.
  split; [|split].
  - intros Hv. unfold waitForAllSelectors. rewrite Hv. reflexivity.
  - intros Hv Ht. unfold waitForAllSelectors. rewrite Hv.
    destruct (sel_timeoutMs options) as [timeoutMs|]; [|reflexivity].
    specialize (Ht timeoutMs eq_refl).
    destruct (timeoutMs =? 0)%Z eqn:E0; cbn [negb andb]; [reflexivity|].
    destruct (0 <? timeoutMs)%Z eqn:E1; [|reflexivity].
    apply Z.ltb_lt in E1. lia.
  - intros timeoutMs r w1 Hv Ht Hpos Hwait.
    unfold waitForAllSelectors. rewrite Hv, Ht.
    assert (E0 : (timeoutMs =? 0)%Z = false) by (apply Z.eqb_neq; lia).
    assert (E1 : (0 <? timeoutMs)%Z = true) by (apply Z.ltb_lt; lia).
    rewrite E0, E1. cbn [negb andb].
    unfold bind at 1. unfold bind at 1. rewrite Hwait.
    destruct r as [[h|]|e|]; reflexivity.
Qed.

(** On a layout that is steady, [scrollToElement] still scrolls once
    and waits a quarter of a second before it finds the element where
    it was and returns its centre; the status stack is then as it
    was. *)
Theorem scrollToElement_steady (fuel : nat) (e : ElementHandle) (pt : Point) (w : World) :
  (forall t, drv_boundingCenter drv t e = Ok pt) ->
  (forall t, drv_unit drv t (CScrollTo (page (this w)) pt) = Ok tt) ->
  exists w',
    scrollToElement drv (S fuel) e w = (Ok pt, w') /\
    calls (trace w') = calls (trace w)
                       ++ [CBoundingCenter e; CScrollTo (page (this w)) pt; CBoundingCenter e] /\
    delays (trace w') = delays (trace w) ++ [250%Z] /\
    this w' = this w /\ browser w' = browser w.
Proof.
  intros Hcenter Hscroll. eexists. split.
  - unfold scrollToElement, bind at 1, boundingCenter, request at 1.
    rewrite Hcenter. cbn [scrollUntilSteady].
    unfold bind at 1, scrollToPoint. unfold bind at 1. rewrite statusPush_run.
    unfold bind at 1, get. unfold request at 1.
    cbn [this with_this emit page set_statusStack trace].
    rewrite Hscroll. rewrite statusPop_run. cbn [snd].
    unfold bind at 1, wait. rewrite wait_f_run.
    unfold bind at 1, boundingCenter, request. rewrite Hcenter.
    rewrite !Z.eqb_refl. reflexivity.
  - cbn. rewrite removelast_last.
    rewrite !calls_app, !delays_app. cbn. rewrite <- !app_assoc. cbn.
    repeat split. destruct w as [b [p c s f] t]; reflexivity.
Qed.

End MoreSelectors.

(** * Polling for elements by their text *)

Section Polling.
Variable drv : Driver.
Variable textContent : list Event -> ElementHandle -> Outcome (option string).
Variable now : list Event -> Z.
Variable test : string -> bool.

Lemma samePage_bind {A B} (m : M A) (k : A -> M B) :
  samePage m -> (forall a, samePage (k a)) -> samePage (bind m k).
Proof.
  intros Hm Hk w r w' H. unfold bind in H.
  destruct (m w) as [[a|e|] w1] eqn:E.
  - rewrite (Hk a _ _ _ H). apply (Hm _ _ _ E).
  - injection H as <- <-. apply (Hm _ _ _ E).
  - injection H as <- <-. apply (Hm _ _ _ E).
Qed.

Lemma samePage_ret {A} (a : A) : samePage (ret a).
Proof. intros w r w' [= <- <-]. reflexivity. Qed.

Lemma samePage_get {A} (f : World -> A) : samePage (get f).
Proof. intros w r w' [= <- <-]. reflexivity. Qed.

Lemma samePage_request {A} (c : Call) (answer : list Event -> Outcome A) :
  samePage (request c answer).
Proof. intros w r w' [= <- <-]. reflexivity. Qed.

Lemma samePage_statusPush msg : samePage (statusPush msg).
Proof. intros w r w' H. rewrite statusPush_run in H. injection H as <- <-. reflexivity. Qed.

Lemma samePage_statusPop b : samePage (statusPop b).
Proof.
  intros w r w' H. rewrite statusPop_run in H. injection H as <- <-.
  destruct (b && logActivity (browser w)); reflexivity.
Qed.

Lemma samePage_acquireActivePage : samePage (acquireActivePage drv).
Proof.
  unfold acquireActivePage.
  apply samePage_bind; [apply samePage_statusPush|]. intros _.
  apply samePage_bind.
  { intros w r w' H. unfold activePageMutex_acquire in H.
    destruct (isLocked _); injection H as <- <-; reflexivity. }
  intros _. apply samePage_bind; [intros w r w' [= <- <-]; reflexivity|]. intros _.
  apply samePage_bind; [apply samePage_statusPop|]. intros _.
  apply samePage_bind; [apply samePage_get|]. intros p0. apply samePage_request.
Qed.

Lemma samePage_wait ms waitIn : samePage (wait drv ms waitIn).
Proof.
  assert (Hf : samePage (wait_f ms waitIn)).
  { intros w r w' H. rewrite wait_f_run in H. injection H as <- <-. reflexivity. }
  unfold wait. destruct waitIn as [[]|]; try exact Hf.
  unfold runInBackground. apply samePage_bind; [apply samePage_get|]. intros fg.
  destruct fg; cbn [negb]; [|exact Hf].
  apply samePage_bind; [intros w r w' [= <- <-]; reflexivity|]. intros _.
  apply samePage_bind; [exact Hf|]. intros r.
  apply samePage_bind; [apply samePage_acquireActivePage | intros _; apply samePage_ret].
Qed.

Lemma samePage_collectMatching visible hs acc :
  samePage (collectMatching drv textContent test visible hs acc).
Proof.
  revert acc. induction hs as [|h rest IH]; intros acc; cbn [collectMatching];
    [apply samePage_ret|].
  apply samePage_bind.
  { intros w r w' [= <- <-]. reflexivity. }
  intros innerText. apply samePage_bind; [|intros keep; apply IH].
  destruct innerText as [text|]; [|apply samePage_ret].
  destruct (truthy_string text && test (trim text)); [|apply samePage_ret].
  destruct (negb (truthy_flag visible)); [apply samePage_ret|].
  apply samePage_bind; [apply samePage_request | intros r; apply samePage_ret].
Qed.

Lemma collectMatching_kept visible hs acc w results w' :
  collectMatching drv textContent test visible hs acc w = (Ok results, w') ->
  exists kept, results = acc ++ kept /\ kept `sublist_of` hs.
Proof.
  revert acc w. induction hs as [|h rest IH]; intros acc w H.
  - injection H as <- <-. exists []. rewrite app_nil_r. split; [reflexivity|constructor].
  - cbn [collectMatching] in H. unfold bind at 1 in H.
    destruct (textContent (trace w) h) as [innerText|e|]; try discriminate.
    unfold bind at 1 in H.
    match type of H with
    | (match ?x with _ => _ end) = _ => destruct x as [[keep|e|] w1]
    end; try discriminate.
    apply IH in H as (kept & -> & Hsub). destruct keep.
    + exists (h :: kept). rewrite <- app_assoc. split; [reflexivity|].
      constructor. exact Hsub.
    + exists kept. split; [reflexivity|]. constructor. exact Hsub.
Qed.

Lemma pollWithInner_one_answer fuel selector options startTime w results w' :
  pollWithInner drv textContent now test fuel selector options startTime [] w
    = (Ok results, w') ->
  exists t hs,
    drv_queryAll drv t (page (this w)) selector = Ok hs /\ results `sublist_of` hs.
Proof.
  revert w. induction fuel as [|fuel IH]; intros w H; [discriminate|].
  cbn [pollWithInner] in H. unfold bind at 1, get in H.
  unfold bind at 1, request at 1 in H.
  destruct (drv_queryAll drv (trace w) (page (this w)) selector) as [hs|e|] eqn:Hq;
    try discriminate.
  unfold bind at 1 in H.
  destruct (collectMatching drv textContent test (sel_visible options) hs [] _)
    as [[found|e|] w1] eqn:Hc; try discriminate.
  pose proof (samePage_collectMatching _ _ _ _ _ _ Hc) as Hp1. cbn in Hp1.
  apply collectMatching_kept in Hc as (kept & -> & Hsub). cbn [app] in H.
  destruct ((0 <? length kept)%nat || negb (truthy_number (sel_timeoutMs options))) eqn:Hdone.
  - injection H as <- <-. eauto.
  - apply orb_false_iff in Hdone as [Hlen _]. apply Nat.ltb_ge in Hlen.
    assert (kept = []) as -> by (destruct kept; [reflexivity | cbn in Hlen; lia]).
    unfold bind at 1 in H.
    destruct (wait drv 250 _ w1) as [[[]|e|] w2] eqn:Hw; try discriminate.
    pose proof (samePage_wait _ _ _ _ _ Hw) as Hp2.
    unfold bind at 1, get in H.
    destruct (_ <? _)%Z.
    + apply IH in H. rewrite Hp2, Hp1 in H. exact H.
    + injection H as <- <-. exists (trace w), hs.
      split; [exact Hq | exact Hsub].
Qed.

(** What [waitForAllSelectorsWithInner] returns is taken from a single
    answer of the driver to the query on the tab of the session, in the
    order of that answer and with no element more often than the
    answer has it: the matches of earlier rounds are not mixed in,
    although the array is shared by all rounds. *)
Theorem waitForAllSelectorsWithInner_one_answer (fuel : nat) (selector : string)
    (options : SelectorOptions) (w : World) (results : list ElementHandle) (w' : World) :
  waitForAllSelectorsWithInner drv textContent now test fuel selector options w
    = (Ok results, w') ->
  exists t hs,
    drv_queryAll drv t (page (this w)) selector = Ok hs /\ results `sublist_of` hs.
Proof.
  intros H. unfold waitForAllSelectorsWithInner, bind, get in H.
  eapply pollWithInner_one_answer. exact H.
Qed.

Lemma collectMatching_rejects visible hs acc w :
  (forall t h, h ∈ hs ->
     exists innerText, textContent t h = Ok innerText /\ accepted test innerText = false) ->
  collectMatching drv textContent test visible hs acc w = (Ok acc, w).
Proof.
  revert acc w. induction hs as [|h rest IH]; intros acc w Hrej; [reflexivity|].
  cbn [collectMatching]. unfold bind at 1.
  destruct (Hrej (trace w) h) as (innerText & -> & Hacc); [left|].
  unfold bind at 1. unfold accepted in Hacc.
  destruct innerText as [text|]; [rewrite Hacc|]; cbn [ret];
    apply IH; intros t h' Hh; apply Hrej; right; exact Hh.
Qed.

Section TimingOut.
Variable selector : string.
Variable options : SelectorOptions.
Variable timeoutMs : Z.
Variable p : Page.
Variable hs : list ElementHandle.
Hypothesis clock : clockAdvances now.
Hypothesis timeout_set : sel_timeoutMs options = Some timeoutMs.
Hypothesis timeout_positive : (0 < timeoutMs)%Z.
Hypothesis here : sel_waitIn options <> Some background.
Hypothesis same_matches : forall t, drv_queryAll drv t p selector = Ok hs.
Hypothesis no_text_passes : forall t h, h ∈ hs ->
  exists innerText, textContent t h = Ok innerText /\ accepted test innerText = false.

Lemma round_without_match w :
  page (this w) = p ->
  exists w1,
    (forall fuel startTime,
       pollWithInner drv textContent now test (S fuel) selector options startTime [] w
       = if (now (trace w1) - startTime <? timeoutMs)%Z
         then pollWithInner drv textContent now test fuel selector options startTime [] w1
         else (Ok [], w1)) /\
    (now (trace w) + 250 <= now (trace w1))%Z /\
    delays (trace w1) = delays (trace w) ++ [250%Z] /\
    calls (trace w1) = calls (trace w) ++ [CQueryAll p selector] /\
    this w1 = this w /\ browser w1 = browser w.
Proof.
  intros Hp.
  exists (delayed 250 (Some foreground) (emit (EvCall (CQueryAll p selector)) w)).
  split; [|split; [|split; [|split]]].
  - intros fuel startTime. cbn [pollWithInner].
    unfold bind at 1, get. unfold bind at 1, request at 1.
    rewrite Hp, same_matches.
    unfold bind at 1. rewrite collectMatching_rejects by exact no_text_passes.
    rewrite timeout_set. cbn [length truthy_number default].
    replace (timeoutMs =? 0)%Z with false by (symmetry; apply Z.eqb_neq; lia).
    cbn [Nat.ltb Nat.leb negb orb].
    assert (Hw : wait drv 250 (Some (default foreground (sel_waitIn options)))
                 (emit (EvCall (CQueryAll p selector)) w)
                 = (Ok tt, delayed 250 (Some foreground)
                             (emit (EvCall (CQueryAll p selector)) w))).
    { destruct (sel_waitIn options) as [[]|]; try congruence; apply wait_f_run. }
    rewrite (bind_Ok _ _ _ _ _ Hw). unfold bind, get.
    change (id timeoutMs) with timeoutMs.
    destruct (_ <? _)%Z; reflexivity.
  - destruct clock as [Hmono Hdelay]. unfold delayed, emit; cbn [trace].
    match goal with
    | |- (_ <= now (((?t0 ++ [?a]) ++ [?b]) ++ [?c]))%Z =>
        pose proof (Hmono ((t0 ++ [a]) ++ [b]) c) as H3;
        pose proof (Hdelay (t0 ++ [a]) 250%Z) as H2;
        pose proof (Hmono t0 a) as H1
    end.
    pose proof (Hmono (trace w) (EvCall (CQueryAll p selector))) as H0.
    lia.
  - unfold delayed, emit; cbn [trace]. rewrite !delays_app. cbn. rewrite !app_nil_r. reflexivity.
  - unfold delayed, emit; cbn [trace]. rewrite !calls_app. cbn. rewrite !app_nil_r. reflexivity.
  - split; reflexivity.
Qed.

Lemma pollWithInner_times_out (startTime : Z) (k : nat) :
  forall w,
    page (this w) = p ->
    (timeoutMs - (now (trace w) - startTime) <= 250 * Z.of_nat k)%Z ->
    exists n w',
      (1 <= n <= Nat.max 1 k)%nat /\
      (forall fuel, (n <= fuel)%nat ->
         pollWithInner drv textContent now test fuel selector options startTime [] w
         = (Ok [], w')) /\
      (timeoutMs <= now (trace w') - startTime)%Z /\
      delays (trace w') = delays (trace w) ++ replicate n 250%Z /\
      calls (trace w') = calls (trace w) ++ replicate n (CQueryAll p selector) /\
      this w' = this w /\ browser w' = browser w.
Proof.
  induction k as [|k IH]; intros w Hp Hleft;
    destruct (round_without_match w Hp) as (w1 & Hround & Hnow & Hd & Hc & Hthis & Hbr).
  - exists 1%nat, w1. split; [cbn; lia|]. split; [|split; [lia|auto]].
    intros [|fuel] Hf; [lia|]. rewrite Hround.
    replace (_ <? _)%Z with false; [reflexivity|]. symmetry. apply Z.ltb_ge. lia.
  - destruct (now (trace w1) - startTime <? timeoutMs)%Z eqn:Hcmp.
    + pose proof (proj1 (Z.ltb_lt _ _) Hcmp) as Hlt.
      destruct (IH w1) as (n & w' & Hn & Hrun & Hnow' & Hd' & Hc' & Hthis' & Hbr').
      { rewrite Hthis. exact Hp. }
      { lia. }
      assert (1 <= k)%nat by lia.
      exists (S n), w'. split; [lia|]. split; [|split; [exact Hnow'|]].
      * intros [|fuel] Hf; [lia|]. rewrite Hround, Hcmp. apply Hrun. lia.
      * rewrite Hd', Hd, Hc', Hc, <- !app_assoc. cbn.
        repeat split; congruence.
    + pose proof (proj1 (Z.ltb_ge _ _) Hcmp) as Hge.
      exists 1%nat, w1. split; [lia|]. split; [|split; [lia|auto]].
      intros [|fuel] Hf; [lia|]. rewrite Hround, Hcmp. reflexivity.
Qed.

End TimingOut.

(** On a page where the query gives the same elements throughout and
    the text of none of them passes, with a positive timeout and the
    waiting done where the session stands: the polling ends, after at
    least one round and at most as many as quarters of a second are
    needed to cover the timeout, each round being one query and one
    delay of 250 ms.  It returns the empty list, no earlier than the
    timeout after it began, and the session is as it was.  The
    variants that return the first or the last element return
    [null]. *)
Theorem waitForAllSelectorsWithInner_times_out (selector : string)
    (options : SelectorOptions) (timeoutMs : Z) (hs : list ElementHandle) (w : World) :
  clockAdvances now ->
  sel_timeoutMs options = Some timeoutMs ->
  (0 < timeoutMs)%Z ->
  sel_waitIn options <> Some background ->
  (forall t, drv_queryAll drv t (page (this w)) selector = Ok hs) ->
  (forall t h, h ∈ hs ->
     exists innerText, textContent t h = Ok innerText /\ accepted test innerText = false) ->
  exists n w',
    (1 <= n)%nat /\ (Z.of_nat n <= (timeoutMs + 249) / 250)%Z /\
    (forall fuel, (n <= fuel)%nat ->
       waitForAllSelectorsWithInner drv textContent now test fuel selector options w
         = (Ok [], w') /\
       waitForFirstSelectorWithInner drv textContent now test fuel selector options w
         = (Ok None, w') /\
       waitForLastSelectorWithInner drv textContent now test fuel selector options w
         = (Ok None, w')) /\
    (timeoutMs <= now (trace w') - now (trace w))%Z /\
    delays (trace w') = delays (trace w) ++ replicate n 250%Z /\
    calls (trace w') = calls (trace w) ++ replicate n (CQueryAll (page (this w)) selector) /\
    this w' = this w /\ browser w' = browser w.
Proof.
  intros Hclock Ht Hpos Hhere Hq Hrej.
  pose (k := Z.to_nat ((timeoutMs + 249) / 250)).
  assert (Hk : (timeoutMs <= 250 * Z.of_nat k)%Z).
  { unfold k. rewrite Z2Nat.id by (apply Z.div_pos; lia).
    pose proof (Z.mul_div_le (timeoutMs + 249) 250 ltac:(lia)).
    pose proof (Z.mod_pos_bound (timeoutMs + 249) 250 ltac:(lia)).
    pose proof (Z.div_mod (timeoutMs + 249) 250 ltac:(lia)). lia. }
  assert (Hk1 : (1 <= k)%nat) by lia.
  destruct (pollWithInner_times_out selector options timeoutMs (page (this w)) hs
              Hclock Ht Hpos Hhere Hq Hrej (now (trace w)) k w eq_refl)
    as (n & w' & Hn & Hrun & Hnow & Hd & Hc & Hthis & Hbr); [lia|].
  exists n, w'. split; [lia|]. split.
  { unfold k in Hn. rewrite Nat.max_r in Hn by exact Hk1.
    destruct Hn as [_ Hn]. apply Nat2Z.inj_le in Hn.
    rewrite Z2Nat.id in Hn by (apply Z.div_pos; lia). exact Hn. }
  split; [|auto].
  intros fuel Hf.
  assert (E : waitForAllSelectorsWithInner drv textContent now test fuel selector options w
              = (Ok [], w')).
  { unfold waitForAllSelectorsWithInner, bind, get. apply Hrun. exact Hf. }
  split; [exact E|].
  split; [unfold waitForFirstSelectorWithInner | unfold waitForLastSelectorWithInner];
    rewrite (bind_Ok _ _ _ _ _ E); reflexivity.
Qed.

End Polling.

(** * The functions evaluated inside the page *)

Lemma Element_chain_ind (P : Element -> Prop) :
  (forall e, parentElement e = None -> P e) ->
  (forall e p, parentElement e = Some p -> P p -> P e) ->
  forall e, P e.
Proof.
  intros Hroot Hstep. fix IH 1. intros [n r s m [p|]].
  - apply (Hstep _ p); [reflexivity | apply IH].
  - apply Hroot. reflexivity.
Qed.

Lemma selfAndAncestors_unfold e :
  selfAndAncestors e = e :: ancestors e.
Proof. destruct e as [n r s m [p|]]; reflexivity. Qed.

Lemma walksUpTo_spec el hit :
  walksUpTo el hit = true <->
  exists a, a ∈ selfAndAncestors hit /\ nodeId a = nodeId el.
Proof.
  induction hit as [hit Hp | hit p Hp IH] using Element_chain_ind.
  - destruct hit as [n r s m q]; cbn in Hp; subst q. cbn.
    destruct (n =? nodeId el)%nat eqn:E.
    + apply Nat.eqb_eq in E. split; [|reflexivity]. intros _.
      eexists. split; [left|]. exact E.
    + apply Nat.eqb_neq in E. split; [discriminate|].
      intros (a & Ha & Hid). apply list_elem_of_singleton in Ha. subst a. contradiction.
  - destruct hit as [n r s m q]; cbn in Hp; subst q. cbn.
    destruct (n =? nodeId el)%nat eqn:E.
    + apply Nat.eqb_eq in E. split; [|reflexivity]. intros _.
      eexists. split; [left|]. exact E.
    + apply Nat.eqb_neq in E. rewrite IH. split.
      * intros (a & Ha & Hid). exists a. split; [right; exact Ha | exact Hid].
      * intros (a & Ha & Hid). apply elem_of_cons in Ha as [->|Ha]; [contradiction|].
        exists a. split; assumption.
Qed.

Lemma stylesShow_spec e :
  stylesShow e = true <->
  Forall (fun a => hides (computedStyle a) = false) (selfAndAncestors e).
Proof.
  induction e as [e Hp | e p Hp IH] using Element_chain_ind;
    destruct e as [n r s m q]; cbn in Hp; subst q; cbn;
    destruct (hides s) eqn:E.
  - split; [discriminate|]. intros H. apply Forall_cons in H as [H _]. cbn in H. congruence.
  - split; [|reflexivity]. intros _. repeat constructor. exact E.
  - split; [discriminate|]. intros H. apply Forall_cons in H as [H _]. cbn in H. congruence.
  - rewrite IH. split.
    + intros H. constructor; [exact E | exact H].
    + intros H. apply Forall_cons in H as [_ H]. exact H.
Qed.

Lemma Qlt_bool_false a b : Qlt_bool a b = false <-> (b <= a)%Q.
Proof. unfold Qlt_bool. rewrite negb_false_iff. apply Qle_bool_iff. Qed.

Lemma inViewport_test doc rect :
  Qlt_bool (rect_top rect) 0 || Qlt_bool (rect_left rect) 0
  || Qlt_bool (rect_width rect) 1 || Qlt_bool (rect_height rect) 1
  || Qlt_bool (or_number (innerHeight doc) (clientHeight doc)) (rect_bottom rect)
  || Qlt_bool (or_number (innerWidth doc) (clientWidth doc)) (rect_right rect) = false
  <-> insideViewport doc rect.
Proof.
  unfold insideViewport, viewportHeight, viewportWidth.
  rewrite !orb_false_iff, !Qlt_bool_false. tauto.
Qed.

(** The visibility test succeeds, with the bounding rectangle, exactly
    when the rectangle is at least a pixel each way and within the
    viewport, the element found at its centre is the element or lies
    inside it, and neither the element nor any of its parents has a
    style that hides it. *)
Theorem evaluate_isTrulyVisible_iff (doc : Document) (el : Element) (r : DOMRect) :
  evaluate_isTrulyVisible doc el = Some r <->
  r = boundingClientRect el /\
  insideViewport doc r /\
  (exists hit a,
     elementFromPoint doc (fst (centerOf r)) (snd (centerOf r)) = Some hit /\
     a ∈ selfAndAncestors hit /\ nodeId a = nodeId el) /\
  Forall (fun a => hides (computedStyle a) = false) (selfAndAncestors el).
Proof.
  unfold evaluate_isTrulyVisible. cbv zeta.
  set (rect := boundingClientRect el).
  destruct (_ || _) eqn:Eview.
  - split; [discriminate|]. intros (-> & Hin & _).
    apply inViewport_test in Hin. fold rect in Hin. congruence.
  - apply inViewport_test in Eview.
    change ((rect_left rect + rect_right rect) / 2)%Q with (fst (centerOf rect)).
    change ((rect_top rect + rect_bottom rect) / 2)%Q with (snd (centerOf rect)).
    destruct (elementFromPoint doc _ _) as [hit|] eqn:Ehit.
    + destruct (walksUpTo el hit) eqn:Ewalk.
      * apply walksUpTo_spec in Ewalk as (a & Ha & Hid).
        destruct (stylesShow el) eqn:Eshow.
        -- apply stylesShow_spec in Eshow. split.
           ++ intros [= <-]. repeat split; try apply Eview; [|exact Eshow].
              exists hit, a. repeat split; assumption.
           ++ intros (-> & _). reflexivity.
        -- split; [discriminate|]. intros (_ & _ & _ & Hs).
           apply stylesShow_spec in Hs. congruence.
      * split; [discriminate|]. intros (-> & _ & (hit' & a & Hh & Ha & Hid) & _).
        fold rect in Hh. rewrite Ehit in Hh. injection Hh as <-.
        assert (walksUpTo el hit = true) by (apply walksUpTo_spec; eauto). congruence.
    + split; [discriminate|]. intros (-> & _ & (hit' & a & Hh & _) & _).
      fold rect in Hh. congruence.
Qed.

(** An element is not visible when it or one of its parents is not
    displayed, is hidden or is fully transparent, whatever its own
    rectangle and style. *)
Theorem evaluate_isTrulyVisible_hidden_parent (doc : Document) (el a : Element) :
  a ∈ selfAndAncestors el ->
  display (computedStyle a) = "none" \/ visibility (computedStyle a) = "hidden"
  \/ opacity (computedStyle a) = "0" ->
  evaluate_isTrulyVisible doc el = None.
Proof.
  intros Ha Hstyle.
  assert (Hh : hides (computedStyle a) = true).
  { unfold hides. destruct Hstyle as [H|[H|H]]; rewrite H; cbn;
      rewrite ?orb_true_r; reflexivity. }
  assert (Hs : stylesShow el = false).
  { destruct (stylesShow el) eqn:E; [|reflexivity].
    apply stylesShow_spec in E. rewrite Forall_forall in E.
    specialize (E a Ha). cbn in E. congruence. }
  unfold evaluate_isTrulyVisible. cbv zeta. rewrite Hs.
  destruct (_ || _); [reflexivity|].
  destruct (elementFromPoint doc _ _); [|reflexivity].
  destruct (walksUpTo el _); reflexivity.
Qed.

Lemma firstMatchingFrom_nearestMatch p selector :
  firstMatchingFrom p selector = nearestMatch (selfAndAncestors p) selector.
Proof.
  induction p as [e Hp | e q Hp IH] using Element_chain_ind;
    destruct e as [n r s m q']; cbn in Hp; subst q'; cbn;
    destruct (m selector) as [[]|]; try reflexivity.
  exact IH.
Qed.

Lemma nearestMatch_found l selector a :
  nearestMatch l selector = Returned (Some a) <->
  exists nearer farther,
    l = nearer ++ a :: farther /\ noneMatches selector nearer /\
    matches a selector = Some true.
Proof.
  induction l as [|b l IH]; cbn.
  - split; [discriminate|]. intros (nearer & farther & H & _).
    destruct nearer; discriminate.
  - destruct (matches b selector) as [[]|] eqn:Eb.
    + split.
      * intros [= <-]. exists [], l. repeat split; [constructor | exact Eb].
      * intros (nearer & farther & H & Hn & Ha).
        destruct nearer as [|c nearer]; cbn in H; injection H as -> ->; [reflexivity|].
        apply Forall_cons in Hn as [Hc _]. cbn in Hc. congruence.
    + rewrite IH. split.
      * intros (nearer & farther & -> & Hn & Ha).
        exists (b :: nearer), farther. repeat split; [constructor; assumption | exact Ha].
      * intros (nearer & farther & H & Hn & Ha).
        destruct nearer as [|c nearer]; cbn in H; injection H as -> ->; [congruence|].
        apply Forall_cons in Hn as [_ Hn]. exists nearer, farther. repeat split; assumption.
    + split; [discriminate|].
      intros (nearer & farther & H & Hn & Ha).
      destruct nearer as [|c nearer]; cbn in H; injection H as -> ->; [congruence|].
      apply Forall_cons in Hn as [Hc _]. cbn in Hc. congruence.
Qed.

Lemma nearestMatch_none l selector :
  nearestMatch l selector = Returned None <-> noneMatches selector l.
Proof.
  unfold noneMatches. induction l as [|b l IH]; cbn.
  - split; [constructor | reflexivity].
  - destruct (matches b selector) as [[]|] eqn:Eb.
    + split; [discriminate|]. intros H. apply Forall_cons in H as [H _]. cbn in H. congruence.
    + rewrite IH. split; [intros H; constructor; assumption|].
      intros H. apply Forall_cons in H as [_ H]. exact H.
    + split; [discriminate|]. intros H. apply Forall_cons in H as [H _]. cbn in H. congruence.
Qed.

Lemma nearestMatch_threw l selector :
  nearestMatch l selector = Threw <->
  exists nearer a farther,
    l = nearer ++ a :: farther /\ noneMatches selector nearer /\
    matches a selector = None.
Proof.
  induction l as [|b l IH]; cbn.
  - split; [discriminate|]. intros (nearer & a & farther & H & _).
    destruct nearer; discriminate.
  - destruct (matches b selector) as [[]|] eqn:Eb.
    + split; [discriminate|].
      intros (nearer & a & farther & H & Hn & Ha).
      destruct nearer as [|c nearer]; cbn in H; injection H as -> ->; [congruence|].
      apply Forall_cons in Hn as [Hc _]. cbn in Hc. congruence.
    + rewrite IH. split.
      * intros (nearer & a & farther & -> & Hn & Ha).
        exists (b :: nearer), a, farther. repeat split; [constructor; assumption | exact Ha].
      * intros (nearer & a & farther & H & Hn & Ha).
        destruct nearer as [|c nearer]; cbn in H; injection H as -> ->; [congruence|].
        apply Forall_cons in Hn as [_ Hn]. exists nearer, a, farther. repeat split; assumption.
    + split; [|reflexivity]. intros _.
      exists [], b, l. repeat split; [constructor | exact Eb].
Qed.

(** [getMatchingParent] returns the nearest parent that matches the
    selector: the parents nearer than it do not match, and the element
    itself is not looked at.  It returns [null] exactly when no parent
    matches, which includes an element without a parent, whatever the
    selector.  It throws exactly when [matches] rejects the selector at
    a parent that is reached. *)
Theorem evaluate_getMatchingParent_nearest (el : Element) (selector : string) :
  (forall a,
     evaluate_getMatchingParent el selector = Returned (Some a) <->
     exists nearer farther,
       ancestors el = nearer ++ a :: farther /\ noneMatches selector nearer /\
       matches a selector = Some true) /\
  (evaluate_getMatchingParent el selector = Returned None <->
   noneMatches selector (ancestors el)) /\
  (evaluate_getMatchingParent el selector = Threw <->
   exists nearer a farther,
     ancestors el = nearer ++ a :: farther /\ noneMatches selector nearer /\
     matches a selector = None).
Proof.
  assert (E : evaluate_getMatchingParent el selector
              = nearestMatch (ancestors el) selector).
  { unfold evaluate_getMatchingParent, ancestors.
    destruct (parentElement el); [apply firstMatchingFrom_nearestMatch | reflexivity]. }
  rewrite E. split; [|split].
  - intros a. apply nearestMatch_found.
  - apply nearestMatch_none.
  - apply nearestMatch_threw.
Qed.

Lemma Qfloor_ge_iff (z : Z) (q : Q) : (z <= Qfloor q)%Z <-> (inject_Z z <= q)%Q.
Proof.
  split.
  - intros H. apply Qle_trans with (inject_Z (Qfloor q)); [|apply Qfloor_le].
    rewrite <- Zle_Qle. exact H.
  - intros H. rewrite <- (Qfloor_Z z). apply Qfloor_resp_le. exact H.
Qed.

Lemma Qfloor_le_iff (z : Z) (q : Q) : (Qfloor q <= z)%Z <-> (q < inject_Z (z + 1))%Q.
Proof.
  split.
  - intros H. apply Qnot_le_lt. intros C. apply Qfloor_ge_iff in C. lia.
  - intros H. destruct (Z_le_gt_dec (Qfloor q) z) as [L|G]; [exact L|].
    exfalso. assert (C : (z + 1 <= Qfloor q)%Z) by lia.
    apply Qfloor_ge_iff in C. apply (Qlt_not_le _ _ H C).
Qed.

Lemma Math_round_small (d : Q) :
  (10 <? Z.abs (Math_round d))%Z = false <-> (- (21 # 2) <= d < 21 # 2)%Q.
Proof.
  rewrite Z.ltb_ge, Z.abs_le. unfold Math_round.
  rewrite Qfloor_ge_iff, Qfloor_le_iff.
  change (inject_Z (- (10))) with (- 10)%Q. change (inject_Z (10 + 1)) with 11%Q.
  split; intros [H1 H2]; split; lra.
Qed.

(** [scrollToPoint] does not scroll exactly when the point is, in both
    directions, less than ten and a half pixels after the centre of
    the viewport and at most ten and a half before it. *)
Theorem evaluate_scrollToPoint_close_enough (doc : Document) (pt : Point) :
  evaluate_scrollToPoint doc pt = None <->
  (- (21 # 2) <= inject_Z (pt_y pt) - viewportHeight doc / 2 < 21 # 2)%Q /\
  (- (21 # 2) <= inject_Z (pt_x pt) - viewportWidth doc / 2 < 21 # 2)%Q.
Proof.
  unfold evaluate_scrollToPoint. cbv zeta. fold (viewportHeight doc) (viewportWidth doc).
  rewrite <- !Math_round_small.
  destruct (10 <? _)%Z; destruct (10 <? _)%Z; cbn; split;
    try discriminate; try tauto; intros [? ?]; discriminate.
Qed.

Lemma Math_round_near (x : Q) :
  (x - (1 # 2) < inject_Z (Math_round x) <= x + (1 # 2))%Q.
Proof.
  unfold Math_round.
  pose proof (Qfloor_le (x + (1 # 2))) as H1.
  pose proof (Qlt_floor (x + (1 # 2))) as H2.
  rewrite inject_Z_plus in H2. change (inject_Z 1) with 1%Q in H2.
  split; lra.
Qed.

(** The point computed for an element at least one pixel wide and high
    lies within its rectangle. *)
Theorem evaluate_getElementCenter_inside (el : Element) :
  (1 <= rect_width (boundingClientRect el))%Q ->
  (1 <= rect_height (boundingClientRect el))%Q ->
  (rect_left (boundingClientRect el)
   <= inject_Z (pt_x (evaluate_getElementCenter el))
   <= rect_left (boundingClientRect el) + rect_width (boundingClientRect el))%Q /\
  (rect_top (boundingClientRect el)
   <= inject_Z (pt_y (evaluate_getElementCenter el))
   <= rect_top (boundingClientRect el) + rect_height (boundingClientRect el))%Q.
Proof.
  intros Hw Hh. unfold evaluate_getElementCenter. cbn [pt_x pt_y].
  generalize dependent (boundingClientRect el). intros rect Hw Hh.
  pose proof (Math_round_near (rect_left rect + rect_width rect / 2)) as Hx.
  pose proof (Math_round_near (rect_top rect + rect_height rect / 2)) as Hy.
  unfold Qdiv in *. change (/ 2)%Q with (1 # 2)%Q in *.
  repeat split; lra.
Qed.

(** The point computed for a truly visible element lies within the
    viewport as well. *)
Theorem trulyVisible_center_in_viewport (doc : Document) (el : Element) (r : DOMRect) :
  evaluate_isTrulyVisible doc el = Some r ->
  let pt := evaluate_getElementCenter el in
  (0 <= inject_Z (pt_x pt) <= viewportWidth doc)%Q /\
  (0 <= inject_Z (pt_y pt) <= viewportHeight doc)%Q /\
  (rect_left r <= inject_Z (pt_x pt) <= rect_right r)%Q /\
  (rect_top r <= inject_Z (pt_y pt) <= rect_bottom r)%Q.
Proof.
  intros H pt.
  assert (Hin : r = boundingClientRect el /\ insideViewport doc r).
  { unfold evaluate_isTrulyVisible in H. cbv zeta in H.
    destruct (_ || _) eqn:Eview in H; [discriminate|].
    apply inViewport_test in Eview.
    destruct (elementFromPoint doc _ _); [|discriminate].
    destruct (walksUpTo el _); [|discriminate].
    destruct (stylesShow el); [|discriminate].
    injection H as <-. split; [reflexivity | exact Eview]. }
  destruct Hin as [-> (Ht & Hl & Hw & Hh & Hb & Hr)].
  unfold rect_right, rect_bottom in *.
  rewrite (Qabs_pos (rect_width (boundingClientRect el))) in * by lra.
  rewrite (Qabs_pos (rect_height (boundingClientRect el))) in * by lra.
  unfold pt, evaluate_getElementCenter. cbn [pt_x pt_y].
  pose proof (Math_round_near (rect_left (boundingClientRect el)
                               + rect_width (boundingClientRect el) / 2)) as Hx.
  pose proof (Math_round_near (rect_top (boundingClientRect el)
                               + rect_height (boundingClientRect el) / 2)) as Hy.
  unfold Qdiv in *. change (/ 2)%Q with (1 # 2)%Q in *.
  repeat split; lra.
Qed.

(** * [common.ts] *)

Lemma flatten_from {T} (maxArguments : nat) (lists : list (list T)) (result : list T) :
  fold_left (pushAll maxArguments) lists (Returned result)
  = if forallb (fun l => (length l <=? maxArguments)%nat) lists
    then Returned (result ++ concat lists) else Threw.
Proof.
  revert result. induction lists as [|l rest IH]; intros result; cbn.
  - rewrite app_nil_r. reflexivity.
  - destruct (length l <=? maxArguments)%nat; cbn.
    + rewrite IH, <- app_assoc. reflexivity.
    + clear IH. induction rest as [|l' rest IH]; [reflexivity | exact IH].
Qed.

Lemma flatten_outcome {T} (maxArguments : nat) (lists : list (list T)) :
  flattenListOfLists maxArguments lists
  = if forallb (fun l => (length l <=? maxArguments)%nat) lists
    then Returned (concat lists) else Threw.
Proof. unfold flattenListOfLists. rewrite flatten_from. reflexivity. Qed.

(** As long as no inner list has more elements than [push] takes as
    arguments, [flattenListOfLists] returns the concatenation of the
    lists in their order, and only then does it return: one inner list
    beyond that makes it throw.  What it returns has as many elements
    as the lists have together, the elements of the lists; and
    flattening appended lists of lists gives the results appended, or
    throws if either part does. *)
Theorem flattenListOfLists_concat {T} (maxArguments : nat) (lists : list (list T)) :
  (flattenListOfLists maxArguments lists = Returned (concat lists) <->
   Forall (fun l => (length l <= maxArguments)%nat) lists) /\
  (flattenListOfLists maxArguments lists = Threw <->
   Exists (fun l => (maxArguments < length l)%nat) lists) /\
  (forall result,
     flattenListOfLists maxArguments lists = Returned result ->
     result = concat lists /\
     length result = list_sum (map (@length T) lists) /\
     forall x, x ∈ result <-> exists l, l ∈ lists /\ x ∈ l) /\
  (forall more,
     flattenListOfLists maxArguments (lists ++ more)
     = match flattenListOfLists maxArguments lists,
             flattenListOfLists maxArguments more with
       | Returned front, Returned back => Returned (front ++ back)
       | _, _ => Threw
       end).
Proof.
  assert (Hall : forall ls : list (list T),
    forallb (fun l => (length l <=? maxArguments)%nat) ls = true <->
    Forall (fun l => (length l <= maxArguments)%nat) ls).
  { intros ls. rewrite forallb_forall, Forall_forall. split; intros H l Hl.
    - apply Nat.leb_le, H, list_elem_of_In, Hl.
    - apply Nat.leb_le, H, list_elem_of_In, Hl. }
  rewrite !flatten_outcome.
  destruct (forallb _ lists) eqn:E.
  - apply Hall in E. split; [tauto|]. split; [|split].
    + split; [discriminate|]. intros Hex. apply Exists_exists in Hex as (l & Hl & Hlong).
      rewrite Forall_forall in E. specialize (E l Hl). lia.
    + intros result [= <-]. split; [reflexivity|]. split.
      * clear E. induction lists as [|l rest IH]; cbn; [reflexivity|].
        rewrite length_app, IH. reflexivity.
      * intros x. clear E. induction lists as [|l rest IH]; cbn.
        -- split; [intros H; inversion H|]. intros (l & H & _). inversion H.
        -- rewrite elem_of_app, IH. split.
           ++ intros [H|(l' & H1 & H2)]; [exists l; split; [left|exact H]|].
              exists l'. split; [right; exact H1 | exact H2].
           ++ intros (l' & H1 & H2). apply elem_of_cons in H1 as [->|H1]; [left; exact H2|].
              right. exists l'. split; assumption.
    + intros more. rewrite !flatten_outcome, forallb_app.
      apply Hall in E. rewrite E. cbn [andb].
      destruct (forallb _ more); [rewrite concat_app|]; reflexivity.
  - split; [|split; [|split]].
    + split; [discriminate|]. intros H. apply Hall in H. congruence.
    + split; [|reflexivity]. intros _.
      apply not_true_iff_false in E. rewrite Hall in E.
      apply not_Forall_Exists in E; [|intros l; apply _].
      eapply Exists_impl; [exact E|]. cbn. intros l Hl. lia.
    + intros result H. discriminate.
    + intros more. rewrite flatten_outcome, forallb_app, E. reflexivity.
Qed.

(** * The statements at concrete sessions *)

(** C3, as stated, at [A = ""]: on a fresh session the second push
    finds an empty top entry and stores ["B"], not [" -- B"]. *)
Lemma statusPush_under_empty_entry :
  let w2 := snd ((statusPush "";; statusPush "B")%js idle) in
  last (statusStack (this w2)) = Some "B" /\
  last (statusStack (this w2)) <> Some ("" +:+ " -- " +:+ "B").
Proof. split; [reflexivity | discriminate]. Qed.

Lemma statusPop_on_empty_stack_idle :
  statusStack (this idle) = [] /\
  exists w',
    statusPop true idle = (Ok tt, w') /\
    statusStack (this w') = [] /\
    last (trace w') = Some (EvStatus "") /\
    trace w' = trace idle
               ++ (if true && logActivity (browser idle) then [EvConsoleLog None] else [])
               ++ [EvStatus ""] /\
    browser w' = browser idle /\
    inForeground (this w') = inForeground (this idle).
Proof. split; [ reflexivity | apply (statusPop_on_empty_stack true idle); reflexivity ]. Defined.

Lemma runInForeground_failing_job_idle :
  inForeground (this idle) = false /\
  acquireActivePage calm idle = (Ok tt, acquired idle) /\
  exists w3,
    runInForeground calm (throw (Error "job failed") : M unit) idle
      = (Throw (Error "job failed"), w3) /\
    inForeground (this w3) = false /\
    isLocked (activePageMutex (browser w3)) = false /\
    trace w3 = trace (acquired idle) ++ [EvRelease].
Proof.
  split; [reflexivity|]. split; [reflexivity|].
  destruct (runInForeground_acquires_and_releases calm
              (throw (Error "job failed") : M unit) idle) as [_ H].
  destruct (H eq_refl (acquired idle) eq_refl) as (_ & _ & _ & _ & H').
  destruct (H' (Throw (Error "job failed")) (acquired idle) eq_refl)
    as (w3 & H1 & _ & H2 & H3 & H4); [discriminate|].
  exists w3. repeat split; assumption.
Defined.

(** C2, at a job that fails in the background: the session was in
    the foreground and ends outside it, the mutex released and not
    taken again. *)
Lemma runInBackground_failing_fn_not_reacquired :
  exists w',
    runInBackground calm (throw (Error "boom") : M unit) holding
      = (Throw (Error "boom"), w') /\
    inForeground (this holding) = true /\
    inForeground (this w') = false /\
    isLocked (activePageMutex (browser w')) = false /\
    trace w' = [EvRelease].
Proof. eexists. repeat split. Qed.

Lemma waitForSelector_background_timeout_holding :
  inForeground (this holding) = true /\
  exists w',
    waitForSelector calm "#missing"
      {| sel_timeoutMs := Some 100%Z; sel_waitIn := Some background; sel_visible := None |}
      holding = (Ok None, w') /\
    inForeground (this w') = false /\
    isLocked (activePageMutex (browser w')) = false /\
    trace w' = [EvCall (CQuery 10 "#missing");
                EvStatus "Waiting for selector #missing";
                EvRelease;
                EvCall (CWaitForSelector 10 "#missing" 100 None);
                EvStatus ""].
Proof.
  split; [reflexivity|].
  destruct (waitForSelector_background_timeout_leaves_foreground calm "#missing"
              {| sel_timeoutMs := Some 100%Z; sel_waitIn := Some background;
                 sel_visible := None |}
              holding (emit (EvCall (CQuery 10 "#missing")) holding)
              (Error "TimeoutError: Waiting for selector failed")
              eq_refl eq_refl eq_refl eq_refl eq_refl)
    as (w' & H1 & H2 & H3 & H4 & _).
  exists w'. repeat split; assumption.
Defined.

(** And at the end of the enclosing foreground section the mutex is
    released a second time. *)
Lemma runInForeground_releases_twice_after_background_failure :
  exists w',
    runInForeground calm (runInBackground calm (throw (Error "boom") : M unit)) idle
      = (Throw (Error "boom"), w') /\
    trace w' = trace (acquired idle) ++ [EvRelease; EvRelease].
Proof. eexists. split; reflexivity. Qed.

Lemma runInBackground_resumes_foreground_holding :
  inForeground (this holding) = true /\
  runInBackground calm (ret 5%nat) holding = (Ok 5%nat, acquired (released holding)) /\
  inForeground (this (acquired (released holding))) = true.
Proof.
  split; [reflexivity|].
  destruct (runInBackground_resumes_foreground calm (ret 5%nat) holding 5%nat
              (released holding) (acquired (released holding)) eq_refl eq_refl eq_refl)
    as (H1 & _ & _ & H2 & _).
  split; assumption.
Defined.

(** At a job that would write to the console: nothing is written. *)
Lemma runInForeground_bringToFront_rejects_idle :
  inForeground (this idle) = false /\
  isLocked (activePageMutex (browser idle)) = false /\
  runInForeground rejecting_front (console_log (Some "job ran")) idle
    = (Throw (Error "Protocol error: target closed"), acquired idle) /\
  trace (acquired idle) = [EvStatus "Waiting for active page"; EvAcquire; EvStatus "";
                           EvCall (CBringToFront 10)] /\
  isLocked (activePageMutex (browser (acquired idle))) = true /\
  inForeground (this (acquired idle)) = true.
Proof.
  split; [reflexivity|]. split; [reflexivity|].
  destruct (runInForeground_keeps_token_when_bringToFront_rejects rejecting_front
              (console_log (Some "job ran")) idle (Error "Protocol error: target closed")
              eq_refl eq_refl eq_refl) as (Hrun & _ & Hfg & Hlocked & _).
  split; [exact Hrun|]. split; [reflexivity|]. split; [exact Hlocked | exact Hfg].
Defined.


Lemma waitForSelector_timeout_is_null :
  exists w',
    waitForSelector calm "#missing"
      {| sel_timeoutMs := Some 100%Z; sel_waitIn := None; sel_visible := None |} idle
    = (Ok None, w') /\
    trace w' = [EvCall (CQuery 10 "#missing");
                EvStatus "Waiting for selector #missing";
                EvCall (CWaitForSelector 10 "#missing" 100 None);
                EvStatus ""].
Proof. eexists. split; reflexivity. Qed.

Lemma addPageTask_failing_job_pooled :
  getPage calm pooled = (Ok 12, with_browser (set_availablePages [10]) pooled) /\
  exists w3,
    addPageTask calm job (throw (Error "job failed")) pooled
      = (Throw (Error "job failed"), w3) /\
    availablePages (browser w3) = [10; 12] /\
    isLocked (activePageMutex (browser w3)) = false.
Proof.
  split; [reflexivity|].
  destruct (addPageTask_returns_tab calm job (throw (Error "job failed")) pooled
              12 (with_browser (set_availablePages [10]) pooled) eq_refl) as [_ H].
  destruct (H _ _ (Error "job failed") _ eq_refl eq_refl eq_refl)
    as (w3 & H1 & H2 & _ & H3).
  exists w3. repeat split; assumption.
Defined.

Lemma getPage_takes_from_pool_pooled :
  availablePages (browser pooled) <> [] /\
  exists p w',
    getPage calm pooled = (Ok p, w') /\
    last (availablePages (browser pooled)) = Some p /\
    availablePages (browser w') = removelast (availablePages (browser pooled)) /\
    availablePages (browser pooled) = availablePages (browser w') ++ [p] /\
    _browser (browser w') = _browser (browser pooled) /\
    trace w' = trace pooled /\
    activePage (browser w') = activePage (browser pooled) /\
    this w' = this pooled /\
    forall other : Driver, getPage other pooled = (Ok p, w').
Proof.
  split; [discriminate|].
  apply (getPage_takes_from_pool calm pooled). discriminate.
Defined.

(** C7, as stated, at a session outside the foreground: the delay of
    [wait(5, "foreground")] runs without the token, and not through
    [runInForeground]. *)
Lemma wait_foreground_takes_no_token :
  inForeground (this idle) = false /\
  exists w',
    wait calm 5 (Some foreground) idle = (Ok tt, w') /\
    trace w' = [EvStatus "Waiting 5ms in foreground"; EvSetTimeout 5; EvStatus ""] /\
    inForeground (this w') = false /\
    wait calm 5 (Some foreground) idle
      <> runInForeground calm (wait_f 5 (Some foreground)) idle.
Proof.
  split; [reflexivity|]. eexists. repeat split. discriminate.
Qed.

Lemma getFirstVisibleElement_nearly_aligned :
  drv_queryAll nearly_aligned (trace idle) (page (this idle)) "li.result" = Ok [1; 2; 3] /\
  drv_isTrulyVisible nearly_aligned [] 2
    = Ok (Some {| rect_top := 40; rect_left := 8 - (1 # 64);
                  rect_width := 100; rect_height := 20 |}) /\
  fst (getFirstVisibleElement nearly_aligned "li.result" 0 idle) = Ok (Some 1) /\
  fst (getFirstVisibleElement nearly_aligned "li.result" 2 idle) = Ok (Some 201).
Proof.
  split; [reflexivity|]. split; [reflexivity|].
  assert (Hgrid : forall els : list VisibleEl,
    Forall (fun a => onPixelGrid (rect_top (rect a)) && onPixelGrid (rect_left (rect a)) = true)
      els ->
    forall a, a ∈ els -> placedOnGrid a).
  { intros els H a Ha. rewrite Forall_forall in H.
    apply andb_true_iff, H, Ha. }
  assert (Hclose : forall els : list VisibleEl,
    Forall (fun a => Forall (fun b => closeKeysb (length els) a b = true) els) els ->
    forall a b, a ∈ els -> b ∈ els -> closeKeys (length els) a b).
  { intros els H a b Ha Hb. rewrite Forall_forall in H.
    specialize (H a Ha). rewrite Forall_forall in H.
    apply Qle_bool_iff, H, Hb. }
  split.
  - edestruct (getFirstVisibleElement_keeps_order_of_close_keys nearly_aligned "li.result" 0 idle)
      as (_ & H & _);
      [reflexivity | reflexivity | reflexivity | cbn; lia | | | rewrite H; reflexivity].
    + apply Hgrid. repeat constructor.
    + apply Hclose. repeat constructor.
  - edestruct (getFirstVisibleElement_keeps_order_of_close_keys nearly_aligned "li.result" 2 idle)
      as (_ & H & _);
      [reflexivity | reflexivity | reflexivity | cbn; lia | | | rewrite H; reflexivity].
    + apply Hgrid. repeat constructor.
    + apply Hclose. repeat constructor.
Defined.

(** C8, as stated, at three matches whose tops are 40 when rounded:
    the one returned is not the first of the query but the last, whose
    top is the least as reported. *)
Lemma getFirstVisibleElement_orders_unrounded_positions :
  drv_queryAll rounding_to_40 [] 10%nat "li.result" = Ok [1; 2; 3] /\
  (forall h, h ∈ [1; 2; 3] ->
     exists r, drv_isTrulyVisible rounding_to_40 [] h = Ok (Some r) /\
               Math_round (rect_top r) = 40%Z /\ Math_round (rect_left r) = 8%Z) /\
  fst (getFirstVisibleElement rounding_to_40 "li.result" 0 idle) = Ok (Some 3) /\
  fst (getFirstVisibleElement rounding_to_40 "li.result" 0 idle) <> Ok (Some 1).
Proof.
  split; [reflexivity|]. split.
  - intros h Hh. rewrite !elem_of_cons, elem_of_nil in Hh.
    destruct Hh as [->|[->|[->|[]]]]; eexists; repeat split.
  - split; [vm_compute; reflexivity|]. vm_compute. discriminate.
Qed.

Lemma typeInElement_multi_line_two_lines :
  truthy_flag (multiLinedShiftReturn multiLine) = true /\
  exists w2,
    typeInElement_type calm (String "a" (String newline "b")) multiLine
      (snd (typeInElement_focus calm 0 7 multiLine holding)) = (Ok tt, w2) /\
    calls (trace w2) =
      [CFocus 7;
       CKeyboardType 10 "a" 5; CKeyboardDown 10 Shift; CKeyboardPress 10 Enter;
       CKeyboardUp 10 Shift;
       CKeyboardType 10 "b" 5; CKeyboardDown 10 Shift; CKeyboardPress 10 Enter;
       CKeyboardUp 10 Shift].
Proof.
  split; [reflexivity|].
  destruct (typeInElement_multi_line calm (fun _ _ _ => eq_refl) 0 7
              (String "a" (String newline "b")) multiLine holding
              (snd (typeInElement_focus calm 0 7 multiLine holding))
              eq_refl eq_refl) as (w2 & H1 & H2 & _).
  exists w2. split; [exact H1|]. rewrite H2. reflexivity.
Defined.

(** C9, as stated, at the two lines "a" and "b": the code sends a
    second soft line break, after the last line, where the claim has
    one, between the two. *)
Lemma typeInElement_soft_break_after_last_line :
  let text := String "a" (String newline "b") in
  let w' := snd (typeInElement calm 0 7 text multiLine holding) in
  fst (typeInElement calm 0 7 text multiLine holding) = Ok tt /\
  calls (trace w') = CFocus 7 :: keysAfterEachLine 10 5 text /\
  keysBetweenLines 10 5 text =
    [CKeyboardType 10 "a" 5; CKeyboardDown 10 Shift; CKeyboardPress 10 Enter;
     CKeyboardUp 10 Shift; CKeyboardType 10 "b" 5] /\
  calls (trace w') <> CFocus 7 :: keysBetweenLines 10 5 text.
Proof. repeat split. discriminate. Qed.

(** ** The sort, on small arrays *)

Example sort_row_major :
  map el (sort (compareEls 5)
            [at_ 30 0 0; at_ 20 0 1; at_ 10 7 2; at_ 40 0 3; at_ 10 2 4])
  = [4; 2; 1; 0; 3].
Proof. reflexivity. Qed.

Example sort_keeps_tied_in_order :
  map el (sort (compareEls 3) [at_ 10 5 0; at_ 0 0 1; at_ 0 0 2]) = [1; 2; 0].
Proof. reflexivity. Qed.

(** Positions are compared as they are, not rounded to pixels. *)
Example sort_does_not_round :
  map el (sort (compareEls 3) [at_ (41 # 4) 0 0; at_ (42 # 4) 0 1; at_ (81 # 8) 0 2])
  = [2; 0; 1].
Proof. vm_compute. reflexivity. Qed.

(** The comparator rounds as doubles do: with two matches in a row, the
    first at the double nearest to 0.02 and the second at 0, the
    product and the sum round to -2 and 0, and the second does not go
    before the first; in exact arithmetic it would. *)
Example compareEls_rounds :
  let left := roundDouble (2 # 100) in
  Qred left = (5764607523034235 # 288230376151711744)%Q /\
  Qeq_bool (compareEls 2 (at_ 0 0 1) (at_ 0 left 0)) 0 = true /\
  negative (compareEls 2 (at_ 0 0 1) (at_ 0 left 0)) = false /\
  negative (compositeKey (at_ 0 0 1) - compositeKey (at_ 0 left 0) + 2)%Q = true.
Proof. vm_compute. repeat split. Qed.

(** ** Rows and ties *)

Lemma getFirstVisibleElement_two_rows :
  drv_queryAll two_rows (trace idle) (page (this idle)) "a.result" = Ok [1; 2; 3; 4] /\
  exists h,
    el h = 3%nat /\
    fst (getFirstVisibleElement two_rows "a.result" 0 idle) = Ok (Some (el h)).
Proof.
  split; [reflexivity|].
  assert (Hgrid : forall els : list VisibleEl,
    Forall (fun a => onPixelGrid (rect_top (rect a)) && onPixelGrid (rect_left (rect a)) = true)
      els ->
    forall a, a ∈ els -> placedOnGrid a).
  { intros els H a Ha. rewrite Forall_forall in H.
    apply andb_true_iff, H, Ha. }
  assert (Hap : forall els : list VisibleEl,
    Forall (fun a => Forall (fun b => apartb (length els) a b = true) els) els ->
    forall a b, a ∈ els -> b ∈ els -> apart (length els) a b).
  { intros els H a b Ha Hb. rewrite Forall_forall in H.
    specialize (H a Ha). rewrite Forall_forall in H.
    apply apartb_apart, H, Hb. }
  edestruct (getFirstVisibleElement_picks_least_key two_rows "a.result" 0 idle)
    as (h & _ & Hrun & _);
    [reflexivity | reflexivity | reflexivity | discriminate | cbn; lia | | | ].
  { apply Hgrid. repeat constructor. }
  { apply Hap. repeat constructor. }
  assert (Hc : fst (getFirstVisibleElement two_rows "a.result" 0 idle) = Ok (Some 3%nat))
    by (vm_compute; reflexivity).
  exists h. rewrite Hrun in Hc |- *. cbn [fst] in Hc |- *. injection Hc as Eh.
  split; [exact Eh | reflexivity].
Defined.

(** ** Typing after scrolling into view *)

Example typeInElement_scrolls_first :
  fst (typeInElement calm 1 7 "hello"
         {| type_scrollIntoView := None; type_slowTyping := Some false;
            type_waitAfter := Some 0%Z; type_waitIn := None;
            multiLinedShiftReturn := None; pressReturnAtEnd := Some true |} holding)
  = Ok tt /\
  calls (trace (snd (typeInElement calm 1 7 "hello"
         {| type_scrollIntoView := None; type_slowTyping := Some false;
            type_waitAfter := Some 0%Z; type_waitIn := None;
            multiLinedShiftReturn := None; pressReturnAtEnd := Some true |} holding)))
  = [CBoundingCenter 7; CScrollTo 10 {| pt_x := 0; pt_y := 0 |}; CBoundingCenter 7;
     CFocus 7; CKeyboardType 10 "hello" 0; CKeyboardPress 10 Enter].
Proof. split; reflexivity. Qed.

(** ** The pool, empty *)

(** No tab and no browser: one launch, whose first tab is handed out. *)
Example getPage_launches_once :
  exists w',
    getPage calm idle = (Ok 10%nat, w') /\
    calls (trace w') = [CLaunch; CPages 1; CSetViewport 10 980 800] /\
    _browser (browser w') = Some 1%nat /\
    availablePages (browser w') = [] /\
    isLocked (browserMutex (browser w')) = false.
Proof. eexists. repeat split. Qed.

(** No tab, but a browser: a new tab is asked for, and nothing is
    launched. *)
Example getPage_opens_new_tab :
  exists w',
    getPage calm (with_browser (set_availablePages []) pooled) = (Ok 11%nat, w') /\
    calls (trace w') = [CNewPage 1] /\
    activePage (browser w') = None.
Proof. eexists. repeat split. Qed.

(** ** The status stack *)

Example status_after_push :
  exists w',
    (statusPush "Logging in";; status "Logged in")%js idle = (Ok tt, w') /\
    statusStack (this w') = ["Logged in"] /\
    trace w' = [EvStatus "Logging in"; EvStatus "Logged in"].
Proof. eexists. repeat split. Qed.

Lemma runInForeground_keeps_statusStack_wait :
  keepsStatusStack (wait_f 250 None) /\
  statusStack (this (snd (runInForeground calm (wait_f 250 None) idle)))
  = statusStack (this idle).
Proof.
  split; [apply keeps_wait_f|].
  apply (runInForeground_keeps_statusStack calm (wait_f 250 None) (keeps_wait_f 250 None)
           idle (Ok tt) (snd (runInForeground calm (wait_f 250 None) idle)));
    [reflexivity | discriminate].
Defined.

Lemma waitForSelector_keeps_statusStack_holding :
  exists w',
    waitForSelector calm "#missing"
      {| sel_timeoutMs := Some 100%Z; sel_waitIn := Some background; sel_visible := None |}
      (snd (statusPush "Checking out" holding)) = (Ok None, w') /\
    statusStack (this w') = ["Checking out"].
Proof.
  eexists. split; [reflexivity|].
  apply (waitForSelector_keeps_statusStack calm "#missing"
           {| sel_timeoutMs := Some 100%Z; sel_waitIn := Some background; sel_visible := None |}
           (snd (statusPush "Checking out" holding)) (Ok None) _ eq_refl).
  discriminate.
Defined.

Lemma goto_leaves_navigation_status_idle :
  exists w',
    goto calm "https://example.com/"
      {| go_timeoutMs := None; go_waitUntil := None; go_waitAfterMs := Some 500%Z |} idle
    = (Ok tt, w') /\
    statusStack (this w') = ["Navigating to https://example.com/"].
Proof.
  eexists. split; [vm_compute; reflexivity|].
  apply (goto_leaves_navigation_status calm "https://example.com/"
           {| go_timeoutMs := None; go_waitUntil := None; go_waitAfterMs := Some 500%Z |}
           idle (Ok tt) _ eq_refl).
  discriminate.
Defined.

(** ** Focus *)

Lemma typeInElement_focus_failure_idle :
  exists w',
    typeInElement (refusing isFocus) 1 7 "hello" multiLine idle
      = (Throw (Error "Protocol error: target closed"), w') /\
    statusStack (this w') = ["Focusing"] /\
    trace w' = [EvStatus "Focusing"; EvCall (CFocus 7)].
Proof.
  destruct (typeInElement_focus_failure (refusing isFocus) 1 7 "hello" multiLine idle
              (Error "Protocol error: target closed") eq_refl eq_refl)
    as (w' & H1 & H2 & H3 & _).
  exists w'. repeat split; assumption.
Defined.

(** ** The browser *)


Example create_twice_launches_once :
  calls (trace (snd ((create calm;; create calm)%js idle)))
  = [CLaunch; CPages 1; CSetViewport 10 980 800].
Proof. reflexivity. Qed.

Lemma getPage_after_failed_viewport_idle :
  exists w1,
    getPage (refusing isSetViewport) idle
      = (Throw (Error "Protocol error: target closed"), w1) /\
    _browser (browser w1) = None /\
    availablePages (browser w1) = [10%nat] /\
    exists w2,
      getPage (refusing isSetViewport) w1 = (Ok 10%nat, w2) /\
      trace w2 = trace w1 /\
      _browser (browser w2) = None.
Proof.
  destruct (getPage_after_failed_viewport (refusing isSetViewport) idle 1%nat [10%nat] 10%nat
              (Error "Protocol error: target closed")
              eq_refl eq_refl eq_refl eq_refl eq_refl eq_refl eq_refl eq_refl)
    as (w1 & H1 & H2 & H3 & _ & p & w2 & H4 & H5 & H6 & H7).
  injection H5 as <-.
  exists w1. repeat split; try assumption.
  exists w2. repeat split; assumption.
Defined.

Lemma addPageTask_navigation_failure_pooled :
  getPage (refusing isGoto) pooled = (Ok 12%nat, with_browser (set_availablePages [10%nat]) pooled) /\
  exists w',
    addPageTask (refusing isGoto) browsing (throw (Error "job ran")) pooled
      = (Throw (Error "Protocol error: target closed"), w') /\
    trace w' = [EvStatus "Navigating to https://example.com/";
                EvCall (CGoto 12 "https://example.com/" 20000 "load");
                EvConsoleError (Error "Protocol error: target closed")] /\
    availablePages (browser w') = [10%nat; 12%nat] /\
    isLocked (activePageMutex (browser w')) = false.
Proof.
  split; [reflexivity|].
  destruct (addPageTask_navigation_failure (refusing isGoto) browsing
              (throw (Error "job ran")) pooled 12%nat
              (with_browser (set_availablePages [10%nat]) pooled)
              "https://example.com/" (Error "Protocol error: target closed")
              eq_refl eq_refl eq_refl eq_refl)
    as (w' & H1 & H2 & H3 & H4 & _).
  exists w'. split; [exact H1|]. split; [exact H2|]. split; [exact H3|].
  rewrite H4. reflexivity.
Defined.

(** ** Selectors *)

Lemma getSelectorImmediate_first_visible_covered :
  exists w',
    getSelectorImmediate first_covered "button" (Some true) idle = (Ok (Some 2%nat), w') /\
    calls (trace w') = [CQueryAll 10 "button"; CIsTrulyVisible 1; CIsTrulyVisible 2].
Proof.
  destruct (getSelectorImmediate_first_visible first_covered "button" (Some true) idle
              [1%nat; 2%nat; 3%nat] covered_first eq_refl eq_refl)
    as (w' & H1 & H2 & _).
  { intros t h _. reflexivity. }
  exists w'. split; [exact H1 | exact H2].
Defined.

Example waitForAllSelectors_negative_timeout :
  waitForAllSelectors first_covered "button" (within (-5)) idle
  = (Ok [1%nat; 2%nat; 3%nat], emit (EvCall (CQueryAll 10 "button")) idle) /\
  waitForAllSelectors first_covered "button"
    {| sel_timeoutMs := None; sel_waitIn := None; sel_visible := Some true |} idle
  = (Throw notImplemented, idle).
Proof. split; reflexivity. Qed.

Lemma scrollToElement_steady_calm :
  exists w',
    scrollToElement calm 1 7 holding = (Ok {| pt_x := 0; pt_y := 0 |}, w') /\
    calls (trace w') = [CBoundingCenter 7; CScrollTo 10 {| pt_x := 0; pt_y := 0 |};
                        CBoundingCenter 7] /\
    delays (trace w') = [250%Z].
Proof.
  destruct (scrollToElement_steady calm 0 7 {| pt_x := 0; pt_y := 0 |} holding)
    as (w' & H1 & H2 & H3 & _).
  { intros t. reflexivity. }
  { intros t. reflexivity. }
  exists w'. repeat split; assumption.
Defined.

(** ** Polling *)

Lemma ticking_advances : clockAdvances ticking.
Proof.
  assert (E : forall t ev,
    ticking (t ++ [ev])
    = (ticking t + match ev with EvSetTimeout ms => Z.max 0 ms | _ => 0 end)%Z).
  { intros t ev. unfold ticking. rewrite delays_app.
    generalize (delays t) as l. intros l.
    induction l as [|d l IH]; cbn [app fold_right].
    - destruct ev; cbn; lia.
    - rewrite IH. lia. }
  split.
  - intros t ev. rewrite E. destruct ev; lia.
  - intros t ms. rewrite E. lia.
Qed.

Lemma waitForAllSelectorsWithInner_one_answer_covered :
  exists t hs,
    waitForAllSelectorsWithInner first_covered reads_cancel ticking
      (fun text => String.eqb text "Cancel") 1 "button"
      {| sel_timeoutMs := None; sel_waitIn := None; sel_visible := Some true |} idle
    = (Ok [2%nat; 3%nat], emitAll (map EvCall [CQueryAll 10 "button"; CIsTrulyVisible 1;
                                               CIsTrulyVisible 2; CIsTrulyVisible 3]) idle) /\
    drv_queryAll first_covered t 10%nat "button" = Ok hs /\
    [2%nat; 3%nat] `sublist_of` hs.
Proof.
  destruct (waitForAllSelectorsWithInner_one_answer first_covered reads_cancel ticking
              (fun text => String.eqb text "Cancel") 1 "button"
              {| sel_timeoutMs := None; sel_waitIn := None; sel_visible := Some true |}
              idle [2%nat; 3%nat] _ eq_refl)
    as (t & hs & H1 & H2).
  exists t, hs. split; [reflexivity|]. split; assumption.
Defined.

Lemma waitForAllSelectorsWithInner_times_out_cancel :
  clockAdvances ticking /\
  exists n w',
    (1 <= n <= 3)%nat /\
    waitForAllSelectorsWithInner first_covered reads_cancel ticking is_save 3 "button"
      (within 600) idle = (Ok [], w') /\
    delays (trace w') = replicate n 250%Z /\
    (600 <= ticking (trace w'))%Z.
Proof.
  split; [exact ticking_advances|].
  destruct (waitForAllSelectorsWithInner_times_out first_covered reads_cancel ticking is_save
              "button" (within 600) 600 [1%nat; 2%nat; 3%nat] idle ticking_advances eq_refl)
    as (n & w' & Hn1 & Hn2 & Hrun & Hnow & Hd & _).
  - lia.
  - discriminate.
  - intros t. reflexivity.
  - intros t h _. eexists. split; reflexivity.
  - assert (Hn3 : (n <= 3)%nat).
    { apply Nat2Z.inj_le. etransitivity; [exact Hn2|]. vm_compute. discriminate. }
    exists n, w'. split; [lia|].
    split; [apply (Hrun 3%nat Hn3)|]. split; [exact Hd|].
    change (ticking (trace idle)) with 0%Z in Hnow. lia.
Defined.

(** ** Inside the page *)

Example button_is_truly_visible :
  evaluate_isTrulyVisible (window_over (Some (button plain))) (button plain)
  = Some (boundingClientRect (button plain)) /\
  evaluate_isTrulyVisible (window_over (Some body_element)) (button plain) = None /\
  evaluate_isTrulyVisible (window_over None) (button plain) = None.
Proof. repeat split. Qed.

Lemma evaluate_isTrulyVisible_hidden_dialog :
  dialog not_displayed ∈ selfAndAncestors (button not_displayed) /\
  evaluate_isTrulyVisible (window_over (Some (button not_displayed))) (button not_displayed)
  = None.
Proof.
  split; [right; left|].
  apply (evaluate_isTrulyVisible_hidden_parent _ _ (dialog not_displayed));
    [right; left | left; reflexivity].
Defined.

Example getMatchingParent_of_button :
  evaluate_getMatchingParent (button plain) ".dialog" = Returned (Some (dialog plain)) /\
  evaluate_getMatchingParent (button plain) "body" = Returned (Some body_element) /\
  evaluate_getMatchingParent (button plain) "button" = Returned None /\
  evaluate_getMatchingParent body_element "[" = Returned None.
Proof. repeat split. Qed.

Lemma evaluate_getElementCenter_inside_button :
  evaluate_getElementCenter (button plain) = {| pt_x := 261; pt_y := 263 |} /\
  (220 <= inject_Z 261 <= 220 + 81)%Q /\
  (250 <= inject_Z 263 <= 250 + 25)%Q.
Proof.
  split; [reflexivity|].
  apply (evaluate_getElementCenter_inside (button plain)); cbn; lra.
Defined.

Lemma trulyVisible_center_in_viewport_button :
  (0 <= inject_Z (pt_x (evaluate_getElementCenter (button plain))) <= 800)%Q /\
  (0 <= inject_Z (pt_y (evaluate_getElementCenter (button plain))) <= 601)%Q.
Proof.
  destruct (trulyVisible_center_in_viewport (window_over (Some (button plain)))
              (button plain) _ eq_refl) as (Hx & Hy & _).
  split; [exact Hx | exact Hy].
Defined.

Example scrollToPoint_near_the_centre :
  evaluate_scrollToPoint (window_over None) {| pt_x := 410; pt_y := 290 |} = None /\
  evaluate_scrollToPoint (window_over None) {| pt_x := 410; pt_y := 311 |} = Some (10, 11)%Z /\
  evaluate_scrollToPoint (window_over None) {| pt_x := 410; pt_y := 289 |} = Some (10, -11)%Z.
Proof. repeat split. Qed.

(** ** Lists of lists *)

Example flattenListOfLists_of_three :
  flattenListOfLists 3 [[1; 2]; []; [3]]%nat = Returned [1; 2; 3]%nat /\
  flattenListOfLists 2 [[1; 2]; [3; 4; 5]; [6]]%nat = Threw.
Proof. split; reflexivity. Qed.
